(** * Whiteboard animation timeline engine

    A shallow embedding of the scene generator (timeline allocator, text
    stroke compiler, semantic compiler), of the glyph path utilities and
    of the animation engine's state evaluator, with the properties the
    specification states about them.

    Numbers.  A JavaScript [number] is modelled as an exact rational or
    one of the three special values the code tests for ([NaN],
    [Infinity], [-Infinity]).  Rounding of finite results, overflow of
    finite operands to an infinity and the sign of zero are not
    modelled: finite arithmetic is exact.  Properties that overflow or
    the loss of a small term beside a large one would break are stated
    for operands in a range where neither happens.

    Strings.  A text is the list of its code points, the unit the source
    iterates over with [for (const char of text)]; [length] and
    [substring] count UTF-16 code units, two for a character above the
    basic plane.  A vector path string is kept as the list of its
    commands, each with its numeric arguments. *)

From Stdlib Require Import QArith Qminmax Qround Qabs ZArith NArith.
From Stdlib Require Import List Bool String Ascii Lia Lqa.
From Stdlib Require Import DecimalString.
Import ListNotations.

Local Open Scope Q_scope.

(** ** JavaScript numbers *)

Module JS.

Inductive num : Type :=
| Fin (q : Q)
| PInf
| NInf
| NaN.

Definition Qltb (x y : Q) : bool := negb (Qle_bool y x).

Definition isNaN (a : num) : bool :=
  match a with NaN => true | _ => false end.

Definition isFinite (a : num) : bool :=
  match a with Fin _ => true | _ => false end.

(** [x || d] on numbers: [0] and [NaN] are falsy. *)
Definition truthy (a : num) : bool :=
  match a with
  | Fin q => negb (Qeq_bool q 0)
  | PInf | NInf => true
  | NaN => false
  end.

Definition orElse (a d : num) : num := if truthy a then a else d.

Definition neg (a : num) : num :=
  match a with
  | Fin q => Fin (- q)
  | PInf => NInf
  | NInf => PInf
  | NaN => NaN
  end.

Definition add (a b : num) : num :=
  match a, b with
  | NaN, _ | _, NaN => NaN
  | Fin x, Fin y => Fin (x + y)
  | PInf, NInf | NInf, PInf => NaN
  | PInf, _ | _, PInf => PInf
  | NInf, _ | _, NInf => NInf
  end.

Definition sub (a b : num) : num := add a (neg b).

(** Sign of a number that is not [NaN]: [Lt] negative, [Eq] zero. *)
Definition sign (a : num) : comparison :=
  match a with
  | Fin q => q ?= 0
  | PInf => Gt
  | NInf => Lt
  | NaN => Eq
  end.

Definition inf_of (s : comparison) : num :=
  match s with Gt => PInf | Lt => NInf | Eq => NaN end.

Definition sign_mul (s t : comparison) : comparison :=
  match s, t with
  | Eq, _ | _, Eq => Eq
  | Gt, Gt | Lt, Lt => Gt
  | _, _ => Lt
  end.

Definition mul (a b : num) : num :=
  match a, b with
  | NaN, _ | _, NaN => NaN
  | Fin x, Fin y => Fin (x * y)
  | _, _ => inf_of (sign_mul (sign a) (sign b))
  end.

(** Division.  A finite non-zero number over zero is an infinity of the
    sign of the numerator (zero is taken as [+0]). *)
Definition div (a b : num) : num :=
  match a, b with
  | NaN, _ | _, NaN => NaN
  | Fin x, Fin y =>
      if Qeq_bool y 0 then inf_of (x ?= 0) else Fin (x / y)
  | Fin _, _ => Fin 0
  | _, Fin y => inf_of (sign_mul (sign a) (if Qeq_bool y 0 then Gt else y ?= 0))
  | _, _ => NaN
  end.

Definition ltb (a b : num) : bool :=
  match a, b with
  | NaN, _ | _, NaN => false
  | Fin x, Fin y => Qltb x y
  | _, NInf => false
  | NInf, _ => true
  | PInf, _ => false
  | _, PInf => true
  end.

Definition leb (a b : num) : bool :=
  match a, b with
  | NaN, _ | _, NaN => false
  | Fin x, Fin y => Qle_bool x y
  | NInf, _ => true
  | _, PInf => true
  | _, _ => false
  end.

Definition gtb (a b : num) : bool := ltb b a.

(** [a === b] on numbers. *)
Definition eqb (a b : num) : bool :=
  match a, b with
  | Fin x, Fin y => Qeq_bool x y
  | PInf, PInf | NInf, NInf => true
  | _, _ => false
  end.
Definition geb (a b : num) : bool := leb b a.

(** [Math.max] and [Math.min] of two arguments. *)
Definition max (a b : num) : num :=
  match a, b with
  | NaN, _ | _, NaN => NaN
  | _, _ => if leb a b then b else a
  end.

Definition min (a b : num) : num :=
  match a, b with
  | NaN, _ | _, NaN => NaN
  | _, _ => if leb a b then a else b
  end.

Definition abs (a : num) : num :=
  match a with
  | Fin q => Fin (Qabs q)
  | PInf | NInf => PInf
  | NaN => NaN
  end.

Definition floor (a : num) : num :=
  match a with
  | Fin q => Fin (inject_Z (Qfloor q))
  | _ => a
  end.

(** [Math.PI], by its shortest decimal form. *)
Definition PI : num := Fin 3.141592653589793.

Definition ofZ (z : Z) : num := Fin (inject_Z z).
Definition ofNat (n : nat) : num := Fin (inject_Z (Z.of_nat n)).

(** Equality of numbers as values ([1/2] and [2/4] are the same
    number); [NaN] is related to itself here, this is not [===]. *)
Definition eqv (a b : num) : Prop :=
  match a, b with
  | Fin x, Fin y => x == y
  | PInf, PInf | NInf, NInf | NaN, NaN => True
  | _, _ => False
  end.

(** Array access [xs[i]] with a numeric index: [None] stands for
    [undefined]. *)
Definition index {A : Type} (xs : list A) (i : num) : option A :=
  match i with
  | Fin q =>
      if Qeq_bool q (inject_Z (Qfloor q)) && Qle_bool 0 q
      then nth_error xs (Z.to_nat (Qfloor q))
      else None
  | _ => None
  end.

End JS.

Abbreviation num := JS.num.
Abbreviation Fin := JS.Fin.
Abbreviation PInf := JS.PInf.
Abbreviation NInf := JS.NInf.
Abbreviation NaN := JS.NaN.

Declare Scope js_scope.
Delimit Scope js_scope with js.
Infix "+" := JS.add : js_scope.
Infix "-" := JS.sub : js_scope.
Infix "*" := JS.mul : js_scope.
Infix "/" := JS.div : js_scope.
Infix "<?" := JS.ltb : js_scope.
Infix "<=?" := JS.leb : js_scope.
Infix ">?" := JS.gtb : js_scope.
Infix ">=?" := JS.geb : js_scope.
Infix "=~" := JS.eqv (at level 70, no associativity) : js_scope.

(** ** Strings, positions and vector paths *)

(** A character is a code point; a string is the list of its code
    points. *)
Definition jschar : Type := N.
Definition jsstring : Type := list jschar.

Definition cp (c : ascii) : jschar := N_of_ascii c.
Definition str (s : string) : jsstring := map N_of_ascii (list_ascii_of_string s).

Definition space : jschar := cp " ".

Fixpoint startsWith (prefix s : jsstring) : bool :=
  match prefix, s with
  | [], _ => true
  | p :: prefix', c :: s' => N.eqb p c && startsWith prefix' s'
  | _ :: _, [] => false
  end.

(** [s.replace(pat, '')] with a string pattern: the first occurrence
    only. *)
Fixpoint removeFirst (pat s : jsstring) : jsstring :=
  if startsWith pat s then skipn (List.length pat) s
  else match s with
       | [] => []
       | c :: s' => c :: removeFirst pat s'
       end.

(** The UTF-16 code units of a character: strings are held as code
    points, as [for ... of] reads them, and a character above the basic
    plane takes two units. *)
Definition codeUnits (c : jschar) : nat := if (c <? 65536)%N then 1 else 2.

(** [s.length]: the number of UTF-16 code units. *)
Definition strLength (s : jsstring) : nat :=
  fold_right (fun c n => (codeUnits c + n)%nat) 0%nat s.

(** The first unit of the surrogate pair of a character above the
    basic plane. *)
Definition highSurrogate (c : jschar) : jschar :=
  (55296 + (c - 65536) / 1024)%N.

(** [s.substring(0, endIndex)]: the first [endIndex] code units.  A
    character whose pair is cut in two leaves its high surrogate, which
    is then read as a character of its own. *)
Fixpoint substring0 (endIndex : nat) (s : jsstring) : jsstring :=
  match endIndex, s with
  | O, _ => []
  | _, [] => []
  | S n, c :: rest =>
      if (c <? 65536)%N then c :: substring0 n rest
      else match n with
           | O => [highSurrogate c]
           | S n' => c :: substring0 n' rest
           end
  end.

Record Position : Type := mkPosition { px : num; py : num }.

(** One command of a path string: its letter and its arguments. *)
Record PathCmd : Type := mkCmd { cmd_letter : ascii; cmd_args : list num }.
Definition svgpath : Type := list PathCmd.

(** [PathPoint] of the engine's types. *)
Record PathPoint : Type := mkPathPoint {
  pt_x : num;
  pt_y : num;
  pt_progress : num;
  pt_time : num
}.

(** ** The host: built-ins whose results the code only consumes

    [toUpperCase] is [String.prototype.toUpperCase] on a string of one
    code point (its result may have several).  The [Math] functions are
    the host's approximations.  [measurePath] stands for the [try] block
    of [calculatePathPoints], which measures an off-screen [path]
    element of the document ([getTotalLength], then one
    [getPointAtLength] sample per frame); [None] is the case where it
    throws. *)
Record Host : Type := mkHost {
  toUpperCase : jschar -> jsstring;
  Math_sqrt : num -> num;
  Math_atan2 : num -> num -> num;
  Math_cos : num -> num;
  Math_sin : num -> num;
  measurePath : svgpath -> num -> num -> option (list PathPoint)
}.

(** ** utils/textToPath *)

Module TextToPath.

Record PathSegment : Type := mkSegment { seg_d : svgpath; seg_length : num }.

Definition M (a : list Z) : PathCmd := mkCmd "M" (map JS.ofZ a).
Definition L (a : list Z) : PathCmd := mkCmd "L" (map JS.ofZ a).
Definition C (a : list Z) : PathCmd := mkCmd "C" (map JS.ofZ a).

Local Open Scope Z_scope.
Local Open Scope char_scope.

(** Handwritten letter paths, each letter as continuous strokes. *)
Definition LETTER_PATHS : list (jschar * list svgpath) :=
  [
    (cp "P",
      [ [M [0; 30]; L [0; 0]; C [20; 0; 25; 5; 25; 10]; C [25; 18; 15; 20; 0; 20]] ]);
    (cp "Y",
      [ [M [0; 0]; L [12; 15]; L [12; 30]];
        [M [24; 0]; L [12; 15]] ]);
    (cp "T",
      [ [M [0; 0]; L [24; 0]];
        [M [12; 0]; L [12; 30]] ]);
    (cp "H",
      [ [M [0; 0]; L [0; 30]];
        [M [0; 15]; L [20; 15]];
        [M [20; 0]; L [20; 30]] ]);
    (cp "O",
      [ [M [12; 0]; C [(-2); 0; (-2); 30; 12; 30]; C [26; 30; 26; 0; 12; 0]] ]);
    (cp "N",
      [ [M [0; 30]; L [0; 0]; L [20; 30]; L [20; 0]] ]);
    (cp "R",
      [ [M [0; 30]; L [0; 0]; C [20; 0; 22; 8; 20; 12]; C [18; 16; 10; 16; 0; 16]];
        [M [10; 16]; L [22; 30]] ]);
    (cp "G",
      [ [M [24; 6]; C [18; 0; 6; 0; 2; 10]; C [(-2); 20; 2; 30; 12; 30]; C [22; 30; 24; 22; 24; 16]; L [14; 16]] ]);
    (cp "A",
      [ [M [0; 30]; L [12; 0]; L [24; 30]];
        [M [6; 18]; L [18; 18]] ]);
    (cp "M",
      [ [M [0; 30]; L [0; 0]; L [14; 20]; L [28; 0]; L [28; 30]] ]);
    (cp "I",
      [ [M [0; 0]; L [16; 0]];
        [M [8; 0]; L [8; 30]];
        [M [0; 30]; L [16; 30]] ]);
    (cp "L",
      [ [M [0; 0]; L [0; 30]; L [20; 30]] ]);
    (cp "E",
      [ [M [20; 0]; L [0; 0]; L [0; 30]; L [20; 30]];
        [M [0; 15]; L [16; 15]] ]);
    (cp "S",
      [ [M [22; 6]; C [18; 0; 6; 0; 4; 6]; C [0; 14; 20; 16; 22; 24]; C [24; 32; 6; 32; 2; 26]] ]);
    (cp "C",
      [ [M [24; 6]; C [18; 0; 6; 0; 2; 10]; C [(-2); 22; 6; 30; 14; 30]; C [20; 30; 24; 26; 24; 26]] ]);
    (cp "D",
      [ [M [0; 0]; L [0; 30]; L [8; 30]; C [26; 30; 26; 0; 8; 0]; L [0; 0]] ]);
    (cp "U",
      [ [M [0; 0]; L [0; 20]; C [0; 32; 22; 32; 22; 20]; L [22; 0]] ]);
    (cp "W",
      [ [M [0; 0]; L [7; 30]; L [14; 10]; L [21; 30]; L [28; 0]] ]);
    (cp "B",
      [ [M [0; 0]; L [0; 30]];
        [M [0; 0]; C [18; 0; 18; 14; 0; 14]; C [20; 14; 20; 30; 0; 30]] ]);
    (cp "F",
      [ [M [20; 0]; L [0; 0]; L [0; 30]];
        [M [0; 14]; L [16; 14]] ]);
    (cp "V",
      [ [M [0; 0]; L [12; 30]; L [24; 0]] ]);
    (cp "K",
      [ [M [0; 0]; L [0; 30]];
        [M [22; 0]; L [0; 16]; L [22; 30]] ]);
    (cp "X",
      [ [M [0; 0]; L [24; 30]];
        [M [24; 0]; L [0; 30]] ]);
    (cp "Z",
      [ [M [0; 0]; L [24; 0]; L [0; 30]; L [24; 30]] ]);
    (cp "J",
      [ [M [0; 0]; L [20; 0]];
        [M [14; 0]; L [14; 24]; C [14; 32; 0; 32; 0; 24]] ]);
    (cp "Q",
      [ [M [12; 0]; C [(-2); 0; (-2); 30; 12; 30]; C [26; 30; 26; 0; 12; 0]];
        [M [16; 22]; L [26; 32]] ]);
    (cp "a",
      [ [M [0; 20]; C [0; 10; 8; 8; 12; 10]; C [16; 8; 24; 10; 24; 20]; C [24; 30; 16; 32; 12; 30]; C [8; 32; 0; 30; 0; 20]];
        [M [12; 20]; L [12; 30]] ]);
    (cp "b",
      [ [M [0; 0]; L [0; 30]];
        [M [0; 15]; C [0; 8; 6; 6; 12; 8]; C [18; 6; 24; 8; 24; 15]; C [24; 22; 18; 24; 12; 22]; C [6; 24; 0; 22; 0; 15]] ]);
    (cp "c",
      [ [M [24; 10]; C [20; 6; 8; 6; 4; 10]; C [0; 16; 4; 24; 12; 26]; C [20; 24; 24; 16; 24; 10]] ]);
    (cp "d",
      [ [M [24; 0]; L [24; 30]];
        [M [24; 15]; C [24; 8; 18; 6; 12; 8]; C [6; 6; 0; 8; 0; 15]; C [0; 22; 6; 24; 12; 22]; C [18; 24; 24; 22; 24; 15]] ]);
    (cp "e",
      [ [M [0; 18]; L [24; 18]];
        [M [0; 18]; C [0; 8; 8; 6; 16; 8]; C [24; 6; 24; 16; 20; 20]; C [16; 24; 8; 24; 4; 20]] ]);
    (cp "f",
      [ [M [12; 0]; L [12; 30]];
        [M [0; 8]; L [20; 8]];
        [M [8; 20]; C [12; 20; 16; 22; 16; 26]] ]);
    (cp "g",
      [ [M [12; 15]; C [12; 8; 6; 6; 0; 8]; C [(-4); 10; (-4); 18; 0; 20]; C [6; 22; 12; 20; 12; 15]];
        [M [12; 20]; L [12; 30]; C [12; 36; 6; 38; 2; 36]] ]);
    (cp "h",
      [ [M [0; 0]; L [0; 30]];
        [M [0; 15]; L [12; 15]];
        [M [12; 15]; C [12; 8; 18; 6; 24; 8]; C [24; 14; 24; 20; 24; 30]] ]);
    (cp "i",
      [ [M [8; 0]; L [8; 20]];
        [M [8; 30]; C [8; 28; 10; 28; 10; 30]; C [10; 32; 8; 32; 8; 30]] ]);
    (cp "j",
      [ [M [12; 0]; L [12; 20]];
        [M [12; 20]; C [12; 28; 6; 30; 2; 28]];
        [M [12; 30]; C [12; 28; 14; 28; 14; 30]; C [14; 32; 12; 32; 12; 30]] ]);
    (cp "k",
      [ [M [0; 0]; L [0; 30]];
        [M [0; 15]; L [16; 0]];
        [M [0; 15]; L [16; 30]] ]);
    (cp "l",
      [ [M [8; 0]; L [8; 30]];
        [M [8; 30]; L [4; 26]] ]);
    (cp "m",
      [ [M [0; 30]; L [0; 10]; C [0; 6; 4; 4; 8; 6]; C [12; 4; 16; 6; 16; 10]; L [16; 30]];
        [M [16; 10]; C [16; 6; 20; 4; 24; 6]; C [28; 4; 32; 6; 32; 10]; L [32; 30]] ]);
    (cp "n",
      [ [M [0; 30]; L [0; 10]; C [0; 6; 4; 4; 8; 6]; C [12; 4; 16; 6; 16; 10]; L [16; 30]] ]);
    (cp "o",
      [ [M [12; 10]; C [6; 8; 0; 10; 0; 18]; C [0; 26; 6; 28; 12; 26]; C [18; 28; 24; 26; 24; 18]; C [24; 10; 18; 8; 12; 10]] ]);
    (cp "p",
      [ [M [0; 30]; L [0; 0]];
        [M [0; 15]; C [0; 8; 6; 6; 12; 8]; C [18; 6; 24; 8; 24; 15]; C [24; 22; 18; 24; 12; 22]; C [6; 24; 0; 22; 0; 15]] ]);
    (cp "q",
      [ [M [24; 30]; L [24; 0]];
        [M [24; 15]; C [24; 8; 18; 6; 12; 8]; C [6; 6; 0; 8; 0; 15]; C [0; 22; 6; 24; 12; 22]; C [18; 24; 24; 22; 24; 15]];
        [M [18; 22]; L [28; 32]] ]);
    (cp "r",
      [ [M [0; 0]; L [0; 30]];
        [M [0; 15]; C [0; 10; 4; 8; 8; 10]; C [12; 8; 16; 10; 16; 15]] ]);
    (cp "s",
      [ [M [20; 8]; C [16; 4; 4; 4; 2; 8]; C [0; 14; 18; 16; 20; 22]; C [22; 28; 6; 30; 2; 26]] ]);
    (cp "t",
      [ [M [8; 0]; L [8; 30]];
        [M [0; 8]; L [20; 8]] ]);
    (cp "u",
      [ [M [0; 10]; C [0; 6; 4; 4; 8; 6]; C [12; 4; 16; 6; 16; 10]; L [16; 30]];
        [M [16; 10]; C [16; 6; 20; 4; 24; 6]; C [28; 4; 32; 6; 32; 10]; L [32; 30]] ]);
    (cp "v",
      [ [M [0; 10]; L [16; 30]; L [32; 10]] ]);
    (cp "w",
      [ [M [0; 10]; L [8; 30]; L [16; 10]; L [24; 30]; L [32; 10]] ]);
    (cp "x",
      [ [M [0; 10]; L [16; 20]; L [32; 10]];
        [M [32; 30]; L [16; 20]; L [0; 30]] ]);
    (cp "y",
      [ [M [0; 10]; L [16; 20]; L [16; 30]];
        [M [32; 10]; L [16; 20]] ]);
    (cp "z",
      [ [M [0; 10]; L [32; 10]; L [0; 30]; L [32; 30]] ]);
    (cp "0",
      [ [M [12; 0]; C [2; 0; 0; 8; 0; 18]; C [0; 28; 2; 30; 12; 30]; C [22; 30; 24; 28; 24; 18]; C [24; 8; 22; 0; 12; 0]];
        [M [0; 0]; L [24; 30]] ]);
    (cp "1",
      [ [M [8; 0]; L [8; 30]];
        [M [0; 8]; L [8; 0]; L [16; 0]] ]);
    (cp "2",
      [ [M [0; 8]; C [0; 0; 12; 0; 16; 4]; C [20; 8; 20; 16; 4; 30]; L [24; 30]] ]);
    (cp "3",
      [ [M [0; 6]; C [0; 0; 10; 0; 14; 4]; C [18; 8; 14; 12; 10; 12]];
        [M [0; 24]; C [0; 30; 10; 30; 14; 26]; C [18; 22; 14; 18; 10; 18]] ]);
    (cp "4",
      [ [M [0; 20]; L [16; 0]; L [16; 30]];
        [M [0; 12]; L [24; 12]] ]);
    (cp "5",
      [ [M [20; 0]; L [4; 0]; L [4; 14]; C [4; 18; 8; 20; 12; 18]; C [16; 16; 20; 18; 20; 22]; C [20; 28; 12; 30; 4; 28]] ]);
    (cp "6",
      [ [M [20; 8]; C [18; 4; 10; 2; 6; 6]; C [2; 10; 2; 20; 6; 24]; C [10; 28; 18; 26; 20; 22]; C [20; 18; 16; 16; 12; 18]] ]);
    (cp "7",
      [ [M [0; 0]; L [20; 0]];
        [M [20; 0]; L [8; 30]] ]);
    (cp "8",
      [ [M [12; 0]; C [4; 0; 0; 6; 0; 14]; C [0; 18; 2; 20; 6; 18]];
        [M [12; 30]; C [4; 30; 0; 24; 0; 16]; C [0; 12; 2; 10; 6; 12]] ]);
    (cp "9",
      [ [M [4; 8]; C [6; 4; 14; 2; 18; 6]; C [22; 10; 22; 20; 18; 24]; C [14; 28; 6; 26; 4; 22]; C [4; 18; 8; 16; 12; 18]] ]);
    (cp " ", []);
    (cp ".",
      [ [M [4; 28]; C [4; 26; 6; 26; 6; 28]; C [6; 30; 4; 30; 4; 28]] ]);
    (cp ",",
      [ [M [6; 26]; C [8; 26; 8; 30; 4; 34]] ]);
    (cp "!",
      [ [M [8; 0]; L [8; 20]];
        [M [8; 26]; L [8; 28]] ]);
    (cp "?",
      [ [M [2; 6]; C [2; 0; 14; 0; 14; 8]; C [14; 14; 8; 16; 8; 22]];
        [M [8; 28]; L [8; 30]] ]);
    (cp "-",
      [ [M [0; 14]; L [16; 14]] ]);
    (cp ":",
      [ [M [8; 8]; L [8; 10]];
        [M [8; 22]; L [8; 24]] ]);
    (cp "'",
      [ [M [8; 0]; L [8; 8]] ]);
    (cp "/",
      [ [M [0; 0]; L [24; 30]] ])
  ].

Local Close Scope char_scope.
Local Close Scope Z_scope.

(** [LETTER_PATHS[key]] for a key of one code point. *)
Fixpoint lookupIn (table : list (jschar * list svgpath)) (c : jschar)
  : option (list svgpath) :=
  match table with
  | [] => None
  | (k, v) :: rest => if N.eqb k c then Some v else lookupIn rest c
  end.

Definition lookup (c : jschar) : option (list svgpath) := lookupIn LETTER_PATHS c.

(** [LETTER_PATHS[key]] for any string key: every key of the table has
    one code point. *)
Definition lookupKey (key : jsstring) : option (list svgpath) :=
  match key with
  | [c] => lookup c
  | _ => None
  end.

(** The coordinate pairs of a command, scaled and moved; an argument
    left without its pair is dropped. *)
Fixpoint transformPairs (a : list num) (offsetX offsetY scale : num) : list num :=
  match a with
  | n0 :: n1 :: rest =>
      (n0 * scale + offsetX)%js :: (n1 * scale + offsetY)%js
        :: transformPairs rest offsetX offsetY scale
  | _ => []
  end.

(** Applied to the paths of the table only, whose arguments are
    integer literals. *)
Definition transformPathString (pathStr : svgpath) (offsetX offsetY scale : num)
  : svgpath :=
  map (fun c =>
         match cmd_args c with
         | [] => c
         | a => mkCmd (cmd_letter c) (transformPairs a offsetX offsetY scale)
         end) pathStr.

(** The placeholder of a character without a glyph. *)
Definition placeholder (x y scale : num) : svgpath :=
  [ mkCmd "M" [x; y];
    mkCmd "L" [(x + Fin 15 * scale)%js; y];
    mkCmd "L" [(x + Fin 15 * scale)%js; (y + Fin 25 * scale)%js];
    mkCmd "L" [x; (y + Fin 25 * scale)%js];
    mkCmd "Z" [] ].

(** Letters counted by [/[MLCQSTZ]/gi]. *)
Definition isCountedLetter (c : ascii) : bool :=
  existsb (Ascii.eqb c)
    ["M"; "L"; "C"; "Q"; "S"; "T"; "Z"; "m"; "l"; "c"; "q"; "s"; "t"; "z"]%char.

(** Matches of [/[MLCQSTZ]/gi] in a command as it is printed: its
    letter, and the [t] of each argument printed as [Infinity]. *)
Definition countedInCmd (c : PathCmd) : nat :=
  ((if isCountedLetter (cmd_letter c) then 1 else 0)
   + List.length (filter (fun a => negb (JS.isFinite a) && negb (JS.isNaN a))
                         (cmd_args c)))%nat.

Definition countCommands (pathDef : svgpath) : nat :=
  list_sum (map countedInCmd pathDef).

Definition estimatePathLength (pathDef : svgpath) : num :=
  JS.max (JS.ofNat (countCommands pathDef) * Fin 40)%js (Fin 60).

Section WithHost.

Context (host : Host).

Definition getCharacterPath (char : jschar) (x y scale : num) : list svgpath :=
  let paths :=
    match lookup char with
    | Some p => Some p
    | None => lookupKey (toUpperCase host char)
    end in
  match paths with
  | Some (p :: ps) =>
      map (fun path => transformPathString path x y scale) (p :: ps)
  | _ =>
      if negb (N.eqb char space) then [placeholder x y scale] else []
  end.

(** The loop of [textToPathSegments], with its running [currentX]. *)
Fixpoint segmentsFrom (text : jsstring) (currentX baseY scale : num)
  : list PathSegment :=
  match text with
  | [] => []
  | char :: rest =>
      if N.eqb char space
      then segmentsFrom rest (currentX + Fin 16 * scale)%js baseY scale
      else
        map (fun path => mkSegment path (estimatePathLength path))
            (getCharacterPath char currentX baseY scale)
        ++ segmentsFrom rest (currentX + Fin 28 * scale)%js baseY scale
  end.

Definition textToPathSegments (text : jsstring) (startPos : Position) (scale : num)
  : list PathSegment :=
  segmentsFrom text (px startPos) (py startPos) scale.

(** [generateArrowPath]: the line (curved when [curve] is not zero) and
    the two-sided head at its end. *)
Definition generateArrowPath (from to : Position) (curve : num)
  : svgpath * svgpath :=
  let midX := ((px from + px to) / Fin 2)%js in
  let midY := ((py from + py to) / Fin 2)%js in
  let dx := (px to - px from)%js in
  let dy := (py to - py from)%js in
  let perpX := (JS.neg dy * curve)%js in
  let perpY := (dx * curve)%js in
  let controlX := (midX + perpX)%js in
  let controlY := (midY + perpY)%js in
  let linePath :=
    if JS.eqb curve (Fin 0)
    then [ mkCmd "M" [px from; py from]; mkCmd "L" [px to; py to] ]
    else [ mkCmd "M" [px from; py from];
           mkCmd "Q" [controlX; controlY; px to; py to] ] in
  let angle :=
    Math_atan2 host
      (py to - (if JS.eqb curve (Fin 0) then py from else controlY))%js
      (px to - (if JS.eqb curve (Fin 0) then px from else controlX))%js in
  let headLength := Fin 14 in
  let headAngle := (JS.PI / Fin 6)%js in
  let head1X := (px to - headLength * Math_cos host (angle - headAngle))%js in
  let head1Y := (py to - headLength * Math_sin host (angle - headAngle))%js in
  let head2X := (px to - headLength * Math_cos host (angle + headAngle))%js in
  let head2Y := (py to - headLength * Math_sin host (angle + headAngle))%js in
  let headPath :=
    [ mkCmd "M" [head1X; head1Y]; mkCmd "L" [px to; py to];
      mkCmd "L" [head2X; head2Y] ] in
  (linePath, headPath).

End WithHost.

(** [generateCirclePath]: four cubic arcs. *)
Definition generateCirclePath (centerX centerY radius : num) : svgpath :=
  let r := radius in
  let k := Fin 0.552284749831 in
  [ mkCmd "M" [centerX; centerY - r];
    mkCmd "C" [centerX + r * k; centerY - r; centerX + r; centerY - r * k;
               centerX + r; centerY];
    mkCmd "C" [centerX + r; centerY + r * k; centerX + r * k; centerY + r;
               centerX; centerY + r];
    mkCmd "C" [centerX - r * k; centerY + r; centerX - r; centerY + r * k;
               centerX - r; centerY];
    mkCmd "C" [centerX - r; centerY - r * k; centerX - r * k; centerY - r;
               centerX; centerY - r] ]%js.

End TextToPath.

(** ** types/whiteboard *)

Inductive DrawingActionType : Type :=
| write | draw | circle | arrow | underline | box | highlight | erase
| image | pause.

Inductive DrawingSpeed : Type := slow | medium | fast.

(** A timed sub-stroke, as the stroke compiler stores it in a [write]
    action's metadata. *)
Record Stroke : Type := mkStroke {
  stroke_path : svgpath;
  stroke_duration : num;
  pressure : option num
}.

Record CameraPose : Type := mkCameraPose {
  cam_x : num; cam_y : num; zoom : num
}.

Record Metadata : Type := mkMetadata {
  strokeWidth : option num;
  opacity : option num;
  width : option num;
  height : option num;
  strokes : option (list Stroke);
  strokeSequence : option (list Stroke);
  cameraMove : option (CameraPose * CameraPose);
  meta_imageUrl : option jsstring;
  meta_caption : option jsstring
}.

(** [DrawingAction].  The [id] field, a random string that no modelled
    function reads, is left out. *)
Record DrawingAction : Type := mkAction {
  type : DrawingActionType;
  startTime : num;
  duration : num;
  text : option jsstring;
  fontSize : option num;
  position : option Position;
  color : option string;
  path : option svgpath;
  start : option Position;
  end_ : option Position;
  radius : option num;
  imageUrl : option jsstring;
  targetId : option jsstring;
  speed : option DrawingSpeed;
  handVisible : option bool;
  metadata : option Metadata
}.

(** An action with the two mandatory timing fields and nothing else. *)
Definition bareAction (t : DrawingActionType) (s d : num) : DrawingAction :=
  mkAction t s d None None None None None None None None None None None None None.

Record WhiteboardScene : Type := mkScene {
  background : string;
  actions : list DrawingAction;
  narration : option jsstring;
  totalDuration : num
}.

(** ** The scene generator *)

Module SceneGenerator.

Import TextToPath.

(** *** Timeline slot calculator *)

Record Timeline : Type := mkTimeline {
  currentTime : num;
  cameraBusyUntil : num
}.

Record SlotOptions : Type := mkSlot {
  slot_duration : num;
  needsCamera : bool;
  narrationPause : bool
}.

(** [{ duration }] with both flags at their default. *)
Definition slot (d : num) : SlotOptions := mkSlot d false false.

Definition reset : Timeline := mkTimeline (Fin 0) (Fin 0).

Definition safeDuration (duration : num) : num :=
  if JS.isNaN duration || negb (JS.isFinite duration)
  then Fin 0.5
  else JS.max (Fin 0.1) duration.

Definition nextAvailableSlot (options : SlotOptions) (tl : Timeline)
  : num * Timeline :=
  let slotStart :=
    if needsCamera options
    then JS.max (currentTime tl) (cameraBusyUntil tl)
    else currentTime tl in
  let slotStart :=
    if narrationPause options then (slotStart + Fin 0.3)%js else slotStart in
  let slotEnd := (slotStart + safeDuration (slot_duration options) + Fin 0.1)%js in
  (slotStart,
   mkTimeline slotEnd (if needsCamera options then slotEnd else cameraBusyUntil tl)).

(** Code that holds the timeline: a state passing computation. *)
Definition TL (A : Type) : Type := Timeline -> A * Timeline.

Definition ret {A : Type} (a : A) : TL A := fun tl => (a, tl).

Definition bind {A B : Type} (m : TL A) (k : A -> TL B) : TL B :=
  fun tl => k (fst (m tl)) (snd (m tl)).

Definition getCurrentTime : TL num := fun tl => (currentTime tl, tl).

Notation "x <- m ;; k" := (bind m (fun x => k))
  (at level 61, m at next level, right associativity).
Notation "m ;;; k" := (bind m (fun _ => k))
  (at level 61, right associativity).

(** *** Text stroke compiler *)

Definition durationPerChar (s : DrawingSpeed) : num :=
  match s with
  | slow => Fin 0.15
  | medium => Fin 0.1
  | fast => Fin 0.06
  end.

Definition strokeOfSegment (s : DrawingSpeed) (segment : PathSegment) : Stroke :=
  let estimatedLength := seg_length segment in
  let duration :=
    JS.max (Fin 0.1)
           (JS.min (estimatedLength * durationPerChar s / Fin 100)%js (Fin 0.5)) in
  mkStroke (seg_d segment) duration (Some (Fin 1)).

(** [reduce((sum, stroke) => sum + stroke.duration, 0)]. *)
Definition sumDurations (ss : list Stroke) : num :=
  fold_left (fun sum stroke => (sum + stroke_duration stroke)%js) ss (Fin 0).

(** Semantic teaching action (non-visual intent). *)
Inductive EmphasisMethod : Type := byCircle | byUnderline | byHighlight.

(** A [style.x] or [style.y] as [parsePosition] distinguishes it:
    absent ([undefined] or [null]), a number, a string (kept as what
    [parseFloat] reads in it once [%] is removed and it is trimmed), or
    a value of another type. *)
Inductive StyleValue : Type :=
| SAbsent
| SNumber (n : num)
| SString (parsed : num)
| SOther.

Record Style : Type := mkStyle {
  style_x : StyleValue;
  style_y : StyleValue;
  style_width : option num;
  style_height : option num
}.

Definition emptyStyle : Style := mkStyle SAbsent SAbsent None None.

(** The [metadata] an intent carries: the item's style and caption. *)
Record IntentMetadata : Type := mkIntentMetadata {
  im_style : Style;
  im_caption : option jsstring
}.

Inductive SemanticAction : Type :=
| introduce_concept (concept : jsstring) (position : option Position)
                    (isExplicitVisual : bool) (metadata : option IntentMetadata)
| explain_relation (from to : jsstring) (fromPos toPos : option Position)
| emphasize (target : jsstring) (method : EmphasisMethod)
| pause_for_thinking (duration : num)
| transition (to : jsstring).

Definition strokeColor (fontSize : num) : string :=
  let color :=
    if (fontSize >=? Fin 48)%js then "#2c3e50"%string
    else if (fontSize >=? Fin 36)%js then "#34495e"%string
    else "#2c3e50"%string in
  if (fontSize >=? Fin 48)%js then "#8b2118"%string else color.

Definition createArrowAction (linePath headPath : svgpath)
    (from to : Position) (startTime : num) : DrawingAction :=
  let lineDuration := Fin 0.8 in
  let headDuration := Fin 0.7 in
  {| type := draw;
     startTime := startTime;
     duration := (lineDuration + headDuration)%js;
     text := None; fontSize := None; position := None;
     color := Some "#1a1a1a"%string;
     path := Some (linePath ++ headPath);
     start := Some from;
     end_ := Some to;
     radius := None; imageUrl := None; targetId := None;
     speed := Some medium;
     handVisible := Some true;
     metadata := Some {| strokeWidth := Some (Fin 3); opacity := None;
                         width := None; height := None; strokes := None;
                         strokeSequence :=
                           Some [ mkStroke linePath lineDuration None;
                                  mkStroke headPath headDuration None ];
                         cameraMove := None; meta_imageUrl := None;
                         meta_caption := None |} |}.

(** Create emphasis action (circle, underline, highlight). *)
Definition createEmphasisAction (target : jsstring) (method : EmphasisMethod)
    (startTime : num) : DrawingAction :=
  let position := mkPosition (Fin 960) (Fin 540) in
  let radius := Fin 100 in
  match method with
  | byCircle =>
      {| type := circle; startTime := startTime; duration := Fin 1.0;
         text := None; fontSize := None; position := Some position;
         color := Some "#4a9eff"%string;
         path := Some (generateCirclePath (px position) (py position) radius);
         start := None; end_ := None; radius := Some radius;
         imageUrl := None; targetId := None; speed := Some medium;
         handVisible := Some true;
         metadata := Some {| strokeWidth := Some (Fin 3); opacity := None;
                             width := None; height := None; strokes := None;
                             strokeSequence := None; cameraMove := None;
                             meta_imageUrl := None; meta_caption := None |} |}
  | byUnderline =>
      {| type := underline; startTime := startTime; duration := Fin 0.8;
         text := None; fontSize := None; position := None;
         color := Some "#ff6b6b"%string; path := None;
         start := None; end_ := None; radius := None;
         imageUrl := None; targetId := Some target; speed := Some medium;
         handVisible := Some true;
         metadata := Some {| strokeWidth := Some (Fin 4); opacity := None;
                             width := None; height := None; strokes := None;
                             strokeSequence := None; cameraMove := None;
                             meta_imageUrl := None; meta_caption := None |} |}
  | byHighlight =>
      {| type := highlight; startTime := startTime; duration := Fin 0.5;
         text := None; fontSize := None; position := None;
         color := Some "#ffeb3b"%string; path := None;
         start := None; end_ := None; radius := None;
         imageUrl := None; targetId := Some target; speed := Some fast;
         handVisible := Some false;
         metadata := Some {| strokeWidth := None; opacity := Some (Fin 0.3);
                             width := None; height := None; strokes := None;
                             strokeSequence := None; cameraMove := None;
                             meta_imageUrl := None; meta_caption := None |} |}
  end.

(** Create camera movement action: the camera moves during a pause. *)
Definition createCameraAction (from to : Position) (startTime : num)
  : DrawingAction :=
  {| type := pause; startTime := startTime; duration := Fin 1.2;
     text := None; fontSize := None; position := None; color := None;
     path := None; start := None; end_ := None; radius := None;
     imageUrl := None; targetId := None; speed := None;
     handVisible := Some false;
     metadata :=
       Some {| strokeWidth := None; opacity := None; width := None;
               height := None; strokes := None; strokeSequence := None;
               cameraMove :=
                 Some (mkCameraPose (px from / Fin 1920)%js
                                    (py from / Fin 1080)%js (Fin 1),
                       mkCameraPose (px to / Fin 1920)%js
                                    (py to / Fin 1080)%js (Fin 1));
               meta_imageUrl := None; meta_caption := None |} |}.

(** Create an image drawing action.  Of the keys spread from the
    intent's metadata the ones the engine reads are kept. *)
Definition createImageAction (imageUrl : jsstring) (position : Position)
    (startTime : num) (metadata : option IntentMetadata) : DrawingAction :=
  {| type := image; startTime := startTime; duration := Fin 2.0;
     text := None; fontSize := None; position := Some position;
     color := None; path := None; start := None; end_ := None;
     radius := None; imageUrl := Some imageUrl; targetId := None;
     speed := None; handVisible := Some true;
     metadata :=
       Some {| strokeWidth := None; opacity := None;
               width := match metadata with
                        | Some m => style_width (im_style m) | None => None end;
               height := match metadata with
                         | Some m => style_height (im_style m) | None => None end;
               strokes := None; strokeSequence := None; cameraMove := None;
               meta_imageUrl := Some imageUrl;
               meta_caption := match metadata with
                               | Some m => im_caption m | None => None end |} |}.

(** Parse position value (percentage string or number). *)
Definition parsePosition (value : StyleValue) (max defaultValue : num) : num :=
  match value with
  | SAbsent => defaultValue
  | SNumber n =>
      if JS.isNaN n || negb (JS.isFinite n) then defaultValue else n
  | SString percent =>
      if negb (JS.isNaN percent) && JS.isFinite percent
      then (percent / Fin 100 * max)%js
      else defaultValue
  | SOther => defaultValue
  end.

(** *** Content items and slides *)

Inductive ItemType : Type :=
| ItHeading | ItText | ItBullet | ItIcon | ItImage | ItOther.

(** A content item of a slide ([content] is taken to be a string). *)
Record ContentItem : Type := mkItem {
  item_type : ItemType;
  item_content : jsstring;
  item_style : option Style;
  item_iconName : option jsstring;
  item_imageUrl : option jsstring;
  item_caption : option jsstring
}.

Record Slide : Type := mkSlide {
  slide_duration : num;
  slide_content : option (list ContentItem);
  slide_voiceScript : option jsstring
}.

(** A string option read as a condition or on the left of [||]:
    [undefined] and the empty string are falsy. *)
Definition nonEmpty (s : option jsstring) : option jsstring :=
  match s with
  | Some (c :: r) => Some (c :: r)
  | _ => None
  end.

Definition bullet : jschar := 8226%N.

Definition itemPosition (item : ContentItem) : Position :=
  let style := match item_style item with Some s => s | None => emptyStyle end in
  mkPosition (parsePosition (style_x style) (Fin 1920) (Fin 960))
             (parsePosition (style_y style) (Fin 1080) (Fin 540)).

Definition itemMetadata (item : ContentItem) : IntentMetadata :=
  mkIntentMetadata
    (match item_style item with Some s => s | None => emptyStyle end)
    (item_caption item).

(** Convert content item to semantic teaching actions. *)
Definition contentItemToSemantic (contentItem : ContentItem)
  : list SemanticAction :=
  match item_type contentItem with
  | ItHeading | ItText | ItBullet =>
      let text :=
        match item_type contentItem with
        | ItBullet => bullet :: space :: item_content contentItem
        | _ => item_content contentItem
        end in
      introduce_concept text (Some (itemPosition contentItem)) false None
      :: match item_type contentItem with
         | ItHeading => [pause_for_thinking (Fin 0.8)]
         | _ => []
         end
  | ItIcon =>
      [introduce_concept
         (match nonEmpty (item_iconName contentItem) with
          | Some n => n | None => str "icon" end)
         (Some (itemPosition contentItem)) true
         (Some (itemMetadata contentItem))]
  | ItImage =>
      match nonEmpty (item_imageUrl contentItem) with
      | Some url =>
          [introduce_concept (str "[IMAGE: " ++ url ++ str "]")
             (Some (itemPosition contentItem)) true
             (Some (itemMetadata contentItem))]
      | None => []
      end
  | ItOther => []
  end.

Section WithHost.

Context (host : Host).

(** [TextStrokeCompiler.compile]. *)
Definition compile (text : jsstring) (position : Position) (fontSize : num)
    (speed : DrawingSpeed) : list Stroke :=
  let scale := (fontSize / Fin 30)%js in
  let segments := textToPathSegments host text position scale in
  map (strokeOfSegment speed) segments.

(** Create stroke sequence action (text drawn stroke by stroke). *)
Definition createStrokeSequenceAction (text : jsstring) (position : Position)
    (fontSize : num) (speed : DrawingSpeed) : TL DrawingAction :=
  let strokes := compile text position fontSize speed in
  let totalDuration := sumDurations strokes in
  startTime <- nextAvailableSlot (mkSlot totalDuration false true) ;;
  ret {| type := write;
         startTime := startTime;
         duration := totalDuration;
         text := Some text;
         fontSize := Some fontSize;
         position := Some position;
         color := Some (strokeColor fontSize);
         path := Some [];
         start := None; end_ := None; radius := None; imageUrl := None;
         targetId := None;
         speed := Some speed;
         handVisible := Some true;
         metadata :=
           Some {| strokeWidth := Some (JS.max (Fin 2) (fontSize * Fin 0.05)%js);
                   opacity := None; width := None; height := None;
                   strokes := Some strokes;
                   strokeSequence := None; cameraMove := None;
                   meta_imageUrl := None; meta_caption := None |} |}.

(** Create arrow drawing action with strokes. *)
Definition createArrowStrokes (from to : Position) (startTime : num)
  : DrawingAction :=
  let (linePath, headPath) := generateArrowPath host from to (Fin 0) in
  createArrowAction linePath headPath from to startTime.

Definition orDefault (p : option Position) (x y : Q) : Position :=
  match p with
  | Some p => p
  | None => mkPosition (Fin x) (Fin y)
  end.

(** Convert semantic teaching action to stroke-based drawing actions. *)
Definition semanticToStrokes (semantic : SemanticAction)
  : TL (list DrawingAction) :=
  match semantic with
  | introduce_concept concept position isExplicitVisual metadata =>
      let visualPos := orDefault position 960 540 in
      let textPos := visualPos in
      let isImage := startsWith (str "[IMAGE:") concept in
      let shouldWriteText := negb isExplicitVisual && negb isImage in
      imageActions <-
        (if isImage
         then
           let imageUrl :=
             removeFirst (str "]") (removeFirst (str "[IMAGE: ") concept) in
           slotStart <- nextAvailableSlot (slot (Fin 2.0)) ;;
           ret [createImageAction imageUrl visualPos slotStart metadata]
         else ret []) ;;
      textActions <-
        (if shouldWriteText
         then
           strokeSeq <- createStrokeSequenceAction concept textPos (Fin 48) medium ;;
           ret [strokeSeq]
         else ret []) ;;
      pauseStart <- getCurrentTime ;;
      let pauseAction :=
        {| type := pause; startTime := pauseStart; duration := Fin 0.5;
           text := None; fontSize := None; position := None; color := None;
           path := None; start := None; end_ := None; radius := None;
           imageUrl := None; targetId := None; speed := None;
           handVisible := Some false; metadata := None |} in
      nextAvailableSlot (slot (Fin 0.5)) ;;;
      ret (imageActions ++ textActions ++ [pauseAction])
  | explain_relation from to fromPos toPos =>
      let fromPos := orDefault fromPos 500 400 in
      let toPos := orDefault toPos 1420 400 in
      fromStroke <- createStrokeSequenceAction from fromPos (Fin 36) medium ;;
      cameraActions <-
        (if (JS.abs (px toPos - px fromPos) >? Fin 400)%js
         then
           slotStart <- nextAvailableSlot (mkSlot (Fin 1.2) true false) ;;
           ret [createCameraAction fromPos toPos slotStart]
         else ret []) ;;
      arrowStart <- nextAvailableSlot (slot (Fin 1.5)) ;;
      let arrowStrokes := createArrowStrokes fromPos toPos arrowStart in
      toStroke <- createStrokeSequenceAction to toPos (Fin 36) medium ;;
      ret ([fromStroke] ++ cameraActions ++ [arrowStrokes; toStroke])
  | emphasize target method =>
      slotStart <- nextAvailableSlot (slot (Fin 1.0)) ;;
      ret [createEmphasisAction target method slotStart]
  | pause_for_thinking duration =>
      slotStart <- nextAvailableSlot (slot duration) ;;
      ret [{| type := pause; startTime := slotStart; duration := duration;
              text := None; fontSize := None; position := None; color := None;
              path := None; start := None; end_ := None; radius := None;
              imageUrl := None; targetId := None; speed := None;
              handVisible := Some false; metadata := None |}]
  | transition _ => ret []
  end.

(** The actions of a list of intents, in order, on one timeline. *)
Fixpoint semanticsToStrokes (semantics : list SemanticAction)
  : TL (list DrawingAction) :=
  match semantics with
  | [] => ret []
  | semantic :: rest =>
      actions <- semanticToStrokes semantic ;;
      more <- semanticsToStrokes rest ;;
      ret (actions ++ more)
  end.

(** The two nested loops over the content items of a slide. *)
Fixpoint contentToStrokes (contentItems : list ContentItem)
  : TL (list DrawingAction) :=
  match contentItems with
  | [] => ret []
  | contentItem :: rest =>
      actions <- semanticsToStrokes (contentItemToSemantic contentItem) ;;
      more <- contentToStrokes rest ;;
      ret (actions ++ more)
  end.

Definition decimal (n : nat) : jsstring :=
  str (NilEmpty.string_of_uint (Nat.to_uint n)).

(** The total duration of a scene, from its last action. *)
Definition sceneDuration (lastAction : DrawingAction) (slideDuration : num) : num :=
  let actionEndTime :=
    (JS.orElse (startTime lastAction) (Fin 0)
     + JS.orElse (duration lastAction) (Fin 0))%js in
  let safeTotalDuration :=
    if JS.isNaN actionEndTime || negb (JS.isFinite actionEndTime)
    then JS.orElse slideDuration (Fin 5)
    else JS.max actionEndTime (JS.orElse slideDuration (Fin 5)) in
  JS.max (Fin 0.5) safeTotalDuration.

(** The body of the loop of [convertSlidesToWhiteboardScenes] for one
    slide, [scenesSoFar] being [scenes.length]; the timeline is reset
    first. *)
Definition convertSlide (scenesSoFar : nat) (slide : Slide) : WhiteboardScene :=
  let contentItems :=
    match slide_content slide with Some c => c | None => [] end in
  let compiled : TL (list DrawingAction) :=
    actions <-
      (match contentItems with
       | [] =>
           let defaultText :=
             match nonEmpty (option_map (substring0 50) (slide_voiceScript slide)) with
             | Some t => t
             | None => str "Concept " ++ decimal (scenesSoFar + 1)
             end in
           semanticToStrokes
             (introduce_concept defaultText
                (Some (mkPosition (Fin 960) (Fin 540))) false None)
       | _ => contentToStrokes contentItems
       end) ;;
    match actions with
    | [] =>
        defaultAction <-
          createStrokeSequenceAction (str "Loading...")
            (mkPosition (Fin 960) (Fin 540)) (Fin 48) medium ;;
        ret [defaultAction]
    | _ => ret actions
    end in
  let sceneActions := fst (compiled reset) in
  {| background := "whiteboard"%string;
     actions := sceneActions;
     narration := slide_voiceScript slide;
     totalDuration :=
       match last (map Some sceneActions) None with
       | Some lastAction => sceneDuration lastAction (slide_duration slide)
       | None => slide_duration slide
       end |}.

Fixpoint convertFrom (scenes : list WhiteboardScene) (slides : list Slide)
  : list WhiteboardScene :=
  match slides with
  | [] => scenes
  | slide :: rest =>
      convertFrom (scenes ++ [convertSlide (List.length scenes) slide]) rest
  end.

Definition convertSlidesToWhiteboardScenes (slides : list Slide)
    (topic : jsstring) : list WhiteboardScene :=
  convertFrom [] slides.

End WithHost.

End SceneGenerator.

(** ** The animation engine *)

Module Engine.

(** Animation state for a single action. *)
Record ActionAnimationState : Type := mkState {
  action : DrawingAction;
  currentProgress : num;
  pathPoints : list PathPoint;
  isComplete : bool;
  handPosition : option Position;
  handAngle : option num
}.

(** A string or a path read as a condition: empty is falsy. *)
Definition truthyList {A : Type} (s : option (list A)) : option (list A) :=
  match s with
  | Some (c :: r) => Some (c :: r)
  | _ => None
  end.

(** [n || d] for an optional number. *)
Definition numOr (n : option num) (d : num) : num :=
  match n with
  | Some n => JS.orElse n d
  | None => d
  end.

Section WithHost.

Context (host : Host).

(** Calculate path points for hand movement along a path.  The cache
    only repeats what the measurement returned for the same key; the
    result is empty when the measurement throws. *)
Definition calculatePathPoints (pathString : svgpath) (duration : num)
  : list PathPoint :=
  match measurePath host pathString duration (Fin 30) with
  | Some points => points
  | None => []
  end.

(** The sampled point at a progress and the tangent angle there, as
    both path-following branches compute them.  [None]: a field of
    [undefined] is read, which throws into the enclosing [catch]. *)
Definition pointAndAngle (pathPoints : list PathPoint) (progress : num)
  : option (PathPoint * num) :=
  let len := JS.ofNat (List.length pathPoints) in
  let pointIndex :=
    JS.min (len - Fin 1)%js (JS.floor (progress * (len - Fin 1))%js) in
  match JS.index pathPoints pointIndex with
  | None => None
  | Some point =>
      if (pointIndex >? Fin 0)%js
      then
        match JS.index pathPoints (pointIndex - Fin 1)%js with
        | Some prevPoint =>
            Some (point,
                  Math_atan2 host (pt_y point - pt_y prevPoint)%js
                                  (pt_x point - pt_x prevPoint)%js)
        | None => None
        end
      else if (len >? Fin 1)%js
      then
        match JS.index pathPoints (Fin 1) with
        | Some nextPoint =>
            Some (point,
                  Math_atan2 host (pt_y nextPoint - pt_y point)%js
                                  (pt_x nextPoint - pt_x point)%js)
        | None => None
        end
      else Some (point, Fin 0)
  end.

(** The loop over the strokes of a [write] action: [Some] when it
    returns a position, [None] when it runs to its end. *)
Fixpoint followStrokes (strokes : list Stroke) (currentTime currentDrawTime : num)
  : option (Position * num) :=
  match strokes with
  | [] => None
  | stroke :: rest =>
      let strokeStart := currentTime in
      let strokeEnd :=
        (currentTime + JS.orElse (stroke_duration stroke) (Fin 0.1))%js in
      let found :=
        if (currentDrawTime >=? strokeStart)%js && (currentDrawTime <=? strokeEnd)%js
        then
          let strokeProgress :=
            ((currentDrawTime - strokeStart)
             / JS.orElse (stroke_duration stroke) (Fin 0.1))%js in
          let pathPoints :=
            calculatePathPoints (stroke_path stroke)
                                (JS.orElse (stroke_duration stroke) (Fin 0.1)) in
          match pathPoints with
          | [] => None
          | _ =>
              match pointAndAngle pathPoints strokeProgress with
              | Some (point, _) =>
                  Some (mkPosition (pt_x point) (pt_y point), Fin 0)
              | None => None
              end
          end
        else None in
      match found with
      | Some r => Some r
      | None => followStrokes rest strokeEnd currentDrawTime
      end
  end.

(** Calculate hand position for an action at a given time, with the
    angle for hand rotation; [None] is [null]. *)
Definition getHandPosition (action : DrawingAction)
    (currentTime sceneStartTime : num) : option (Position * num) :=
  let actionStartTime := (sceneStartTime + startTime action)%js in
  let actionEndTime := (actionStartTime + duration action)%js in
  if (currentTime <? actionStartTime)%js || (currentTime >? actionEndTime)%js
  then None
  else
    let actionProgress :=
      JS.min (Fin 1)
        (JS.max (Fin 0) ((currentTime - actionStartTime) / duration action)%js) in
    let viaText :=
      match type action, truthyList (text action), position action with
      | write, Some actionText, Some actionPosition =>
          let viaStrokes :=
            match metadata action with
            | Some m =>
                match truthyList (strokes m) with
                | Some strokes =>
                    let totalDuration :=
                      fold_left
                        (fun sum s =>
                           (sum + JS.orElse (stroke_duration s) (Fin 0.1))%js)
                        strokes (Fin 0) in
                    let currentDrawTime := (totalDuration * actionProgress)%js in
                    followStrokes strokes (Fin 0) currentDrawTime
                | None => None
                end
            | None => None
            end in
          match viaStrokes with
          | Some r => Some r
          | None =>
              let charsToShow :=
                JS.floor (JS.ofNat (strLength actionText) * actionProgress)%js in
              let charWidth := (numOr (fontSize action) (Fin 48) * Fin 0.6)%js in
              let textWidth := (charsToShow * charWidth)%js in
              Some (mkPosition
                      (px actionPosition + textWidth)%js
                      (py actionPosition
                       + numOr (fontSize action) (Fin 48) / Fin 2)%js,
                    Fin 0)
          end
      | _, _, _ => None
      end in
    match viaText with
    | Some r => Some r
    | None =>
    let viaPath :=
      match truthyList (path action) with
      | Some actionPath =>
          let pathPoints := calculatePathPoints actionPath (duration action) in
          match pathPoints with
          | [] => None
          | _ =>
              match pointAndAngle pathPoints actionProgress with
              | Some (point, angle) =>
                  Some (mkPosition (pt_x point) (pt_y point), angle)
              | None => None
              end
          end
      | None => None
      end in
    match viaPath with
    | Some r => Some r
    | None =>
    match type action, start action, end_ action, position action with
    | arrow, Some actionStart, Some actionEnd, _ =>
        let dx := (px actionEnd - px actionStart)%js in
        let dy := (py actionEnd - py actionStart)%js in
        let distance := Math_sqrt host (dx * dx + dy * dy)%js in
        let currentDistance := (distance * actionProgress)%js in
        let angle := Math_atan2 host dy dx in
        Some (mkPosition
                (px actionStart + Math_cos host angle * currentDistance)%js
                (py actionStart + Math_sin host angle * currentDistance)%js,
              angle)
    | image, _, _, Some actionPosition =>
        let width :=
          numOr (match metadata action with Some m => width m | None => None end)
                (Fin 400) in
        let height :=
          numOr (match metadata action with Some m => height m | None => None end)
                (Fin 300) in
        let startX := (px actionPosition - width / Fin 2)%js in
        let startY := (py actionPosition - height / Fin 2)%js in
        let p := actionProgress in
        Some (mkPosition (startX + width * p)%js (startY + height * p)%js,
              (JS.PI / Fin 4)%js)
    | _, _, _, Some actionPosition => Some (actionPosition, Fin 0)
    | _, _, _, None => None
    end
    end
    end.

(** Calculate action animation state at a given time. *)
Definition getActionState (action : DrawingAction)
    (currentTime sceneStartTime : num) : ActionAnimationState :=
  let actionStartTime := (sceneStartTime + startTime action)%js in
  let actionEndTime := (actionStartTime + duration action)%js in
  let '(currentProgress, isComplete) :=
    if (currentTime <? actionStartTime)%js then (Fin 0, false)
    else if (currentTime >=? actionEndTime)%js then (Fin 1, true)
    else (((currentTime - actionStartTime) / duration action)%js, false) in
  let pathPoints :=
    match truthyList (path action) with
    | Some actionPath => calculatePathPoints actionPath (duration action)
    | None => []
    end in
  let handData :=
    match handVisible action with
    | Some false => None
    | _ => getHandPosition action currentTime sceneStartTime
    end in
  {| action := action;
     currentProgress := currentProgress;
     pathPoints := pathPoints;
     isComplete := isComplete;
     handPosition := option_map fst handData;
     handAngle := option_map snd handData |}.

(** Get all active actions at a given time. *)
Definition getActiveActions (scene : WhiteboardScene)
    (currentTime sceneStartTime : num) : list ActionAnimationState :=
  filter
    (fun state =>
       ((currentProgress state >? Fin 0)%js && negb (isComplete state))
       || (isComplete state
           && (currentTime <? sceneStartTime + totalDuration scene)%js))
    (map (fun action => getActionState action currentTime sceneStartTime)
         (actions scene)).

(** Convert text to one path: the segments joined. *)
Definition textToSVGPath (text : jsstring) (x y fontSize : num) : svgpath :=
  let scale := (fontSize / Fin 30)%js in
  List.concat (map TextToPath.seg_d
              (TextToPath.textToPathSegments host text (mkPosition x y) scale)).

End WithHost.

(** Get stroke dash properties for animated drawing: the dash array
    (the number that is printed) and the dash offset. *)
Definition getStrokeDashProperties (pathLength progress : num) : num * num :=
  let dasharray := pathLength in
  let dashoffset := (pathLength * (Fin 1 - progress))%js in
  (dasharray, dashoffset).

(** Generate path for a box/rectangle. *)
Definition generateBoxPath (x y width height : num) : svgpath :=
  [ mkCmd "M" [x; y];
    mkCmd "L" [(x + width)%js; y];
    mkCmd "L" [(x + width)%js; (y + height)%js];
    mkCmd "L" [x; (y + height)%js];
    mkCmd "Z" [] ].

End Engine.

(** ** Vocabulary of the properties *)

Import TextToPath SceneGenerator Engine.

(** The time [t] lies in [[startTime, startTime + duration)], with the
    comparisons of the code's numbers. *)
Definition inInterval (a : DrawingAction) (t : Q) : Prop :=
  (startTime a <=? Fin t)%js = true
  /\ (Fin t <? startTime a + duration a)%js = true.

Definition disjointIntervals (a b : DrawingAction) : Prop :=
  forall t : Q, ~ (inInterval a t /\ inInterval b t).

(** An action that moves the camera: the one [createCameraAction]
    builds, reserved with [needsCamera]. *)
Definition requiresCameraMove (a : DrawingAction) : bool :=
  match metadata a with
  | Some m => match cameraMove m with Some _ => true | None => false end
  | None => false
  end.

(** The corners a path visits with its move and line commands. *)
Fixpoint vertices (p : svgpath) : list (num * num) :=
  match p with
  | [] => []
  | c :: rest =>
      match cmd_args c with
      | [vx; vy] => (vx, vy) :: vertices rest
      | _ => vertices rest
      end
  end.

(** Twice the signed area of the polygon through the given corners
    (closing edge back to [first] included), by the shoelace sum. *)
Fixpoint shoelace (first : num * num) (vs : list (num * num)) : num :=
  match vs with
  | [] => Fin 0
  | [v] => (fst v * snd first - fst first * snd v)%js
  | v :: ((w :: _) as rest) =>
      (fst v * snd w - fst w * snd v + shoelace first rest)%js
  end.

Definition enclosedArea (p : svgpath) : num :=
  match vertices p with
  | [] => Fin 0
  | v :: vs => (JS.abs (shoelace v (v :: vs)) / Fin 2)%js
  end.

Definition isClosed (p : svgpath) : bool :=
  match last (map Some p) None with
  | Some c => Ascii.eqb (cmd_letter c) "Z"
  | None => false
  end.

(** The intents a slide is normalised to before they are compiled. *)
Definition slideIntents (scenesSoFar : nat) (slide : Slide) : list SemanticAction :=
  match slide_content slide with
  | None | Some [] =>
      [introduce_concept
         (match nonEmpty (option_map (substring0 50) (slide_voiceScript slide)) with
          | Some t => t
          | None => str "Concept " ++ decimal (scenesSoFar + 1)
          end)
         (Some (mkPosition (Fin 960) (Fin 540))) false None]
  | Some contentItems => flat_map contentItemToSemantic contentItems
  end.

(** A text without any stroke: nothing but spaces. *)
Definition blank (t : jsstring) : Prop := Forall (fun c => c = space) t.

(** *** A host without a document

    Used to run the definitions on concrete inputs: upper-casing of the
    ASCII letters and of the three other characters below, rational
    stand-ins for the [Math] functions, and a path measurement that
    always throws (no DOM). *)
Definition refUpper (c : jschar) : jsstring :=
  if (N.leb 97 c && N.leb c 122)%bool then [(c - 32)%N]
  else if N.eqb c 305 then [73%N]          (* dotless i, to I *)
  else if N.eqb c 383 then [83%N]          (* long s, to S *)
  else if N.eqb c 223 then [83%N; 83%N]    (* sharp s, to SS *)
  else [c].

Definition refSqrt (a : num) : num :=
  match a with
  | Fin q => if Qle_bool 0 q then Fin (inject_Z (Z.sqrt (Qfloor q))) else NaN
  | PInf => PInf
  | _ => NaN
  end.

Definition qPI : Q := 3.141592653589793.

Definition qAtan (z : Q) : Q :=
  if Qle_bool (Qabs z) 1 then z / (1 + 0.28 * z * z)
  else (if Qle_bool 0 z then qPI / 2 else - (qPI / 2)) - z / (z * z + 0.28).

Definition refAtan2 (b a : num) : num :=
  match b, a with
  | Fin y, Fin x =>
      if JS.Qltb 0 x then Fin (qAtan (y / x))
      else if JS.Qltb x 0
           then Fin (if Qle_bool 0 y then qAtan (y / x) + qPI
                     else qAtan (y / x) - qPI)
           else Fin (if JS.Qltb 0 y then qPI / 2
                     else if JS.Qltb y 0 then - (qPI / 2) else 0)
  | _, _ => NaN
  end.

Definition refCos (a : num) : num :=
  match a with
  | Fin q => Fin (1 - q * q / 2 + q * q * q * q / 24)
  | _ => NaN
  end.

Definition refSin (a : num) : num :=
  match a with
  | Fin q => Fin (q - q * q * q / 6 + q * q * q * q * q / 120)
  | _ => NaN
  end.

Definition refHost : Host :=
  {| toUpperCase := refUpper;
     Math_sqrt := refSqrt;
     Math_atan2 := refAtan2;
     Math_cos := refCos;
     Math_sin := refSin;
     measurePath := fun _ _ _ => None |}.

(** The per-character duration of a speed, as the specification
    tabulates it. *)
Definition perCharacter (s : DrawingSpeed) : Q :=
  match s with
  | slow => 0.15
  | medium => 0.1
  | fast => 0.06
  end.

(** [clamp(v, lo, hi)] on rationals. *)
Definition clamp (v lo hi : Q) : Q := Qmax lo (Qmin v hi).

(** What the compiler stores for one segment of the text. *)
Definition compiledFrom (s : DrawingSpeed) (seg : PathSegment) (st : Stroke) : Prop :=
  stroke_path st = seg_d seg
  /\ exists len dq : Q,
       seg_length seg = Fin len
       /\ len == Qmax (inject_Z (Z.of_nat (countCommands (seg_d seg))) * 40) 60
       /\ stroke_duration st = Fin dq
       /\ dq == clamp (len * perCharacter s / 100) 0.1 0.5
       /\ 0.1 <= dq <= 0.5.

(** An arrow from (0, 0) to (100, 0) given by its two ends only, from
    time 2 for 4 seconds. *)
Definition plainArrow : DrawingAction :=
  {| type := arrow; startTime := Fin 2; duration := Fin 4;
     text := None; fontSize := None; position := None; color := None;
     path := None;
     start := Some (mkPosition (Fin 0) (Fin 0));
     end_ := Some (mkPosition (Fin 100) (Fin 0));
     radius := None; imageUrl := None; targetId := None; speed := None;
     handVisible := None; metadata := None |}.

(** A timeline whose two cursors are finite. *)
Definition fin (c b : Q) : Timeline := mkTimeline (Fin c) (Fin b).

(** The actions of a list take place one after the other between [lo]
    and [hi]: each starts at a finite time [s], not before the end [e]
    reserved for the one before it, and its interval ends by its own
    [e]. *)
Fixpoint sequenced (lo : Q) (acts : list DrawingAction) (hi : Q) : Prop :=
  match acts with
  | [] => lo <= hi
  | a :: rest =>
      exists s e : Q,
        startTime a = Fin s /\ lo <= s /\ s <= e
        /\ (forall t, inInterval a t -> t < e)
        /\ sequenced e rest hi
  end.

(** What the compiler guarantees of the duration of an action it
    emits.  A [write] action carries its text and its strokes, and its
    duration is their sum, finite and positive unless the text is
    blank.  Any other action has a finite positive duration, or a
    duration that satisfies [R] (the durations allowed to the
    [pause_for_thinking] intents). *)
Definition timed (R : num -> Prop) (a : DrawingAction) : Prop :=
  match type a with
  | write =>
      exists (txt : jsstring) (m : Metadata) (ss : list Stroke) (q : Q),
        text a = Some txt /\ metadata a = Some m /\ strokes m = Some ss
        /\ duration a = sumDurations ss /\ duration a = Fin q
        /\ 0 <= q /\ (blank txt -> q == 0) /\ (~ blank txt -> 0 < q)
  | _ => (exists q : Q, duration a = Fin q /\ 0 < q) \/ R (duration a)
  end.

(** A computation on the timeline that, from finite cursors, leaves
    finite cursors and emits sequenced actions with [timed]
    durations. *)
Definition emits (R : num -> Prop) (m : TL (list DrawingAction)) : Prop :=
  forall c b : Q,
    exists (c' b' : Q) (acts : list DrawingAction),
      m (fin c b) = (acts, fin c' b')
      /\ sequenced c acts c'
      /\ Forall (timed R) acts.

(** The durations a [pause_for_thinking] intent may carry. *)
Definition pauseOk (R : num -> Prop) (sem : SemanticAction) : Prop :=
  match sem with
  | pause_for_thinking d => (exists q : Q, d = Fin q /\ 0 < q) \/ R d
  | _ => True
  end.

(** No [pause_for_thinking] duration but a finite positive one: the
    case of the intents that content items are normalised to. *)
Definition noOther : num -> Prop := fun _ => False.

(** A slide with one heading, and the scene compiled from it. *)
Definition demoSlide : Slide :=
  {| slide_duration := Fin 5;
     slide_content := Some [mkItem ItHeading (str "Hi") None None None None];
     slide_voiceScript := Some (str "Say hi") |}.

Definition demoScene : WhiteboardScene := convertSlide refHost 0 demoSlide.

Definition demoAction (i : nat) : DrawingAction :=
  nth i (actions demoScene) (bareAction pause (Fin 0) (Fin 0)).

(** A slide whose only content item is of a type the compiler does not
    know. *)
Definition unknownSlide : Slide :=
  {| slide_duration := Fin 5;
     slide_content := Some [mkItem ItOther (str "?") None None None None];
     slide_voiceScript := None |}.

(** A slide whose only content item is a text made of one space. *)
Definition blankSlide : Slide :=
  {| slide_duration := Fin 5;
     slide_content := Some [mkItem ItText [space] None None None None];
     slide_voiceScript := None |}.

(** The action starts at [s] and lasts [d], as numbers. *)
Definition sameTiming (a : DrawingAction) (s d : Q) : bool :=
  JS.eqb (startTime a) (Fin s) && JS.eqb (duration a) (Fin d).

(** A slide without any content item. *)
Definition emptySlide : Slide :=
  {| slide_duration := Fin 5;
     slide_content := Some [];
     slide_voiceScript := Some (str "Hey") |}.

(** A number far inside the range of a double, where the arithmetic
    of the glyph coordinates (at most 38 units of a thirtieth of the
    font size, added to the anchor) cannot overflow. *)
Definition farFromOverflow (q : Q) : Prop := Qabs q <= 1e300.

(** A time of at most a million seconds, in absolute value. *)
Definition moderate (q : Q) : Prop := Qabs q <= 1000000.

(** The timelines the compiler can be in: the fresh one, and the one
    left by a reservation on such a timeline. *)
Inductive reachable : Timeline -> Prop :=
| reach_reset : reachable reset
| reach_slot (tl : Timeline) (options : SlotOptions) :
    reachable tl -> reachable (snd (nextAvailableSlot options tl)).

(** A position on the board of 1920 by 1080. *)
Definition onBoard (p : Position) : Prop :=
  exists x y : Q,
    p = mkPosition (Fin x) (Fin y) /\ 0 <= x <= 1920 /\ 0 <= y <= 1080.

(** A style coordinate that asks for a place on the board: a number
    between 0 and [max], or a percentage between 0 and 100.  A value
    that is not read (absent, not finite, of another type) asks for
    nothing. *)
Definition coordinateInside (max : Q) (v : StyleValue) : Prop :=
  match v with
  | SNumber (Fin n) => 0 <= n <= max
  | SString (Fin percent) => 0 <= percent <= 100
  | _ => True
  end.

Definition styledInside (item : ContentItem) : Prop :=
  match item_style item with
  | Some s =>
      coordinateInside 1920 (style_x s) /\ coordinateInside 1080 (style_y s)
  | None => True
  end.

Definition slideInside (slide : Slide) : Prop :=
  match slide_content slide with
  | Some items => Forall styledInside items
  | None => True
  end.

(** The position of an action, when it has one, is on the board. *)
Definition placed (a : DrawingAction) : Prop :=
  match position a with
  | Some p => onBoard p
  | None => True
  end.

(** The positions an intent carries, when it carries any, are on the
    board. *)
Definition placedIntent (sem : SemanticAction) : Prop :=
  match sem with
  | introduce_concept _ (Some p) _ _ => onBoard p
  | explain_relation _ _ fromPos toPos =>
      match fromPos with Some p => onBoard p | None => True end
      /\ match toPos with Some p => onBoard p | None => True end
  | _ => True
  end.

(** Every argument of every command of the path is finite. *)
Definition finitePath (p : svgpath) : bool :=
  forallb (fun c => forallb JS.isFinite (cmd_args c)) p.

(** Where the pen stands after a text: the [currentX] of the loop of
    [textToPathSegments] once the text is consumed. *)
Fixpoint advance (text : jsstring) (currentX scale : num) : num :=
  match text with
  | [] => currentX
  | char :: rest =>
      advance rest
        (currentX + (if N.eqb char space then Fin 16 else Fin 28) * scale)%js
        scale
  end.

(** The spaces of a text, and its other characters. *)
Definition spaces (text : jsstring) : nat :=
  List.length (filter (N.eqb space) text).

Definition glyphs (text : jsstring) : nat :=
  List.length (filter (fun c => negb (N.eqb space c)) text).

(** The kinds of the actions a content item is compiled to. *)
Definition itemKinds (item : ContentItem) : list DrawingActionType :=
  let isImageText (t : jsstring) := startsWith (str "[IMAGE:") t in
  match item_type item with
  | ItHeading =>
      if isImageText (item_content item) then [image; pause; pause]
      else [write; pause; pause]
  | ItText =>
      if isImageText (item_content item) then [image; pause]
      else [write; pause]
  | ItBullet => [write; pause]
  | ItIcon =>
      match nonEmpty (item_iconName item) with
      | Some name => if isImageText name then [image; pause] else [pause]
      | None => [pause]
      end
  | ItImage =>
      match nonEmpty (item_imageUrl item) with
      | Some _ => [image; pause]
      | None => []
      end
  | ItOther => []
  end.

(** The text written for a slide without content items. *)
Definition defaultText (scenesSoFar : nat) (slide : Slide) : jsstring :=
  match nonEmpty (option_map (substring0 50) (slide_voiceScript slide)) with
  | Some t => t
  | None => str "Concept " ++ decimal (scenesSoFar + 1)
  end.

(** The point a command ends at: its last two arguments. *)
Definition endpoint (c : PathCmd) : option (num * num) :=
  match rev (cmd_args c) with
  | vy :: vx :: _ => Some (vx, vy)
  | _ => None
  end.

(** The arguments of a command taken two by two. *)
Fixpoint coordPairs (a : list num) : list (num * num) :=
  match a with
  | vx :: vy :: rest => (vx, vy) :: coordPairs rest
  | _ => []
  end.

(** Every point a path names, control points included. *)
Definition allPoints (p : svgpath) : list (num * num) :=
  flat_map (fun c => coordPairs (cmd_args c)) p.

(** A finite point inside the square of half side [r] around
    ([cx], [cy]). *)
Definition insideSquare (cx cy r : Q) (pt : num * num) : Prop :=
  match pt with
  | (Fin vx, Fin vy) =>
      cx - r <= vx <= cx + r /\ cy - r <= vy <= cy + r
  | _ => False
  end.

(** A finite point at distance [r] from ([cx], [cy]). *)
Definition onCircle (cx cy r : Q) (pt : num * num) : Prop :=
  match pt with
  | (Fin vx, Fin vy) =>
      (vx - cx) * (vx - cx) + (vy - cy) * (vy - cy) == r * r
  | _ => False
  end.

(** A slide with one text placed by its style: a percentage across,
    a number down. *)
Definition styledSlide : Slide :=
  {| slide_duration := Fin 5;
     slide_content :=
       Some [mkItem ItText (str "Hi")
               (Some (mkStyle (SString (Fin 25)) (SNumber (Fin 300)) None None))
               None None None];
     slide_voiceScript := None |}.

(** An image action as the compiler builds it, 640 by 480, from time 1
    for 2 seconds around (960, 540). *)
Definition demoImage : DrawingAction :=
  createImageAction (str "pics/cell.png") (mkPosition (Fin 960) (Fin 540))
    (Fin 1)
    (Some (mkIntentMetadata
             (mkStyle SAbsent SAbsent (Some (Fin 640)) (Some (Fin 480))) None)).

(** * Properties *)

(** ** Numbers *)

Lemma Qltb_true (x y : Q) : JS.Qltb x y = true <-> x < y.
Proof.
  unfold JS.Qltb. rewrite negb_true_iff.
  split; intro H.
  - apply Qnot_le_lt. intro Hle. apply Qle_bool_iff in Hle. congruence.
  - destruct (Qle_bool y x) eqn:E; [|reflexivity].
    apply Qle_bool_iff in E. lra.
Qed.

Lemma Qltb_false (x y : Q) : JS.Qltb x y = false <-> y <= x.
Proof.
  unfold JS.Qltb. rewrite negb_false_iff. apply Qle_bool_iff.
Qed.

Lemma Qle_bool_false (x y : Q) : Qle_bool x y = false <-> y < x.
Proof.
  split; intro H.
  - apply Qnot_le_lt. intro Hle. apply Qle_bool_iff in Hle. congruence.
  - destruct (Qle_bool x y) eqn:E; [|reflexivity].
    apply Qle_bool_iff in E. lra.
Qed.

Lemma Qeq_bool_false (x y : Q) : Qeq_bool x y = false <-> ~ x == y.
Proof.
  split; intro H.
  - intro E. apply Qeq_bool_iff in E. congruence.
  - destruct (Qeq_bool x y) eqn:E; [|reflexivity].
    apply Qeq_bool_iff in E. contradiction.
Qed.

(** Turn the boolean comparisons in the context and the goal into
    order facts on rationals. *)
Ltac qbool :=
  repeat match goal with
  | H : Qle_bool _ _ = true |- _ => apply Qle_bool_iff in H
  | H : Qle_bool _ _ = false |- _ => apply Qle_bool_false in H
  | H : JS.Qltb _ _ = true |- _ => apply Qltb_true in H
  | H : JS.Qltb _ _ = false |- _ => apply Qltb_false in H
  | H : Qeq_bool _ _ = true |- _ => apply Qeq_bool_iff in H
  | H : Qeq_bool _ _ = false |- _ => apply Qeq_bool_false in H
  | |- Qle_bool _ _ = true => apply Qle_bool_iff
  | |- Qle_bool _ _ = false => apply Qle_bool_false
  | |- JS.Qltb _ _ = true => apply Qltb_true
  | |- JS.Qltb _ _ = false => apply Qltb_false
  | |- Qeq_bool _ _ = true => apply Qeq_bool_iff
  | |- Qeq_bool _ _ = false => apply Qeq_bool_false
  end.

Lemma max_fin (x y : Q) : (JS.max (Fin x) (Fin y) =~ Fin (Qmax x y))%js.
Proof.
  simpl. destruct (Qle_bool x y) eqn:E; simpl; qbool.
  - symmetry. apply Q.max_r. exact E.
  - symmetry. apply Q.max_l. lra.
Qed.

Lemma min_fin (x y : Q) : (JS.min (Fin x) (Fin y) =~ Fin (Qmin x y))%js.
Proof.
  simpl. destruct (Qle_bool x y) eqn:E; simpl; qbool.
  - symmetry. apply Q.min_l. exact E.
  - symmetry. apply Q.min_r. lra.
Qed.

(** ** Timeline allocator *)

(** The clamp: [0.5] for a duration that is not finite, otherwise at
    least [0.1]. *)
Lemma safeDuration_cases (d : num) :
  exists sd : Q,
    safeDuration d = Fin sd /\ 0.1 <= sd
    /\ (JS.isFinite d = false -> sd == 0.5)
    /\ (forall q, d = Fin q -> sd == Qmax 0.1 q /\ q <= sd).
Proof.
  destruct d as [q| | |]; unfold safeDuration; simpl.
  - destruct (Qle_bool 0.1 q) eqn:E; qbool.
    + exists q. repeat apply conj; try reflexivity; try lra; try discriminate.
      intros q' Hq. injection Hq as <-.
      rewrite Q.max_r by exact E. split; lra.
    + exists 0.1. repeat apply conj; try reflexivity; try lra; try discriminate.
      intros q' Hq. injection Hq as <-.
      rewrite Q.max_l by lra. split; lra.
  - exists 0.5. repeat apply conj; try lra; try reflexivity; discriminate.
  - exists 0.5. repeat apply conj; try lra; try reflexivity; discriminate.
  - exists 0.5. repeat apply conj; try lra; try reflexivity; discriminate.
Qed.

(** One reservation from a timeline whose two cursors are finite: the
    slot starts at [s], not before the cursor, and both cursors stay
    finite. *)
Lemma nextAvailableSlot_fin (c b : Q) (d : num) (cam np : bool) :
  exists s sd : Q,
    safeDuration d = Fin sd /\ 0.1 <= sd
    /\ (JS.isFinite d = false -> sd == 0.5)
    /\ (forall q, d = Fin q -> sd == Qmax 0.1 q /\ q <= sd)
    /\ s == (if cam then Qmax c b else c) + (if np then 0.3 else 0)
    /\ nextAvailableSlot (mkSlot d cam np) (mkTimeline (Fin c) (Fin b))
       = (Fin s,
          mkTimeline (Fin (s + sd + 0.1))
                     (Fin (if cam then s + sd + 0.1 else b))).
Proof.
  destruct (safeDuration_cases d) as (sd & Hsd & Hpos & Hinf & Hfin).
  unfold nextAvailableSlot. simpl. rewrite Hsd.
  destruct cam, np; simpl.
  - destruct (Qle_bool c b) eqn:E; qbool;
      eexists; exists sd; (repeat apply conj; [| | | | | reflexivity]); auto;
      [rewrite Q.max_r by exact E | rewrite Q.max_l by lra]; reflexivity.
  - destruct (Qle_bool c b) eqn:E; qbool;
      eexists; exists sd; (repeat apply conj; [| | | | | reflexivity]); auto;
      [rewrite Q.max_r by exact E | rewrite Q.max_l by lra]; lra.
  - eexists; exists sd; (repeat apply conj; [| | | | | reflexivity]); auto. reflexivity.
  - eexists; exists sd; (repeat apply conj; [| | | | | reflexivity]); auto. lra.
Qed.

(** C4.  A reservation on a timeline with finite cursors returns
    [max(cursor, cameraBusyUntil)] when a camera move is needed and the
    cursor otherwise, plus [0.3] when a narration pause is asked for;
    the duration is clamped ([0.5] when it is not finite, else at least
    [0.1]); the cursor moves to start + clamped duration + [0.1], and so
    does [cameraBusyUntil] when a camera move is needed, which never
    decreases.  Two camera reservations of duration [1.0] in a row: the
    second starts no earlier than the first start + [1.0] + [0.1]. *)
Theorem nextAvailableSlot_spec :
  forall (c b : Q) (d : num) (cam np : bool),
    let r := nextAvailableSlot (mkSlot d cam np) (mkTimeline (Fin c) (Fin b)) in
    let s := (if cam then Qmax c b else c) + (if np then 0.3 else 0) in
    (exists sd : Q,
        safeDuration d = Fin sd /\ 0 < sd
        /\ (JS.isFinite d = false -> sd == 0.5)
        /\ (forall q, d = Fin q -> sd == Qmax 0.1 q)
        /\ (fst r =~ Fin s)%js
        /\ (currentTime (snd r) =~ Fin (s + sd + 0.1))%js
        /\ (cameraBusyUntil (snd r)
            =~ Fin (if cam then s + sd + 0.1 else b))%js
        /\ (Fin b <=? cameraBusyUntil (snd r))%js = true)
    /\ (forall np1 np2 : bool,
           let r1 := nextAvailableSlot (mkSlot (Fin 1.0) true np1)
                                       (mkTimeline (Fin c) (Fin b)) in
           let r2 := nextAvailableSlot (mkSlot (Fin 1.0) true np2) (snd r1) in
           (fst r1 + Fin 1.0 + Fin 0.1 <=? fst r2)%js = true
           /\ (cameraBusyUntil (snd r1) <=? cameraBusyUntil (snd r2))%js = true).
Proof.
  intros c b d cam np r s. split.
  - destruct (nextAvailableSlot_fin c b d cam np)
      as (s' & sd & Hsd & Hpos & Hinf & Hfin & Hs & Hr).
    subst r. rewrite Hr. simpl.
    exists sd. repeat apply conj.
    + exact Hsd.
    + lra.
    + exact Hinf.
    + intros q Hq. apply (Hfin q Hq).
    + exact Hs.
    + subst s. rewrite Hs. reflexivity.
    + subst s. destruct cam; simpl; [rewrite Hs|]; reflexivity.
    + destruct cam; qbool; [|lra].
      assert (b <= Qmax c b) by apply Q.le_max_r.
      destruct np; lra.
  - intros np1 np2. cbv zeta.
    destruct (nextAvailableSlot_fin c b (Fin 1.0) true np1)
      as (s1 & sd1 & Hsd1 & _ & _ & Hfin1 & Hs1 & Hr1).
    destruct (Hfin1 _ eq_refl) as [Hm1 _].
    rewrite Hr1. cbn [fst snd].
    destruct (nextAvailableSlot_fin (s1 + sd1 + 0.1) (s1 + sd1 + 0.1)
                                    (Fin 1.0) true np2)
      as (s2 & sd2 & Hsd2 & Hpos2 & _ & _ & Hs2 & Hr2).
    rewrite Hr2. cbn [fst snd cameraBusyUntil JS.add JS.leb].
    assert (sd1 == 1) by (rewrite Hm1, Q.max_r by lra; reflexivity).
    rewrite Q.max_l in Hs2 by lra.
    split; qbool; destruct np2; lra.
Qed.

(** ** Stroke compiler *)

Lemma estimatePathLength_fin (p : svgpath) :
  exists len : Q,
    estimatePathLength p = Fin len /\ 60 <= len
    /\ len == Qmax (inject_Z (Z.of_nat (countCommands p)) * 40) 60.
Proof.
  unfold estimatePathLength, JS.ofNat. simpl.
  set (n := inject_Z (Z.of_nat (countCommands p)) * 40).
  destruct (Qle_bool n 60) eqn:E; qbool.
  - exists 60. repeat apply conj; try reflexivity; try lra.
    rewrite Q.max_r by exact E. reflexivity.
  - exists n. repeat apply conj; try reflexivity; try lra.
    rewrite Q.max_l by lra. reflexivity.
Qed.

Lemma durationPerChar_fin (s : DrawingSpeed) :
  durationPerChar s = Fin (perCharacter s).
Proof. destruct s; reflexivity. Qed.

(** The duration given to a segment of finite length. *)
Lemma strokeOfSegment_duration (s : DrawingSpeed) (d : svgpath) (len : Q) :
  exists dq : Q,
    stroke_duration (strokeOfSegment s (mkSegment d (Fin len))) = Fin dq
    /\ dq == clamp (len * perCharacter s / 100) 0.1 0.5
    /\ 0.1 <= dq <= 0.5.
Proof.
  unfold strokeOfSegment, clamp. cbn [seg_length stroke_duration].
  rewrite durationPerChar_fin.
  change ((Fin len * Fin (perCharacter s) / Fin 100)%js)
    with (Fin (len * perCharacter s / 100)).
  set (v := len * perCharacter s / 100).
  cbn [JS.min JS.leb].
  destruct (Qle_bool v 0.5) eqn:E1; cbn [JS.max JS.leb].
  - destruct (Qle_bool 0.1 v) eqn:E2; qbool.
    + exists v. rewrite Q.min_l, Q.max_r by lra. repeat apply conj; try reflexivity; lra.
    + exists 0.1. rewrite Q.min_l, Q.max_l by lra. repeat apply conj; try reflexivity; lra.
  - qbool. exists 0.5. rewrite Q.min_r, Q.max_r by lra.
    repeat apply conj; try reflexivity; lra.
Qed.

Section Glyphs.

Context (host : Host).

Lemma segmentsFrom_lengths (text : jsstring) :
  forall currentX baseY scale,
    Forall (fun seg => seg_length seg = estimatePathLength (seg_d seg))
           (segmentsFrom host text currentX baseY scale).
Proof.
  induction text as [|char rest IH]; intros currentX baseY scale; simpl.
  - constructor.
  - destruct (N.eqb char space); [apply IH|].
    apply Forall_app. split; [|apply IH].
    apply Forall_forall. intros seg Hin.
    apply in_map_iff in Hin. destruct Hin as (p & <- & _). reflexivity.
Qed.

Lemma strokeOfSegment_compiled (s : DrawingSpeed) (seg : PathSegment) :
  seg_length seg = estimatePathLength (seg_d seg) ->
  compiledFrom s seg (strokeOfSegment s seg).
Proof.
  intros Hlen. destruct seg as [d l]. cbn [seg_length seg_d] in *.
  destruct (estimatePathLength_fin d) as (len & Hl & _ & Hq).
  rewrite Hl in Hlen. subst l.
  destruct (strokeOfSegment_duration s d len) as (dq & Hd & Hc & Hb).
  split; [reflexivity|]. exists len, dq. cbn [seg_length seg_d].
  repeat apply conj; auto; apply Hb.
Qed.

(** C8.  The strokes of a text are its path segments in order, each
    with the clamp of (estimated length x per-character duration of the
    speed / 100) between [0.1] and [0.5] as its duration, which
    therefore lies in [[0.1, 0.5]]. *)
Theorem compile_durations :
  forall (text : jsstring) (position : Position) (fontSize : num)
         (speed : DrawingSpeed),
    Forall2 (compiledFrom speed)
            (textToPathSegments host text position (fontSize / Fin 30)%js)
            (compile host text position fontSize speed).
Proof.
  intros text position fontSize speed. unfold compile, textToPathSegments.
  pose proof (segmentsFrom_lengths text (px position) (py position)
                (fontSize / Fin 30)%js) as Hall.
  induction Hall as [|seg segs Hseg _ IH]; simpl; constructor.
  - apply strokeOfSegment_compiled. exact Hseg.
  - exact IH.
Qed.

End Glyphs.

(** ** Glyph lookup *)

Lemma placeholder_vertices (x y s : Q) :
  vertices (placeholder (Fin x) (Fin y) (Fin s))
  = [ (Fin x, Fin y);
      (Fin (x + 15 * s), Fin y);
      (Fin (x + 15 * s), Fin (y + 25 * s));
      (Fin x, Fin (y + 25 * s)) ].
Proof. reflexivity. Qed.

Lemma placeholder_area (x y s : Q) :
  0 < s ->
  exists area : Q,
    enclosedArea (placeholder (Fin x) (Fin y) (Fin s)) = Fin area
    /\ area == (15 * s) * (25 * s) /\ 0 < area.
Proof.
  intros Hs. unfold enclosedArea. rewrite placeholder_vertices.
  cbn -[Qabs Qplus Qmult Qminus Qopp Qdiv].
  eexists. split; [reflexivity|].
  assert (Hss : 0 < s * s) by nra.
  match goal with
  | |- Qabs ?e / 2 == _ /\ _ =>
      assert (He : e == 750 * (s * s)) by ring
  end.
  rewrite He, Qabs_pos by lra.
  split; [field | ].
  apply Qlt_shift_div_l; lra.
Qed.

(** C7 (as the code has it).  A character other than a space for which
    neither the table nor the table at its upper-case form has an
    entry gets one stroke: the closed rectangle of width [15 * scale]
    and height [25 * scale] at the anchor, of area [375 * scale^2 > 0]
    for a finite anchor and a finite positive scale.  The lookup is a
    total function: no input makes it fail. *)
Theorem getCharacterPath_unmapped :
  forall (host : Host) (char : jschar) (x y scale : Q),
    lookup char = None ->
    lookupKey (toUpperCase host char) = None ->
    char <> space ->
    0 < scale ->
    getCharacterPath host char (Fin x) (Fin y) (Fin scale)
    = [placeholder (Fin x) (Fin y) (Fin scale)]
    /\ vertices (placeholder (Fin x) (Fin y) (Fin scale))
       = [ (Fin x, Fin y);
           (Fin (x + 15 * scale), Fin y);
           (Fin (x + 15 * scale), Fin (y + 25 * scale));
           (Fin x, Fin (y + 25 * scale)) ]
    /\ isClosed (placeholder (Fin x) (Fin y) (Fin scale)) = true
    /\ exists area : Q,
         enclosedArea (placeholder (Fin x) (Fin y) (Fin scale)) = Fin area
         /\ area == (15 * scale) * (25 * scale) /\ 0 < area.
Proof.
  intros host char x y scale Htab Hup Hsp Hscale.
  repeat apply conj.
  - unfold getCharacterPath. rewrite Htab, Hup.
    destruct (N.eqb char space) eqn:E; [|reflexivity].
    apply N.eqb_eq in E. contradiction.
  - apply placeholder_vertices.
  - reflexivity.
  - apply placeholder_area. exact Hscale.
Qed.

(** The at sign has no glyph, in either case. *)
Lemma getCharacterPath_unmapped_witness :
  getCharacterPath refHost 64%N (Fin 7) (Fin 9) (Fin 2)
  = [placeholder (Fin 7) (Fin 9) (Fin 2)]
  /\ exists area : Q,
       enclosedArea (placeholder (Fin 7) (Fin 9) (Fin 2)) = Fin area
       /\ area == (15 * 2) * (25 * 2) /\ 0 < area.
Proof.
  destruct (getCharacterPath_unmapped refHost 64%N 7 9 2) as (H1 & _ & _ & H4).
  - reflexivity.
  - reflexivity.
  - discriminate.
  - reflexivity.
  - split; [exact H1 | exact H4].
Defined.

(** C7 as stated fails: the dotless i (code point 305) has no entry in
    the table, its upper-case form is [I], and the lookup returns the
    three strokes of [I], not the placeholder. *)
Lemma getCharacterPath_table_only_counterexample :
  ~ (forall (char : jschar) (x y scale : Q),
        lookup char = None -> char <> space -> 0 < scale ->
        getCharacterPath refHost char (Fin x) (Fin y) (Fin scale)
        = [placeholder (Fin x) (Fin y) (Fin scale)]).
Proof.
  intros H.
  specialize (H 305%N 0 0 1 eq_refl).
  assert (Hlen : List.length (getCharacterPath refHost 305%N (Fin 0) (Fin 0) (Fin 1))
                 = 1%nat).
  { rewrite H; [reflexivity | discriminate | reflexivity]. }
  vm_compute in Hlen. discriminate.
Qed.

(** ** State evaluator: progress *)

Lemma div_fin (x d : Q) : ~ d == 0 -> (Fin x / Fin d)%js = Fin (x / d).
Proof.
  intros Hd. simpl. destruct (Qeq_bool d 0) eqn:E; [|reflexivity].
  qbool. contradiction.
Qed.

Lemma positive_duration (d : num) :
  (Fin 0 <? d)%js = true -> (exists q, d = Fin q /\ 0 < q) \/ d = PInf.
Proof.
  destruct d as [q| | |]; simpl; intros H; try discriminate.
  - left. exists q. qbool. split; [reflexivity | exact H].
  - right. reflexivity.
Qed.

Section Progress.

Context (host : Host).

(** The progress and completion flag of [getActionState], for an
    action that starts at a finite time, at finite times. *)
Lemma getActionState_cases (a : DrawingAction) (st t s0 : Q) :
  startTime a = Fin st ->
  let r := getActionState host a (Fin t) (Fin s0) in
  (currentProgress r, isComplete r)
  = if JS.Qltb t (s0 + st) then (Fin 0, false)
    else if (Fin t >=? Fin (s0 + st) + duration a)%js then (Fin 1, true)
    else ((Fin t - Fin (s0 + st)) / duration a, false)%js.
Proof.
  intros Hst. unfold getActionState. rewrite Hst.
  change ((Fin s0 + Fin st)%js) with (Fin (s0 + st)).
  change ((Fin t <? Fin (s0 + st))%js) with (JS.Qltb t (s0 + st)).
  destruct (JS.Qltb t (s0 + st)); [reflexivity|].
  destruct (Fin t >=? Fin (s0 + st) + duration a)%js; reflexivity.
Qed.

(** With a finite positive duration the three cases are the three
    regions of the time axis. *)
Lemma getActionState_finite (a : DrawingAction) (st d t s0 : Q) :
  startTime a = Fin st -> duration a = Fin d -> 0 < d ->
  let r := getActionState host a (Fin t) (Fin s0) in
  (t < s0 + st /\ currentProgress r = Fin 0 /\ isComplete r = false)
  \/ (s0 + st + d <= t /\ currentProgress r = Fin 1 /\ isComplete r = true)
  \/ (s0 + st <= t < s0 + st + d
      /\ currentProgress r = Fin ((t - (s0 + st)) / d)
      /\ isComplete r = false).
Proof.
  intros Hst Hd Hpos r.
  pose proof (getActionState_cases a st t s0 Hst) as H. fold r in H.
  rewrite Hd in H.
  change ((Fin t >=? Fin (s0 + st) + Fin d)%js)
    with (Qle_bool (s0 + st + d) t) in H.
  change ((Fin t - Fin (s0 + st))%js) with (Fin (t - (s0 + st))) in H.
  rewrite div_fin in H by lra.
  destruct (JS.Qltb t (s0 + st)) eqn:E1.
  - left. qbool. injection H as -> ->. auto.
  - destruct (Qle_bool (s0 + st + d) t) eqn:E2; qbool.
    + right; left. injection H as -> ->. auto.
    + right; right. injection H as -> ->.
      repeat apply conj; try reflexivity; lra.
Qed.

(** With an infinite duration the action never completes and its
    progress stays at zero. *)
Lemma getActionState_infinite (a : DrawingAction) (st t s0 : Q) :
  startTime a = Fin st -> duration a = PInf ->
  let r := getActionState host a (Fin t) (Fin s0) in
  currentProgress r = Fin 0 /\ isComplete r = false.
Proof.
  intros Hst Hd r.
  pose proof (getActionState_cases a st t s0 Hst) as H. fold r in H.
  rewrite Hd in H. simpl in H.
  destruct (JS.Qltb t (s0 + st)); injection H as -> ->; auto.
Qed.

Lemma in_progress_bounds (t s d : Q) :
  0 < d -> s <= t < s + d -> 0 <= (t - s) / d <= 1.
Proof.
  intros Hd [H1 H2]. split.
  - apply Qle_shift_div_l; lra.
  - apply Qle_shift_div_r; lra.
Qed.

(** C2.  For an action of positive duration that starts at a finite
    time, evaluated at a finite time [t]: the progress is [0] before
    the start, [1] with [isComplete] from start + duration on, and
    [(t - start) / duration] in between; it always lies in [[0, 1]],
    and [isComplete] implies progress [1]. *)
Theorem getActionState_progress :
  forall (a : DrawingAction) (st t s0 : Q),
    startTime a = Fin st ->
    (Fin 0 <? duration a)%js = true ->
    let r := getActionState host a (Fin t) (Fin s0) in
    let p := currentProgress r in
    (t < s0 + st -> p = Fin 0 /\ isComplete r = false)
    /\ ((Fin t >=? Fin (s0 + st) + duration a)%js = true ->
        p = Fin 1 /\ isComplete r = true)
    /\ (s0 + st <= t ->
        (Fin t >=? Fin (s0 + st) + duration a)%js = false ->
        p = ((Fin t - Fin (s0 + st)) / duration a)%js /\ isComplete r = false)
    /\ (forall d : Q, duration a = Fin d ->
        s0 + st <= t < s0 + st + d ->
        p = Fin ((t - (s0 + st)) / d))
    /\ (Fin 0 <=? p)%js = true
    /\ (p <=? Fin 1)%js = true
    /\ (isComplete r = true -> p = Fin 1).
Proof.
  intros a st t s0 Hst Hpos r p. subst p.
  pose proof (getActionState_cases a st t s0 Hst) as Hc. fold r in Hc.
  repeat apply conj.
  - intros Hlt. apply Qltb_true in Hlt. rewrite Hlt in Hc.
    injection Hc as -> ->. auto.
  - intros Hge.
    destruct (JS.Qltb t (s0 + st)) eqn:E1.
    + exfalso. qbool.
      destruct (positive_duration _ Hpos) as [(d & Hd & Hd0) | Hd];
        rewrite Hd in Hge; simpl in Hge; [qbool; lra | discriminate].
    + rewrite Hge in Hc. injection Hc as -> ->. auto.
  - intros Hle Hnge. apply Qltb_false in Hle. rewrite Hle, Hnge in Hc.
    injection Hc as -> ->. auto.
  - intros d Hd Hin.
    destruct (positive_duration _ Hpos) as [(d' & Hd' & Hd0) | Hd'];
      [|congruence].
    assert (d' = d) by congruence. subst d'.
    destruct (getActionState_finite a st d t s0 Hst Hd Hd0)
      as [(H1 & _) | [(H1 & _) | (_ & H2 & _)]]; try lra.
    exact H2.
  - destruct (positive_duration _ Hpos) as [(d & Hd & Hd0) | Hd].
    + destruct (getActionState_finite a st d t s0 Hst Hd Hd0)
        as [(_ & H2 & _) | [(_ & H2 & _) | (H1 & H2 & _)]];
        subst r; rewrite H2; simpl; qbool; try lra.
      apply (in_progress_bounds t (s0 + st) d Hd0 H1).
    + destruct (getActionState_infinite a st t s0 Hst Hd) as [H2 _].
      subst r. rewrite H2. reflexivity.
  - destruct (positive_duration _ Hpos) as [(d & Hd & Hd0) | Hd].
    + destruct (getActionState_finite a st d t s0 Hst Hd Hd0)
        as [(_ & H2 & _) | [(_ & H2 & _) | (H1 & H2 & _)]];
        subst r; rewrite H2; simpl; qbool; try lra.
      apply (in_progress_bounds t (s0 + st) d Hd0 H1).
    + destruct (getActionState_infinite a st t s0 Hst Hd) as [H2 _].
      subst r. rewrite H2. reflexivity.
  - intros Hcomp.
    destruct (JS.Qltb t (s0 + st)).
    + injection Hc as _ Hc. congruence.
    + destruct (Fin t >=? Fin (s0 + st) + duration a)%js.
      * injection Hc as -> _. reflexivity.
      * injection Hc as _ Hc. congruence.
Qed.

(** C3.  For an action of positive duration that starts at a finite
    time, the progress at a finite time [t1] is at most the progress
    at any later finite time [t2]. *)
Theorem getActionState_monotone :
  forall (a : DrawingAction) (st t1 t2 s0 : Q),
    startTime a = Fin st ->
    (Fin 0 <? duration a)%js = true ->
    t1 <= t2 ->
    (currentProgress (getActionState host a (Fin t1) (Fin s0))
     <=? currentProgress (getActionState host a (Fin t2) (Fin s0)))%js = true.
Proof.
  intros a st t1 t2 s0 Hst Hpos Hle.
  destruct (positive_duration _ Hpos) as [(d & Hd & Hd0) | Hd].
  - destruct (getActionState_finite a st d t1 s0 Hst Hd Hd0)
      as [(A1 & A2 & _) | [(A1 & A2 & _) | (A1 & A2 & _)]];
    destruct (getActionState_finite a st d t2 s0 Hst Hd Hd0)
      as [(B1 & B2 & _) | [(B1 & B2 & _) | (B1 & B2 & _)]];
    rewrite A2, B2; simpl; qbool; try lra.
    + apply (in_progress_bounds t2 (s0 + st) d Hd0 B1).
    + apply (in_progress_bounds t1 (s0 + st) d Hd0 A1).
    + unfold Qdiv. apply Qmult_le_compat_r; [lra|].
      apply Qinv_le_0_compat. lra.
  - destruct (getActionState_infinite a st t1 s0 Hst Hd) as [A _].
    destruct (getActionState_infinite a st t2 s0 Hst Hd) as [B _].
    rewrite A, B. reflexivity.
Qed.

End Progress.

(** ** State evaluator: hand position on a straight arrow *)

Lemma eqv_fin (a : num) (q : Q) :
  (a =~ Fin q)%js -> exists q', a = Fin q' /\ q' == q.
Proof.
  destruct a as [q'| | |]; simpl; intros H; try contradiction.
  exists q'. split; [reflexivity | exact H].
Qed.

Lemma max_fin_ex (x y : Q) :
  exists q, JS.max (Fin x) (Fin y) = Fin q /\ q == Qmax x y.
Proof. apply eqv_fin, max_fin. Qed.

Lemma min_fin_ex (x y : Q) :
  exists q, JS.min (Fin x) (Fin y) = Fin q /\ q == Qmin x y.
Proof. apply eqv_fin, min_fin. Qed.

(** The clamped progress of [getHandPosition] half way through. *)
Lemma actionProgress_half (t s d : Q) :
  0 < d -> t == s + d / 2 ->
  exists p : Q,
    JS.min (Fin 1) (JS.max (Fin 0) ((Fin t - Fin s) / Fin d)%js) = Fin p
    /\ p == 0.5.
Proof.
  intros Hd Ht.
  assert (Ht' : t == s + d * 0.5) by (rewrite Ht; field).
  change ((Fin t - Fin s)%js) with (Fin (t - s)).
  rewrite div_fin by lra.
  assert (Hv : (t - s) / d == 0.5) by (rewrite Ht; field; lra).
  generalize dependent ((t - s) / d). intros v Hv.
  destruct (max_fin_ex 0 v) as (m & -> & Hm).
  destruct (min_fin_ex 1 m) as (p & -> & Hp).
  exists p. split; [reflexivity|].
  assert (Hm' : m == v) by (rewrite Hm; apply Q.max_r; lra).
  assert (Hp' : p == m) by (rewrite Hp; apply Q.min_r; lra).
  lra.
Qed.

(** The hand of [getActionState] is the one of [getHandPosition],
    unless the action hides it. *)
Lemma getActionState_hand (host : Host) (a : DrawingAction) (t s0 : num) :
  let handData :=
    match handVisible a with
    | Some false => None
    | _ => getHandPosition host a t s0
    end in
  handPosition (getActionState host a t s0) = option_map fst handData
  /\ handAngle (getActionState host a t s0) = option_map snd handData.
Proof.
  unfold getActionState.
  destruct (t <? s0 + startTime a)%js;
    [|destruct (t >=? s0 + startTime a + duration a)%js];
    split; reflexivity.
Qed.

(** C10.  An arrow action given by its ends (0, 0) and (100, 0), with
    no sampled path points, evaluated half way through its duration on
    a host whose [Math] functions are exact at the four points used
    ([sqrt 10000 = 100], [atan2(0, 100) = 0], [cos 0 = 1],
    [sin 0 = 0]): the progress is 1/2, the hand is at (50, 0), by linear
    interpolation along the segment, and its angle is 0, the angle of
    the segment. *)
Theorem getActionState_arrow_midpoint :
  forall (host : Host) (a : DrawingAction) (st d s0 t : Q),
    (forall q, q == 10000 -> (Math_sqrt host (Fin q) =~ Fin 100)%js) ->
    (forall y x, y == 0 -> x == 100 ->
                 (Math_atan2 host (Fin y) (Fin x) =~ Fin 0)%js) ->
    (forall q, q == 0 -> (Math_cos host (Fin q) =~ Fin 1)%js) ->
    (forall q, q == 0 -> (Math_sin host (Fin q) =~ Fin 0)%js) ->
    type a = arrow ->
    start a = Some (mkPosition (Fin 0) (Fin 0)) ->
    end_ a = Some (mkPosition (Fin 100) (Fin 0)) ->
    startTime a = Fin st ->
    duration a = Fin d ->
    0 < d ->
    handVisible a <> Some false ->
    (forall p, truthyList (path a) = Some p ->
               calculatePathPoints host p (duration a) = []) ->
    t == s0 + st + d / 2 ->
    let r := getActionState host a (Fin t) (Fin s0) in
    (currentProgress r =~ Fin 0.5)%js
    /\ exists (pos : Position) (angle : num),
         handPosition r = Some pos /\ handAngle r = Some angle
         /\ (px pos =~ Fin 50)%js /\ (py pos =~ Fin 0)%js
         /\ (angle =~ Fin 0)%js.
Proof.
  intros host a st d s0 t Hsqrt Hatan Hcos Hsin
         Htype Hstart Hend Hst Hd Hpos Hvis Hpath Ht r.
  assert (Ht' : t == s0 + st + d * 0.5) by (rewrite Ht; field).
  split.
  - destruct (getActionState_finite host a st d t s0 Hst Hd Hpos)
      as [(H1 & _) | [(H1 & _) | (_ & H2 & _)]]; try lra.
    fold r in H2. rewrite H2. simpl. rewrite Ht. field. lra.
  - assert (Hhand : exists pos angle,
               getHandPosition host a (Fin t) (Fin s0) = Some (pos, angle)
               /\ (px pos =~ Fin 50)%js /\ (py pos =~ Fin 0)%js
               /\ (angle =~ Fin 0)%js).
    { unfold getHandPosition.
      rewrite Hst, Hd, Htype, Hstart, Hend.
      change ((Fin s0 + Fin st)%js) with (Fin (s0 + st)).
      change ((Fin (s0 + st) + Fin d)%js) with (Fin (s0 + st + d)).
      change ((Fin t <? Fin (s0 + st))%js) with (JS.Qltb t (s0 + st)).
      change ((Fin t >? Fin (s0 + st + d))%js) with (JS.Qltb (s0 + st + d) t).
      assert (E1 : JS.Qltb t (s0 + st) = false) by (qbool; lra).
      assert (E2 : JS.Qltb (s0 + st + d) t = false) by (qbool; lra).
      rewrite E1, E2. cbn [orb].
      destruct (actionProgress_half t (s0 + st) d Hpos) as (p & -> & Hp);
        [lra|].
      assert (Hnone :
                match truthyList (path a) with
                | Some actionPath =>
                    match calculatePathPoints host actionPath (Fin d) with
                    | [] => None
                    | _ :: _ =>
                        match
                          pointAndAngle host
                            (calculatePathPoints host actionPath (Fin d)) (Fin p)
                        with
                        | Some (point, angle) =>
                            Some (mkPosition (pt_x point) (pt_y point), angle)
                        | None => None
                        end
                    end
                | None => None
                end = None).
      { destruct (truthyList (path a)) as [ap|] eqn:E; [|reflexivity].
        rewrite <- Hd, (Hpath ap eq_refl). reflexivity. }
      rewrite Hnone. cbn [px py].
      change ((Fin 100 - Fin 0)%js) with (Fin (100 - 0)).
      change ((Fin 0 - Fin 0)%js) with (Fin (0 - 0)).
      cbn [JS.mul JS.add].
      destruct (eqv_fin _ _ (Hsqrt ((100 - 0) * (100 - 0) + (0 - 0) * (0 - 0))
                                   ltac:(ring)))
        as (dist & -> & Hdist).
      destruct (eqv_fin _ _ (Hatan (0 - 0) (100 - 0) ltac:(ring) ltac:(ring)))
        as (ang & -> & Hang).
      destruct (eqv_fin _ _ (Hcos ang Hang)) as (co & -> & Hco).
      destruct (eqv_fin _ _ (Hsin ang Hang)) as (si & -> & Hsi).
      eexists. eexists. split; [reflexivity|].
      cbn [px py JS.mul JS.add JS.eqv].
      repeat apply conj.
      + rewrite Hco, Hdist, Hp. field.
      + rewrite Hsi, Hdist, Hp. field.
      + exact Hang. }
    destruct Hhand as (pos & angle & Hh & Hx & Hy & Ha).
    exists pos, angle. subst r.
    destruct (getActionState_hand host a (Fin t) (Fin s0)) as [-> ->].
    destruct (handVisible a) as [[|]|]; try congruence; rewrite Hh; auto.
Qed.

(** ** Scene compiler: sequencing of the emitted actions *)

Lemma inInterval_start (a : DrawingAction) (s t : Q) :
  startTime a = Fin s -> inInterval a t -> s <= t.
Proof.
  intros Hs [H _]. rewrite Hs in H. simpl in H. qbool. exact H.
Qed.

(** The interval of an action ends by [e] when its duration is finite
    and fits, and is empty when its duration is [NaN] or [-Infinity]. *)
Lemma inInterval_end (a : DrawingAction) (s e t : Q) :
  startTime a = Fin s ->
  duration a <> PInf ->
  (forall q, duration a = Fin q -> s + q <= e) ->
  inInterval a t -> t < e.
Proof.
  intros Hs Hinf Hfit [_ H]. rewrite Hs in H.
  destruct (duration a) as [q| | |] eqn:Hd; simpl in H; try discriminate.
  - qbool. specialize (Hfit q eq_refl). lra.
  - congruence.
Qed.

Lemma sequenced_le (acts : list DrawingAction) :
  forall lo hi, sequenced lo acts hi -> lo <= hi.
Proof.
  induction acts as [|a rest IH]; simpl; intros lo hi H.
  - exact H.
  - destruct H as (s & e & _ & H1 & H2 & _ & H3).
    apply IH in H3. lra.
Qed.

Lemma sequenced_weaken (acts : list DrawingAction) :
  forall lo lo' hi hi',
    lo' <= lo -> hi <= hi' -> sequenced lo acts hi -> sequenced lo' acts hi'.
Proof.
  induction acts as [|a rest IH]; simpl; intros lo lo' hi hi' Hlo Hhi H.
  - lra.
  - destruct H as (s & e & Hs & H1 & H2 & Hin & H3).
    exists s, e. repeat apply conj; auto; try lra.
    apply (IH e e hi hi'); auto. lra.
Qed.

Lemma sequenced_app (xs ys : list DrawingAction) :
  forall lo mid hi,
    sequenced lo xs mid -> sequenced mid ys hi -> sequenced lo (xs ++ ys) hi.
Proof.
  induction xs as [|a rest IH]; simpl; intros lo mid hi Hx Hy.
  - apply (sequenced_weaken ys mid lo hi hi); auto. lra.
  - destruct Hx as (s & e & Hs & H1 & H2 & Hin & H3).
    exists s, e. repeat apply conj; auto.
    apply (IH e mid hi); auto.
Qed.

Lemma sequenced_one (a : DrawingAction) (lo s e hi : Q) :
  startTime a = Fin s -> lo <= s -> s <= e -> e <= hi ->
  (forall t, inInterval a t -> t < e) ->
  sequenced lo [a] hi.
Proof.
  intros Hs H1 H2 H3 Hin. simpl. exists s, e. repeat apply conj; auto.
Qed.

(** Every action of a sequence starts at a finite time, not before the
    lower bound. *)
Lemma sequenced_starts (acts : list DrawingAction) :
  forall lo hi,
    sequenced lo acts hi ->
    Forall (fun a => exists s, startTime a = Fin s /\ lo <= s) acts.
Proof.
  induction acts as [|a rest IH]; simpl; intros lo hi H; constructor.
  - destruct H as (s & e & Hs & H1 & _). exists s. auto.
  - destruct H as (s & e & Hs & H1 & H2 & _ & H3).
    apply IH in H3. eapply Forall_impl; [|exact H3].
    intros b (s' & Hs' & Hle). exists s'. split; [exact Hs' | lra].
Qed.

(** Two actions at different places of a sequence have disjoint
    intervals. *)
Lemma sequenced_disjoint_lt (acts : list DrawingAction) :
  forall lo hi i j a b,
    sequenced lo acts hi ->
    (i < j)%nat ->
    nth_error acts i = Some a -> nth_error acts j = Some b ->
    disjointIntervals a b.
Proof.
  induction acts as [|x rest IH]; intros lo hi i j a b Hseq Hij Ha Hb.
  - destruct i; discriminate.
  - destruct Hseq as (s & e & Hs & H1 & H2 & Hin & H3).
    destruct j as [|j]; [lia|]. simpl in Hb.
    destruct i as [|i].
    + simpl in Ha. injection Ha as <-.
      intros t [Ht1 Ht2]. apply Hin in Ht1.
      pose proof (sequenced_starts rest e hi H3) as Hst.
      rewrite Forall_forall in Hst.
      destruct (Hst b (nth_error_In _ _ Hb)) as (s' & Hs' & Hle).
      pose proof (inInterval_start b s' t Hs' Ht2). lra.
    + simpl in Ha. apply (IH e hi i j a b); auto. lia.
Qed.

Lemma disjointIntervals_sym (a b : DrawingAction) :
  disjointIntervals a b -> disjointIntervals b a.
Proof. intros H t [H1 H2]. apply (H t). split; assumption. Qed.

Lemma sequenced_disjoint (acts : list DrawingAction) (lo hi : Q) :
  sequenced lo acts hi ->
  forall i j a b,
    i <> j ->
    nth_error acts i = Some a -> nth_error acts j = Some b ->
    disjointIntervals a b.
Proof.
  intros Hseq i j a b Hij Ha Hb.
  destruct (Nat.lt_ge_cases i j) as [Hlt | Hge].
  - apply (sequenced_disjoint_lt acts lo hi i j a b); auto.
  - apply disjointIntervals_sym.
    apply (sequenced_disjoint_lt acts lo hi j i b a); auto. lia.
Qed.

(** ** Scene compiler: the duration of a text *)

Lemma blank_cons (c : jschar) (rest : jsstring) :
  blank (c :: rest) <-> c = space /\ blank rest.
Proof.
  unfold blank. split.
  - intros H. inversion H; subst. auto.
  - intros [H1 H2]. constructor; auto.
Qed.

Lemma sum_from (ss : list Stroke) :
  Forall (fun st => exists dq, stroke_duration st = Fin dq /\ 0.1 <= dq <= 0.5) ss ->
  forall acc : Q,
    exists q : Q,
      fold_left (fun sum stroke => (sum + stroke_duration stroke)%js) ss (Fin acc)
      = Fin q
      /\ acc <= q /\ (ss <> [] -> acc + 0.1 <= q).
Proof.
  induction 1 as [|st rest (dq & Hdq & Hb) _ IH]; intros acc; simpl.
  - exists acc. repeat apply conj; try reflexivity; try lra; try congruence.
  - rewrite Hdq. change ((Fin acc + Fin dq)%js) with (Fin (acc + dq)).
    destruct (IH (acc + dq)) as (q & Hq & Hle & _).
    exists q. repeat apply conj; auto; lra.
Qed.

Section TextDuration.

Context (host : Host).

Lemma getCharacterPath_nonempty (char : jschar) (x y scale : num) :
  char <> space -> getCharacterPath host char x y scale <> [].
Proof.
  intros Hsp. unfold getCharacterPath.
  destruct (match lookup char with
            | Some p => Some p
            | None => lookupKey (toUpperCase host char)
            end) as [[|p ps]|].
  - destruct (N.eqb char space) eqn:E; [|discriminate].
    apply N.eqb_eq in E. contradiction.
  - discriminate.
  - destruct (N.eqb char space) eqn:E; [|discriminate].
    apply N.eqb_eq in E. contradiction.
Qed.

(** A text has no segment exactly when it is blank. *)
Lemma segmentsFrom_blank (text : jsstring) :
  forall currentX baseY scale,
    (blank text -> segmentsFrom host text currentX baseY scale = [])
    /\ (~ blank text -> segmentsFrom host text currentX baseY scale <> []).
Proof.
  induction text as [|char rest IH]; intros currentX baseY scale; simpl.
  - split; [reflexivity|]. intros H. exfalso. apply H. constructor.
  - destruct (N.eqb char space) eqn:E.
    + apply N.eqb_eq in E.
      destruct (IH (currentX + Fin 16 * scale)%js baseY scale) as [IH1 IH2].
      split; intros H.
      * apply IH1. apply blank_cons in H. apply H.
      * apply IH2. intros Hb. apply H. apply blank_cons. auto.
    + apply N.eqb_neq in E. split; intros H.
      * apply blank_cons in H. destruct H as [H _]. contradiction.
      * intros Happ. apply app_eq_nil in Happ. destruct Happ as [Hmap _].
        apply map_eq_nil in Hmap.
        apply (getCharacterPath_nonempty char currentX baseY scale E Hmap).
Qed.

Lemma compile_finite (text : jsstring) (position : Position) (fontSize : num)
    (speed : DrawingSpeed) :
  Forall (fun st => exists dq, stroke_duration st = Fin dq /\ 0.1 <= dq <= 0.5)
         (compile host text position fontSize speed).
Proof.
  unfold compile, textToPathSegments.
  apply Forall_forall. intros st Hin.
  apply in_map_iff in Hin. destruct Hin as (seg & <- & Hseg).
  pose proof (segmentsFrom_lengths host text (px position) (py position)
                (fontSize / Fin 30)%js) as Hall.
  rewrite Forall_forall in Hall.
  destruct (strokeOfSegment_compiled speed seg (Hall seg Hseg))
    as (_ & len & dq & _ & _ & Hd & _ & Hb).
  exists dq. auto.
Qed.

(** The duration of a text is finite; it is zero for a blank text and
    positive otherwise. *)
Lemma compile_sum (text : jsstring) (position : Position) (fontSize : num)
    (speed : DrawingSpeed) :
  exists q : Q,
    sumDurations (compile host text position fontSize speed) = Fin q
    /\ 0 <= q /\ (blank text -> q == 0) /\ (~ blank text -> 0 < q).
Proof.
  unfold sumDurations.
  destruct (sum_from _ (compile_finite text position fontSize speed) 0)
    as (q & Hq & Hle & Hne).
  exists q. repeat apply conj; auto.
  - intros Hb. unfold compile, textToPathSegments in Hq.
    rewrite (proj1 (segmentsFrom_blank text _ _ _) Hb) in Hq.
    simpl in Hq. injection Hq as <-. reflexivity.
  - intros Hnb.
    assert (0 + 0.1 <= q); [|lra].
    apply Hne. unfold compile, textToPathSegments. intros Hnil.
    apply map_eq_nil in Hnil.
    apply (proj2 (segmentsFrom_blank text _ _ _) Hnb Hnil).
Qed.

(** The [write] action of a text, from finite cursors: it starts
    [0.3] after the cursor, lasts the sum of its strokes, and the cursor
    moves past its end. *)
Lemma createStrokeSequenceAction_fin (R : num -> Prop) (txt : jsstring)
    (position : Position) (fontSize : num) (speed : DrawingSpeed) (c b : Q) :
  exists (a : DrawingAction) (s q e : Q),
    createStrokeSequenceAction host txt position fontSize speed (fin c b)
    = (a, fin e b)
    /\ startTime a = Fin s /\ duration a = Fin q
    /\ s == c + 0.3 /\ 0 <= q /\ s + q + 0.1 <= e
    /\ type a = write /\ text a = Some txt
    /\ timed R a /\ requiresCameraMove a = false.
Proof.
  destruct (compile_sum txt position fontSize speed)
    as (q & Hq & Hq0 & Hblank & Hnblank).
  destruct (nextAvailableSlot_fin c b (Fin q) false true)
    as (s & sd & Hsd & Hsd0 & _ & Hfin & Hs & Hr).
  destruct (Hfin q eq_refl) as [_ Hle].
  unfold createStrokeSequenceAction, bind, ret, fin.
  rewrite Hq, Hr. cbn [fst snd].
  eexists. exists s, q, (s + sd + 0.1).
  split; [reflexivity|]. cbn [startTime duration type].
  repeat apply conj; try reflexivity; try lra.
  unfold timed. cbn [type].
  exists txt. eexists. eexists. exists q.
  cbn [text metadata strokes duration].
  repeat apply conj; try reflexivity; auto.
Qed.

End TextDuration.

(** ** Scene compiler: one intent *)

(** Run the next reservation in the goal, from finite cursors. *)
Ltac run_slot :=
  match goal with
  | |- context [nextAvailableSlot (mkSlot ?d ?cam ?np)
                                  (mkTimeline (Fin ?c) (Fin ?b))] =>
      let s := fresh "s" in
      let sd := fresh "sd" in
      let Hsd0 := fresh "Hsd0" in
      let Hfin := fresh "Hfin" in
      let Hs := fresh "Hs" in
      let Hr := fresh "Hr" in
      destruct (nextAvailableSlot_fin c b d cam np)
        as (s & sd & _ & Hsd0 & _ & Hfin & Hs & Hr);
      rewrite Hr; cbn [fst snd];
      try (let Hle := fresh "Hle" in
           match d with
           | Fin ?q => destruct (Hfin q eq_refl) as [_ Hle]
           end)
  end.

(** The interval of an action with a known finite start and duration
    ends by the bound in the goal. *)
Ltac interval_end :=
  let t := fresh "t" in
  let Ht := fresh "Ht" in
  let q := fresh "q" in
  let Hq := fresh "Hq" in
  intros t Ht;
  eapply inInterval_end in Ht;
  [ exact Ht
  | reflexivity
  | discriminate
  | intros q Hq; injection Hq as <-; simpl in *; lra ].

(** An action that is no [write] and lasts the positive constant [q]. *)
Ltac constant_duration q :=
  unfold timed; cbn [type]; left; exists q; split; [reflexivity | lra].

Section Intents.

Context (host : Host).

Lemma createArrowStrokes_timing (from to : Position) (s : num) :
  startTime (createArrowStrokes host from to s) = s
  /\ duration (createArrowStrokes host from to s) = Fin (0.8 + 0.7)
  /\ type (createArrowStrokes host from to s) = draw
  /\ requiresCameraMove (createArrowStrokes host from to s) = false.
Proof.
  unfold createArrowStrokes, generateArrowPath. cbv zeta.
  repeat apply conj; reflexivity.
Qed.

Lemma createEmphasisAction_timing (target : jsstring) (method : EmphasisMethod)
    (s : num) :
  startTime (createEmphasisAction target method s) = s
  /\ (exists q : Q,
         duration (createEmphasisAction target method s) = Fin q
         /\ 0 < q <= 1)
  /\ type (createEmphasisAction target method s) <> write
  /\ requiresCameraMove (createEmphasisAction target method s) = false.
Proof.
  destruct method; simpl; repeat apply conj; try reflexivity;
    try discriminate; eexists; (split; [reflexivity | lra]).
Qed.

(** The pause that follows an introduced concept, and its slot. *)
Lemma thinking_beat (c hi : Q) (a : DrawingAction) :
  a = {| type := pause; startTime := Fin c; duration := Fin 0.5;
         text := None; fontSize := None; position := None; color := None;
         path := None; start := None; end_ := None; radius := None;
         imageUrl := None; targetId := None; speed := None;
         handVisible := Some false; metadata := None |} ->
  c + 0.5 <= hi ->
  sequenced c [a] hi.
Proof.
  intros -> Hhi.
  apply (sequenced_one _ c c (c + 0.5)); try reflexivity; try lra.
  interval_end.
Qed.

Lemma introduce_concept_emits (R : num -> Prop) (concept : jsstring)
    (position : option Position) (isExplicitVisual : bool)
    (metadata : option IntentMetadata) :
  emits R (semanticToStrokes host
             (introduce_concept concept position isExplicitVisual metadata)).
Proof.
  intros c b. unfold semanticToStrokes. cbv zeta.
  destruct (startsWith (str "[IMAGE:") concept) eqn:Eimg; cbn [negb].
  - (* an image, then the pause *)
    rewrite Bool.andb_false_r.
    unfold bind, ret, getCurrentTime, slot, fin. cbn [fst snd currentTime].
    run_slot. cbn [currentTime]. run_slot.
    eexists. eexists. eexists. split; [reflexivity|].
    split.
    + cbn [app].
      apply (sequenced_app [_] [_] c (s + sd + 0.1)).
      * apply (sequenced_one _ c s (s + 2.0)); try reflexivity; try lra.
        interval_end.
      * apply thinking_beat; [reflexivity | lra].
    + apply Forall_cons; [constant_duration 2.0|].
      apply Forall_cons; [constant_duration 0.5 | apply Forall_nil].
  - rewrite Bool.andb_true_r.
    destruct isExplicitVisual; cbn [negb].
    + (* an explicit visual that is no image: the pause alone *)
      unfold bind, ret, getCurrentTime, slot, fin. cbn [fst snd currentTime].
      run_slot.
      eexists. eexists. eexists. split; [reflexivity|].
      cbn [app]. split; [apply thinking_beat; [reflexivity | lra]|].
      apply Forall_cons; [constant_duration 0.5 | apply Forall_nil].
    + (* the text, then the pause *)
      unfold bind, ret, getCurrentTime, slot. cbn [fst snd].
      destruct (createStrokeSequenceAction_fin host R concept
                  (orDefault position 960 540) (Fin 48) medium c b)
        as (a & s & q & e & Hrun & Hst & Hdur & Hs & Hq & He & _ & _ & Htimed & _).
      rewrite Hrun. unfold fin. cbn [fst snd currentTime].
      run_slot.
      eexists. eexists. eexists. split; [reflexivity|].
      cbn [app]. split.
      * apply (sequenced_app [_] [_] c e).
        -- apply (sequenced_one _ c s (s + q)); auto; try lra.
           intros t Ht. eapply inInterval_end in Ht;
             [exact Ht | exact Hst | rewrite Hdur; discriminate
              | intros q' Hq'; rewrite Hdur in Hq'; injection Hq' as <-; lra].
        -- apply thinking_beat; [reflexivity | lra].
      * apply Forall_cons; [exact Htimed|].
        apply Forall_cons; [constant_duration 0.5 | apply Forall_nil].
Qed.

(** The interval of the [write] action of
    [createStrokeSequenceAction_fin]. *)
Lemma write_interval (a : DrawingAction) (s q e : Q) :
  startTime a = Fin s -> duration a = Fin q -> s + q <= e ->
  forall t, inInterval a t -> t < e.
Proof.
  intros Hst Hdur He t Ht.
  eapply inInterval_end in Ht;
    [ exact Ht | exact Hst | rewrite Hdur; discriminate
    | intros q' Hq'; rewrite Hdur in Hq'; injection Hq' as <-; lra ].
Qed.

Lemma explain_relation_emits (R : num -> Prop) (from to : jsstring)
    (fromPos toPos : option Position) :
  emits R (semanticToStrokes host (explain_relation from to fromPos toPos)).
Proof.
  intros c b. unfold semanticToStrokes. cbv zeta.
  unfold bind, ret, slot. cbn [fst snd].
  destruct (createStrokeSequenceAction_fin host R from
              (orDefault fromPos 500 400) (Fin 36) medium c b)
    as (a1 & s1 & q1 & e1 & Hrun1 & Hst1 & Hdur1 & Hs1 & Hq1 & He1
        & _ & _ & Htimed1 & _).
  rewrite Hrun1. unfold fin. cbn [fst snd].
  destruct (JS.abs (px (orDefault toPos 1420 400)
                    - px (orDefault fromPos 500 400)) >? Fin 400)%js.
  - (* with a camera move *)
    unfold bind, ret. cbn [fst snd].
    run_slot. run_slot.
    destruct (createArrowStrokes_timing (orDefault fromPos 500 400)
                (orDefault toPos 1420 400) (Fin s0))
      as (Hast & Hadur & Hatype & _).
    match goal with
    | |- context [createStrokeSequenceAction host to ?p ?f ?sp
                    (mkTimeline (Fin ?c2) (Fin ?b2))] =>
        destruct (createStrokeSequenceAction_fin host R to p f sp c2 b2)
          as (a2 & s2 & q2 & e2 & Hrun2 & Hst2 & Hdur2 & Hs2 & Hq2 & He2
              & _ & _ & Htimed2 & _)
    end.
    unfold fin in Hrun2. rewrite Hrun2. cbn [fst snd].
    eexists. eexists. eexists. split; [reflexivity|].
    cbn [app]. split.
    + assert (Hmax : c <= Qmax e1 b /\ e1 <= Qmax e1 b)
        by (split; [pose proof (Q.le_max_l e1 b); lra | apply Q.le_max_l]).
      apply (sequenced_app [_] [_; _; _] c e1).
      { apply (sequenced_one _ c s1 (s1 + q1)); auto; try lra.
        apply (write_interval a1 s1 q1); auto; lra. }
      apply (sequenced_app [_] [_; _] e1 (s + sd + 0.1)).
      { apply (sequenced_one _ e1 s (s + 1.2)); try reflexivity; try lra.
        interval_end. }
      apply (sequenced_app [_] [_] (s + sd + 0.1) (s0 + sd0 + 0.1)).
      { apply (sequenced_one _ _ s0 (s0 + (0.8 + 0.7))); auto; try lra.
        apply (write_interval _ s0 (0.8 + 0.7)); auto; lra. }
      apply (sequenced_one _ _ s2 (s2 + q2)); auto; try lra.
      apply (write_interval a2 s2 q2); auto; lra.
    + apply Forall_cons; [exact Htimed1|].
      apply Forall_cons; [constant_duration 1.2|].
      apply Forall_cons.
      { unfold timed. rewrite Hatype, Hadur. left.
        exists (0.8 + 0.7). split; [reflexivity | lra]. }
      apply Forall_cons; [exact Htimed2 | apply Forall_nil].
  - (* without *)
    unfold ret. cbn [fst snd].
    run_slot.
    destruct (createArrowStrokes_timing (orDefault fromPos 500 400)
                (orDefault toPos 1420 400) (Fin s))
      as (Hast & Hadur & Hatype & _).
    match goal with
    | |- context [createStrokeSequenceAction host to ?p ?f ?sp
                    (mkTimeline (Fin ?c2) (Fin ?b2))] =>
        destruct (createStrokeSequenceAction_fin host R to p f sp c2 b2)
          as (a2 & s2 & q2 & e2 & Hrun2 & Hst2 & Hdur2 & Hs2 & Hq2 & He2
              & _ & _ & Htimed2 & _)
    end.
    unfold fin in Hrun2. rewrite Hrun2. cbn [fst snd].
    eexists. eexists. eexists. split; [reflexivity|].
    cbn [app]. split.
    + apply (sequenced_app [_] [_; _] c e1).
      { apply (sequenced_one _ c s1 (s1 + q1)); auto; try lra.
        apply (write_interval a1 s1 q1); auto; lra. }
      apply (sequenced_app [_] [_] e1 (s + sd + 0.1)).
      { apply (sequenced_one _ _ s (s + (0.8 + 0.7))); auto; try lra.
        apply (write_interval _ s (0.8 + 0.7)); auto; lra. }
      apply (sequenced_one _ _ s2 (s2 + q2)); auto; try lra.
      apply (write_interval a2 s2 q2); auto; lra.
    + apply Forall_cons; [exact Htimed1|].
      apply Forall_cons.
      { unfold timed. rewrite Hatype, Hadur. left.
        exists (0.8 + 0.7). split; [reflexivity | lra]. }
      apply Forall_cons; [exact Htimed2 | apply Forall_nil].
Qed.

Lemma emphasize_emits (R : num -> Prop) (target : jsstring)
    (method : EmphasisMethod) :
  emits R (semanticToStrokes host (emphasize target method)).
Proof.
  intros c b. unfold semanticToStrokes, bind, ret, slot, fin. cbn [fst snd].
  run_slot.
  destruct (createEmphasisAction_timing target method (Fin s))
    as (Hst & (q & Hdur & Hq) & Htype & _).
  eexists. eexists. eexists. split; [reflexivity|]. split.
  - apply (sequenced_one _ c s (s + q)); auto; try lra.
    apply (write_interval _ s q); auto; lra.
  - apply Forall_cons; [|apply Forall_nil].
    unfold timed.
    destruct (type (createEmphasisAction target method (Fin s)));
      try congruence; left; exists q; (split; [exact Hdur | lra]).
Qed.

Lemma pause_for_thinking_emits (R : num -> Prop) (d : num) :
  (forall d, R d -> d <> PInf) ->
  pauseOk R (pause_for_thinking d) ->
  emits R (semanticToStrokes host (pause_for_thinking d)).
Proof.
  intros HR Hok c b. unfold semanticToStrokes, bind, ret, slot, fin.
  cbn [fst snd].
  run_slot.
  eexists. eexists. eexists. split; [reflexivity|]. split.
  - apply (sequenced_one _ c s (s + sd)); try reflexivity; try lra.
    intros t Ht. eapply inInterval_end in Ht; [exact Ht | reflexivity | | ].
    + cbn [duration]. destruct Hok as [(q & -> & _) | Hok];
        [discriminate | apply HR; exact Hok].
    + cbn [duration]. intros q Hq. destruct (Hfin q Hq) as [_ Hle]. lra.
  - apply Forall_cons; [|apply Forall_nil].
    unfold timed. cbn [type duration]. exact Hok.
Qed.

(** Every intent emits sequenced, timed actions, provided a
    [pause_for_thinking] does not last [Infinity]. *)
Lemma semanticToStrokes_emits (R : num -> Prop) (sem : SemanticAction) :
  (forall d, R d -> d <> PInf) ->
  pauseOk R sem ->
  emits R (semanticToStrokes host sem).
Proof.
  intros HR Hok. destruct sem.
  - apply introduce_concept_emits.
  - apply explain_relation_emits.
  - apply emphasize_emits.
  - apply pause_for_thinking_emits; assumption.
  - intros c b. exists c, b, []. simpl. repeat apply conj; auto. lra.
Qed.

Lemma emits_nil (R : num -> Prop) : emits R (ret []).
Proof.
  intros c b. exists c, b, []. simpl. repeat apply conj; auto. lra.
Qed.

(** Sequencing two computations concatenates what they emit. *)
Lemma emits_app (R : num -> Prop) (m1 m2 : TL (list DrawingAction)) :
  emits R m1 -> emits R m2 ->
  emits R (actions <- m1 ;; more <- m2 ;; ret (actions ++ more)).
Proof.
  intros H1 H2 c b.
  destruct (H1 c b) as (c1 & b1 & acts1 & Hrun1 & Hseq1 & Hall1).
  destruct (H2 c1 b1) as (c2 & b2 & acts2 & Hrun2 & Hseq2 & Hall2).
  exists c2, b2, (acts1 ++ acts2).
  unfold bind, ret. rewrite Hrun1. cbn [fst snd]. rewrite Hrun2. cbn [fst snd].
  repeat apply conj; auto.
  - apply (sequenced_app acts1 acts2 c c1 c2); assumption.
  - apply Forall_app. split; assumption.
Qed.

Lemma semanticsToStrokes_emits (R : num -> Prop) (sems : list SemanticAction) :
  (forall d, R d -> d <> PInf) ->
  Forall (pauseOk R) sems ->
  emits R (semanticsToStrokes host sems).
Proof.
  intros HR. induction 1 as [|sem rest Hok _ IH]; simpl.
  - apply emits_nil.
  - apply emits_app; [apply semanticToStrokes_emits; assumption | exact IH].
Qed.

End Intents.

(** ** Scene compiler: a slide *)

Lemma blank_dec (t : jsstring) : {blank t} + {~ blank t}.
Proof. apply Forall_dec. intros c. apply N.eq_dec. Qed.

Lemma run_pair {A : Type} (m : TL A) (tl : Timeline) :
  m tl = (fst (m tl), snd (m tl)).
Proof. destruct (m tl); reflexivity. Qed.

Section Slides.

Context (host : Host).

Lemma semanticsToStrokes_app (xs ys : list SemanticAction) (tl : Timeline) :
  semanticsToStrokes host (xs ++ ys) tl
  = (actions <- semanticsToStrokes host xs ;;
     more <- semanticsToStrokes host ys ;;
     ret (actions ++ more)) tl.
Proof.
  revert tl. induction xs as [|x rest IH]; intros tl.
  - simpl. unfold bind, ret. cbn [fst snd app]. apply run_pair.
  - simpl. unfold bind, ret. cbn [fst snd].
    rewrite IH. unfold bind, ret. cbn [fst snd].
    rewrite app_assoc. reflexivity.
Qed.

(** The two nested loops of a slide compile the concatenation of the
    intents of its items. *)
Lemma contentToStrokes_flat (items : list ContentItem) (tl : Timeline) :
  contentToStrokes host items tl
  = semanticsToStrokes host (flat_map contentItemToSemantic items) tl.
Proof.
  revert tl. induction items as [|item rest IH]; intros tl.
  - reflexivity.
  - simpl. rewrite semanticsToStrokes_app.
    unfold bind, ret. cbn [fst snd]. rewrite IH. reflexivity.
Qed.

Lemma contentItemToSemantic_ok (item : ContentItem) :
  Forall (pauseOk noOther) (contentItemToSemantic item).
Proof.
  assert (Hbeat : pauseOk noOther (pause_for_thinking (Fin 0.8))).
  { left. exists 0.8. split; [reflexivity | lra]. }
  unfold contentItemToSemantic.
  destruct (item_type item);
    try (destruct (nonEmpty (item_imageUrl item)));
    repeat (apply Forall_cons; [exact I || exact Hbeat|]); apply Forall_nil.
Qed.

Lemma slideIntents_ok (n : nat) (slide : Slide) :
  Forall (pauseOk noOther) (slideIntents n slide).
Proof.
  unfold slideIntents.
  destruct (slide_content slide) as [[|item rest]|].
  - apply Forall_cons; [exact I | apply Forall_nil].
  - apply Forall_flat_map. apply Forall_forall. intros x _.
    apply contentItemToSemantic_ok.
  - apply Forall_cons; [exact I | apply Forall_nil].
Qed.

Lemma noOther_finite : forall d, noOther d -> d <> PInf.
Proof. intros d []. Qed.

(** The actions of a scene are those of the intents of its slide, or
    the placeholder when these emit nothing. *)
Lemma convertSlide_actions (n : nat) (slide : Slide) :
  actions (convertSlide host n slide)
  = match fst (semanticsToStrokes host (slideIntents n slide) reset) with
    | [] =>
        [fst (createStrokeSequenceAction host (str "Loading...")
                (mkPosition (Fin 960) (Fin 540)) (Fin 48) medium
                (snd (semanticsToStrokes host (slideIntents n slide) reset)))]
    | acts => acts
    end.
Proof.
  unfold convertSlide, slideIntents. cbn [actions].
  destruct (slide_content slide) as [[|item rest]|].
  - unfold bind. cbn [semanticsToStrokes fst snd]. unfold bind, ret.
    cbn [fst snd]. rewrite app_nil_r.
    destruct (fst (semanticToStrokes host _ reset)); reflexivity.
  - unfold bind. rewrite contentToStrokes_flat.
    destruct (fst (semanticsToStrokes host _ reset)); reflexivity.
  - unfold bind. cbn [semanticsToStrokes fst snd]. unfold bind, ret.
    cbn [fst snd]. rewrite app_nil_r.
    destruct (fst (semanticToStrokes host _ reset)); reflexivity.
Qed.

Lemma convertSlide_totalDuration (n : nat) (slide : Slide) :
  totalDuration (convertSlide host n slide)
  = match last (map Some (actions (convertSlide host n slide))) None with
    | Some lastAction => sceneDuration lastAction (slide_duration slide)
    | None => slide_duration slide
    end.
Proof. reflexivity. Qed.

(** The actions of a compiled scene: at least one, sequenced from time
    zero, with timed durations. *)
Lemma convertSlide_emits (n : nat) (slide : Slide) :
  exists hi : Q,
    sequenced 0 (actions (convertSlide host n slide)) hi
    /\ Forall (timed noOther) (actions (convertSlide host n slide))
    /\ actions (convertSlide host n slide) <> [].
Proof.
  rewrite convertSlide_actions.
  destruct (semanticsToStrokes_emits host noOther (slideIntents n slide)
              noOther_finite (slideIntents_ok n slide) 0 0)
    as (c' & b' & acts & Hrun & Hseq & Hall).
  change (fin 0 0) with reset in Hrun. rewrite Hrun. cbn [fst snd].
  destruct acts as [|a rest].
  - destruct (createStrokeSequenceAction_fin host noOther (str "Loading...")
                (mkPosition (Fin 960) (Fin 540)) (Fin 48) medium c' b')
      as (a & s & q & e & Hrun' & Hst & Hdur & Hs & Hq & He & _ & _ & Htimed & _).
    rewrite Hrun'. cbn [fst]. simpl in Hseq.
    exists e. repeat apply conj.
    + apply (sequenced_one _ 0 s (s + q)); auto; try lra.
      apply (write_interval a s q); auto; lra.
    + apply Forall_cons; [exact Htimed | apply Forall_nil].
    + discriminate.
  - exists c'. repeat apply conj; auto. discriminate.
Qed.

Lemma convertFrom_app (slides : list Slide) :
  forall scenes,
    exists more,
      convertFrom host scenes slides = scenes ++ more
      /\ List.length more = List.length slides
      /\ forall k slide,
           nth_error slides k = Some slide ->
           nth_error more k
           = Some (convertSlide host (List.length scenes + k) slide).
Proof.
  induction slides as [|slide rest IH]; intros scenes; simpl.
  - exists []. rewrite app_nil_r. repeat apply conj; auto.
    intros [|k] s H; discriminate.
  - destruct (IH (scenes ++ [convertSlide host (List.length scenes) slide]))
      as (more & Heq & Hlen & Hnth).
    exists (convertSlide host (List.length scenes) slide :: more).
    repeat apply conj.
    + rewrite Heq, <- app_assoc. reflexivity.
    + simpl. rewrite Hlen. reflexivity.
    + intros [|k] s H; simpl in *.
      * injection H as <-. rewrite Nat.add_0_r. reflexivity.
      * rewrite (Hnth k s H). rewrite length_app. simpl.
        do 2 f_equal. lia.
Qed.

(** The scene at place [k] of the result is the one of the slide at
    place [k]. *)
Lemma convertSlides_nth (slides : list Slide) (topic : jsstring) (k : nat)
    (slide : Slide) :
  nth_error slides k = Some slide ->
  nth_error (convertSlidesToWhiteboardScenes host slides topic) k
  = Some (convertSlide host k slide).
Proof.
  intros H. unfold convertSlidesToWhiteboardScenes.
  destruct (convertFrom_app slides []) as (more & -> & _ & Hnth).
  simpl. apply (Hnth k slide H).
Qed.

(** Every scene of the result is the scene of one of the slides. *)
Lemma convertSlides_in (slides : list Slide) (topic : jsstring)
    (scene : WhiteboardScene) :
  In scene (convertSlidesToWhiteboardScenes host slides topic) ->
  exists k slide, scene = convertSlide host k slide.
Proof.
  unfold convertSlidesToWhiteboardScenes. intros Hin.
  destruct (convertFrom_app slides []) as (more & Heq & Hlen & Hnth).
  rewrite Heq in Hin. simpl in Hin.
  apply In_nth_error in Hin. destruct Hin as (k & Hk).
  assert (Hlt : (k < List.length slides)%nat).
  { rewrite <- Hlen. apply nth_error_Some. congruence. }
  destruct (nth_error slides k) as [slide|] eqn:Hs.
  - exists k, slide. rewrite (Hnth k slide Hs) in Hk. simpl in Hk. congruence.
  - apply nth_error_None in Hs. lia.
Qed.

End Slides.

(** ** Scene compiler: the compiled scenes *)

Lemma orElse_number (a : num) (q : Q) : JS.orElse a (Fin q) <> NaN.
Proof.
  unfold JS.orElse. destruct a; simpl; try discriminate.
  destruct (negb (Qeq_bool q0 0)); discriminate.
Qed.

Lemma max_half_positive (a : num) :
  a <> NaN -> (Fin 0 <? JS.max (Fin 0.5) a)%js = true.
Proof.
  destruct a as [q| | |]; simpl; intros H; try reflexivity; try congruence.
  destruct (Qle_bool 0.5 q) eqn:E; simpl; qbool; lra.
Qed.

(** The total duration of a scene is positive, whatever its last
    action and the nominal duration of the slide. *)
Lemma sceneDuration_positive (lastAction : DrawingAction)
    (slideDuration : num) :
  (Fin 0 <? sceneDuration lastAction slideDuration)%js = true.
Proof.
  unfold sceneDuration. apply max_half_positive.
  pose proof (orElse_number slideDuration 5) as Hn.
  destruct (JS.isNaN _ || negb (JS.isFinite _)) eqn:E; [exact Hn|].
  destruct (JS.orElse (startTime lastAction) (Fin 0)
            + JS.orElse (duration lastAction) (Fin 0))%js as [e| | |];
    try discriminate.
  destruct (JS.orElse slideDuration (Fin 5)) as [q| | |];
    simpl; try discriminate; try congruence.
  destruct (Qle_bool e q); discriminate.
Qed.

Section Scenes.

Context (host : Host).

(** Any two actions at different places of the actions compiled from a
    list of intents on a fresh timeline have disjoint intervals, camera
    moves included, provided no [pause_for_thinking] lasts [Infinity]. *)
Lemma intents_disjoint (sems : list SemanticAction) :
  Forall (pauseOk (fun d => d <> PInf)) sems ->
  forall i j a b,
    i <> j ->
    nth_error (fst (semanticsToStrokes host sems reset)) i = Some a ->
    nth_error (fst (semanticsToStrokes host sems reset)) j = Some b ->
    disjointIntervals a b.
Proof.
  intros Hok.
  destruct (semanticsToStrokes_emits host (fun d => d <> PInf) sems
              (fun d H => H) Hok 0 0)
    as (c' & b' & acts & Hrun & Hseq & _).
  change (fin 0 0) with reset in Hrun. rewrite Hrun. cbn [fst].
  apply (sequenced_disjoint acts 0 c' Hseq).
Qed.

(** C1.  In every scene compiled from slides, two distinct actions of
    the action list, neither requiring a camera move, have disjoint
    intervals [[startTime, startTime + duration)]. *)
Theorem compiled_scene_intervals_disjoint :
  forall (slides : list Slide) (topic : jsstring) (scene : WhiteboardScene)
         (i j : nat) (a b : DrawingAction),
    In scene (convertSlidesToWhiteboardScenes host slides topic) ->
    i <> j ->
    nth_error (actions scene) i = Some a ->
    nth_error (actions scene) j = Some b ->
    requiresCameraMove a = false ->
    requiresCameraMove b = false ->
    disjointIntervals a b.
Proof.
  intros slides topic scene i j a b Hin Hij Ha Hb _ _.
  destruct (convertSlides_in host slides topic scene Hin) as (k & slide & ->).
  destruct (convertSlide_emits host k slide) as (hi & Hseq & _ & _).
  apply (sequenced_disjoint _ 0 hi Hseq i j a b Hij Ha Hb).
Qed.

(** A sum of durations that has left the finite numbers does not come
    back to them. *)
Lemma sum_not_finite (ss : list Stroke) :
  forall acc : num,
    JS.isFinite acc = false ->
    JS.isFinite
      (fold_left (fun sum stroke => (sum + stroke_duration stroke)%js) ss acc)
    = false.
Proof.
  induction ss as [|s rest IH]; intros acc H; [exact H|].
  cbn [fold_left]. apply IH.
  destruct acc, (stroke_duration s); try discriminate H; reflexivity.
Qed.

(** A finite result of the reduce over the strokes: every duration is
    a finite number, and the result is their sum in the rationals. *)
Lemma sum_exact (ss : list Stroke) :
  forall acc q : Q,
    fold_left (fun sum stroke => (sum + stroke_duration stroke)%js) ss
              (Fin acc)
    = Fin q ->
    exists ds : list Q,
      map stroke_duration ss = map Fin ds
      /\ q == acc + fold_right Qplus 0 ds.
Proof.
  induction ss as [|s rest IH]; intros acc q H.
  - injection H as <-. exists []. split; [reflexivity|]. simpl. ring.
  - cbn [fold_left] in H.
    destruct (stroke_duration s) as [d| | |] eqn:Hd.
    + change ((Fin acc + Fin d)%js) with (Fin (acc + d)) in H.
      destruct (IH _ _ H) as (ds & Hm & Hq).
      exists (d :: ds). split.
      * cbn [map]. rewrite Hd, Hm. reflexivity.
      * cbn [fold_right]. rewrite Hq. ring.
    + pose proof (sum_not_finite rest (Fin acc + PInf)%js eq_refl) as Hn.
      rewrite H in Hn. discriminate Hn.
    + pose proof (sum_not_finite rest (Fin acc + NInf)%js eq_refl) as Hn.
      rewrite H in Hn. discriminate Hn.
    + pose proof (sum_not_finite rest (Fin acc + NaN)%js eq_refl) as Hn.
      rewrite H in Hn. discriminate Hn.
Qed.

(** C5.  Every [write] action of a compiled scene stores its strokes in
    its metadata; each stroke has a finite duration, and the sum of
    these durations, taken in the rationals, is the duration of the
    action (exactly, in exact arithmetic). *)
Theorem write_duration_is_stroke_sum :
  forall (slides : list Slide) (topic : jsstring) (scene : WhiteboardScene)
         (a : DrawingAction),
    In scene (convertSlidesToWhiteboardScenes host slides topic) ->
    In a (actions scene) ->
    type a = write ->
    exists (m : Metadata) (ss : list Stroke) (ds : list Q) (q : Q),
      metadata a = Some m /\ strokes m = Some ss
      /\ map stroke_duration ss = map Fin ds
      /\ duration a = Fin q
      /\ q == fold_right Qplus 0 ds.
Proof.
  intros slides topic scene a Hin Ha Hw.
  destruct (convertSlides_in host slides topic scene Hin) as (k & slide & ->).
  destruct (convertSlide_emits host k slide) as (hi & _ & Hall & _).
  rewrite Forall_forall in Hall. specialize (Hall a Ha).
  unfold timed in Hall. rewrite Hw in Hall.
  destruct Hall as (txt & m & ss & q & _ & Hm & Hss & Hsum & Hq & _).
  rewrite Hq in Hsum. symmetry in Hsum. unfold sumDurations in Hsum.
  destruct (sum_exact ss 0 q Hsum) as (ds & Hds & Heq).
  exists m, ss, ds, q. repeat apply conj; auto.
  rewrite Heq. ring.
Qed.

(** C6 (as the code has it).  Every action of a compiled scene has a
    finite start time, at least zero, and a finite duration, at least
    zero; the duration is positive except for a [write] action whose
    text is blank (empty or spaces only), which has no stroke and lasts
    zero.  The clamp to a positive minimum is the one of the slot the
    timeline reserves: at least [0.1] for every duration asked for. *)
Theorem compiled_action_timing :
  forall (slides : list Slide) (topic : jsstring) (scene : WhiteboardScene)
         (a : DrawingAction),
    In scene (convertSlidesToWhiteboardScenes host slides topic) ->
    In a (actions scene) ->
    (exists s q : Q,
        startTime a = Fin s /\ duration a = Fin q
        /\ 0 <= s /\ 0 <= q
        /\ (q == 0 ->
            type a = write /\ exists txt, text a = Some txt /\ blank txt))
    /\ (forall d : num, exists sd : Q, safeDuration d = Fin sd /\ 0.1 <= sd).
Proof.
  intros slides topic scene a Hin Ha.
  split.
  - destruct (convertSlides_in host slides topic scene Hin) as (k & slide & ->).
    destruct (convertSlide_emits host k slide) as (hi & Hseq & Hall & _).
    apply sequenced_starts in Hseq.
    rewrite Forall_forall in Hall, Hseq.
    destruct (Hseq a Ha) as (s & Hs & Hs0).
    specialize (Hall a Ha). unfold timed in Hall.
    destruct (type a) eqn:Ht;
      try (destruct Hall as [(q & Hq & Hq0) | []];
           exists s, q; repeat apply conj; auto; try lra;
           intros Hz; lra).
    destruct Hall as (txt & m & ss & q & Htxt & _ & _ & _ & Hq & Hq0 & _ & Hnb).
    exists s, q. repeat apply conj; auto.
    intros Hz. split; [reflexivity|].
    exists txt. split; [exact Htxt|].
    destruct (blank_dec txt) as [Hb | Hb]; [exact Hb|].
    specialize (Hnb Hb). lra.
  - intros d. destruct (safeDuration_cases d) as (sd & Hsd & Hpos & _).
    exists sd. auto.
Qed.

(** C9.  A slide whose content items give no intent at all compiles to
    a scene with exactly one action, the placeholder [write] action of
    the text [Loading...], and the scene lasts more than zero. *)
Theorem empty_intents_placeholder :
  forall (slides : list Slide) (topic : jsstring) (k : nat) (slide : Slide),
    nth_error slides k = Some slide ->
    slideIntents k slide = [] ->
    exists (scene : WhiteboardScene) (a : DrawingAction),
      nth_error (convertSlidesToWhiteboardScenes host slides topic) k = Some scene
      /\ actions scene = [a]
      /\ type a = write
      /\ text a = Some (str "Loading...")
      /\ (Fin 0 <? totalDuration scene)%js = true.
Proof.
  intros slides topic k slide Hk Hnil.
  exists (convertSlide host k slide).
  pose proof (convertSlide_actions host k slide) as Hacts.
  rewrite Hnil in Hacts. cbn [semanticsToStrokes ret fst snd] in Hacts.
  destruct (createStrokeSequenceAction_fin host noOther (str "Loading...")
              (mkPosition (Fin 960) (Fin 540)) (Fin 48) medium 0 0)
    as (a & s & q & e & Hrun & _ & _ & _ & _ & _ & Htype & Htext & _).
  change (fin 0 0) with reset in Hrun. rewrite Hrun in Hacts. cbn [fst] in Hacts.
  exists a. repeat apply conj; auto.
  - apply convertSlides_nth. exact Hk.
  - rewrite convertSlide_totalDuration, Hacts. cbn [map last].
    apply sceneDuration_positive.
Qed.

End Scenes.

(** ** The reference host *)

Lemma refSqrt_exact (q : Q) :
  q == 10000 -> (Math_sqrt refHost (Fin q) =~ Fin 100)%js.
Proof.
  intros Hq. simpl.
  assert (Hle : Qle_bool 0 q = true) by (qbool; lra).
  rewrite Hle. simpl.
  rewrite (Qfloor_comp q 10000 Hq). reflexivity.
Qed.

Lemma qAtan_zero (z : Q) : z == 0 -> qAtan z == 0.
Proof.
  intros Hz. unfold qAtan.
  assert (Hle : Qle_bool (Qabs z) 1 = true).
  { qbool. rewrite Hz. simpl. lra. }
  rewrite Hle, Hz. reflexivity.
Qed.

Lemma refAtan2_axis (y x : Q) :
  y == 0 -> x == 100 -> (Math_atan2 refHost (Fin y) (Fin x) =~ Fin 0)%js.
Proof.
  intros Hy Hx. simpl.
  assert (Hlt : JS.Qltb 0 x = true) by (qbool; lra).
  rewrite Hlt. simpl. apply qAtan_zero. rewrite Hy, Hx. reflexivity.
Qed.

Lemma refCos_zero (q : Q) : q == 0 -> (Math_cos refHost (Fin q) =~ Fin 1)%js.
Proof. intros Hq. simpl. rewrite Hq. reflexivity. Qed.

Lemma refSin_zero (q : Q) : q == 0 -> (Math_sin refHost (Fin q) =~ Fin 0)%js.
Proof. intros Hq. simpl. rewrite Hq. reflexivity. Qed.

(** ** Runs on the reference host *)

(** The heading [Hi]: five strokes written from 0.3 for 0.52 seconds,
    the thinking beat, then the pause that follows a heading. *)
Example demo_scene_timings :
  map type (actions demoScene) = [write; pause; pause]
  /\ sameTiming (demoAction 0) 0.3 0.52 = true
  /\ sameTiming (demoAction 1) 0.92 0.5 = true
  /\ sameTiming (demoAction 2) 1.52 0.8 = true
  /\ JS.eqb (totalDuration demoScene) (Fin 5) = true.
Proof. vm_compute. repeat split. Qed.

(** A slide without content items is given an intent made from its
    narration: its scene has the text and the thinking beat. *)
Example empty_content_scene :
  map type (actions (convertSlide refHost 0 emptySlide)) = [write; pause]
  /\ map text (actions (convertSlide refHost 0 emptySlide))
     = [Some (str "Hey"); None].
Proof. vm_compute. split; reflexivity. Qed.

(** A blank text is written in no time. *)
Example blank_scene_timings :
  map type (actions (convertSlide refHost 0 blankSlide)) = [write; pause]
  /\ sameTiming (nth 0 (actions (convertSlide refHost 0 blankSlide))
                    (bareAction pause (Fin 0) (Fin 0))) 0.3 0 = true.
Proof. vm_compute. split; reflexivity. Qed.

(** The dotless i is drawn with the strokes of [I]. *)
Example dotless_i_strokes :
  lookup 305%N = None
  /\ getCharacterPath refHost 305%N (Fin 0) (Fin 0) (Fin 1)
     = getCharacterPath refHost (cp "I") (Fin 0) (Fin 0) (Fin 1)
  /\ List.length (getCharacterPath refHost 305%N (Fin 0) (Fin 0) (Fin 1)) = 3%nat.
Proof. vm_compute. repeat split. Qed.

(** Outside the times the theorems on progress range over: at a
    [NaN] time both comparisons fail and the progress is [NaN]. *)
Example progress_at_NaN :
  currentProgress (getActionState refHost plainArrow NaN (Fin 0)) = NaN
  /\ isComplete (getActionState refHost plainArrow NaN (Fin 0)) = false.
Proof. split; reflexivity. Qed.

(** ** The theorems at concrete inputs *)

(** The heading [Hi] on the reference host: its [write] action and the
    pause after it do not overlap. *)
Lemma compiled_scene_intervals_disjoint_witness :
  nth_error (actions demoScene) 0 = Some (demoAction 0)
  /\ nth_error (actions demoScene) 1 = Some (demoAction 1)
  /\ disjointIntervals (demoAction 0) (demoAction 1).
Proof.
  split; [reflexivity|]. split; [reflexivity|].
  apply (compiled_scene_intervals_disjoint refHost [demoSlide] (str "Demo")
           demoScene 0 1).
  - left. reflexivity.
  - discriminate.
  - reflexivity.
  - reflexivity.
  - reflexivity.
  - reflexivity.
Defined.

(** [plainArrow] starts at 2 and lasts 4: at time 3 it is a quarter
    done. *)
Lemma getActionState_progress_witness :
  (Fin 0 <? duration plainArrow)%js = true
  /\ currentProgress (getActionState refHost plainArrow (Fin 3) (Fin 0))
     = Fin ((3 - (0 + 2)) / 4).
Proof.
  split; [reflexivity|].
  destruct (getActionState_progress refHost plainArrow 2 3 0 eq_refl eq_refl)
    as (_ & _ & _ & H & _).
  apply (H 4 eq_refl). split; [discriminate | reflexivity].
Defined.

Lemma getActionState_monotone_witness :
  3 <= 5
  /\ (currentProgress (getActionState refHost plainArrow (Fin 3) (Fin 0))
      <=? currentProgress (getActionState refHost plainArrow (Fin 5) (Fin 0)))%js
     = true.
Proof.
  split; [discriminate|].
  apply (getActionState_monotone refHost plainArrow 2 3 5 0 eq_refl eq_refl).
  discriminate.
Defined.

Lemma write_duration_is_stroke_sum_witness :
  type (demoAction 0) = write
  /\ exists (m : Metadata) (ss : list Stroke) (ds : list Q) (q : Q),
       metadata (demoAction 0) = Some m /\ strokes m = Some ss
       /\ map stroke_duration ss = map Fin ds
       /\ duration (demoAction 0) = Fin q
       /\ q == fold_right Qplus 0 ds.
Proof.
  split; [reflexivity|].
  apply (write_duration_is_stroke_sum refHost [demoSlide] (str "Demo")
           demoScene).
  - left. reflexivity.
  - left. reflexivity.
  - reflexivity.
Defined.

Lemma compiled_action_timing_witness :
  (exists s q : Q,
      startTime (demoAction 0) = Fin s /\ duration (demoAction 0) = Fin q
      /\ 0 <= s /\ 0 <= q
      /\ (q == 0 ->
          type (demoAction 0) = write
          /\ exists txt, text (demoAction 0) = Some txt /\ blank txt))
  /\ (forall d : num, exists sd : Q, safeDuration d = Fin sd /\ 0.1 <= sd).
Proof.
  apply (compiled_action_timing refHost [demoSlide] (str "Demo") demoScene).
  - left. reflexivity.
  - left. reflexivity.
Defined.

Lemma empty_intents_placeholder_witness :
  slideIntents 0 unknownSlide = []
  /\ exists (scene : WhiteboardScene) (a : DrawingAction),
       nth_error (convertSlidesToWhiteboardScenes refHost [unknownSlide] (str "Demo")) 0
       = Some scene
       /\ actions scene = [a]
       /\ type a = write
       /\ text a = Some (str "Loading...")
       /\ (Fin 0 <? totalDuration scene)%js = true.
Proof.
  split; [reflexivity|].
  apply (empty_intents_placeholder refHost [unknownSlide] (str "Demo") 0
           unknownSlide);
    reflexivity.
Defined.

Lemma getActionState_arrow_midpoint_witness :
  let r := getActionState refHost plainArrow (Fin 4) (Fin 0) in
  (currentProgress r =~ Fin 0.5)%js
  /\ exists (pos : Position) (angle : num),
       handPosition r = Some pos /\ handAngle r = Some angle
       /\ (px pos =~ Fin 50)%js /\ (py pos =~ Fin 0)%js
       /\ (angle =~ Fin 0)%js.
Proof.
  apply (getActionState_arrow_midpoint refHost plainArrow 2 4 0 4).
  - exact refSqrt_exact.
  - exact refAtan2_axis.
  - exact refCos_zero.
  - exact refSin_zero.
  - reflexivity.
  - reflexivity.
  - reflexivity.
  - reflexivity.
  - reflexivity.
  - reflexivity.
  - discriminate.
  - intros p H. discriminate.
  - reflexivity.
Defined.

(** C6 as stated fails: the scene of a slide whose text item is a
    single space starts with a [write] action of duration zero. *)
Lemma duration_positive_counterexample :
  ~ (forall (slides : list Slide) (topic : jsstring) (scene : WhiteboardScene)
            (a : DrawingAction),
        In scene (convertSlidesToWhiteboardScenes refHost slides topic) ->
        In a (actions scene) ->
        (startTime a >=? Fin 0)%js = true /\ (duration a >? Fin 0)%js = true).
Proof.
  intros H.
  destruct (H [blankSlide] (str "Demo") (convertSlide refHost 0 blankSlide)
              (nth 0 (actions (convertSlide refHost 0 blankSlide))
                   (bareAction pause (Fin 0) (Fin 0))))
    as [_ Hd].
  - left. reflexivity.
  - left. reflexivity.
  - vm_compute in Hd. discriminate.
Qed.

(** * Further properties of the code *)

(** ** Positions *)

(** [parsePosition] of a coordinate that asks for a place on the
    board, with a default on the board: a number is kept, a percentage
    is taken of the bound, anything else gives the default. *)
Lemma parsePosition_inside (value : StyleValue) (bound defaultValue : Q) :
  coordinateInside bound value ->
  0 <= defaultValue <= bound ->
  exists q : Q,
    parsePosition value (Fin bound) (Fin defaultValue) = Fin q
    /\ 0 <= q <= bound.
Proof.
  intros Hv Hd.
  destruct value as [|[n| | |]|[percent| | |]|]; simpl in *;
    try (exists defaultValue; split; [reflexivity | exact Hd]).
  - exists n. split; [reflexivity | exact Hv].
  - exists (percent / 100 * bound). split; [reflexivity|].
    assert (Hr : percent / 100 == percent * 0.01) by field.
    rewrite Hr. nra.
Qed.

Lemma itemPosition_onBoard (item : ContentItem) :
  styledInside item -> onBoard (itemPosition item).
Proof.
  unfold styledInside, itemPosition, onBoard. intros H.
  assert (Hx : coordinateInside 1920
                 (style_x match item_style item with
                          | Some s => s | None => emptyStyle end)).
  { destruct (item_style item); [apply H | exact I]. }
  assert (Hy : coordinateInside 1080
                 (style_y match item_style item with
                          | Some s => s | None => emptyStyle end)).
  { destruct (item_style item); [apply H | exact I]. }
  destruct (parsePosition_inside _ 1920 960 Hx) as (x & -> & Hbx); [lra|].
  destruct (parsePosition_inside _ 1080 540 Hy) as (y & -> & Hby); [lra|].
  exists x, y. auto.
Qed.

Lemma orDefault_onBoard (p : option Position) (x y : Q) :
  0 <= x <= 1920 -> 0 <= y <= 1080 ->
  match p with Some p => onBoard p | None => True end ->
  onBoard (orDefault p x y).
Proof.
  intros Hx Hy. destruct p as [p|]; simpl; intros H; [exact H|].
  exists x, y. auto.
Qed.

Lemma centre_onBoard : onBoard (mkPosition (Fin 960) (Fin 540)).
Proof. exists 960, 540. repeat apply conj; try reflexivity; lra. Qed.

Section Placement.

Context (host : Host).

Lemma createStrokeSequenceAction_position (txt : jsstring) (p : Position)
    (fontSize : num) (speed : DrawingSpeed) (tl : Timeline) :
  position (fst (createStrokeSequenceAction host txt p fontSize speed tl))
  = Some p.
Proof. reflexivity. Qed.

(** The actions of an intent whose positions are on the board are
    placed on the board, from any timeline: the positions the compiler
    fills in are on the board too. *)
Lemma semanticToStrokes_placed (sem : SemanticAction) (tl : Timeline) :
  placedIntent sem ->
  Forall placed (fst (semanticToStrokes host sem tl)).
Proof.
  destruct sem as [concept pos vis meta | from to fromPos toPos
                  | target method | d | to]; intros Hp.
  - assert (Hpos : onBoard (orDefault pos 960 540)).
    { apply orDefault_onBoard; [lra | lra |].
      destruct pos; [exact Hp | exact I]. }
    unfold semanticToStrokes. cbv zeta.
    destruct (startsWith (str "[IMAGE:") concept); cbn [negb].
    + rewrite Bool.andb_false_r.
      unfold bind, ret, getCurrentTime. cbn [fst snd app].
      apply Forall_cons; [exact Hpos|].
      apply Forall_cons; [exact I | apply Forall_nil].
    + rewrite Bool.andb_true_r. destruct vis; cbn [negb].
      * unfold bind, ret, getCurrentTime. cbn [fst snd app].
        apply Forall_cons; [exact I | apply Forall_nil].
      * unfold bind, ret, getCurrentTime. cbn [fst snd app].
        apply Forall_cons.
        { unfold placed. rewrite createStrokeSequenceAction_position.
          exact Hpos. }
        apply Forall_cons; [exact I | apply Forall_nil].
  - destruct Hp as [Hf Ht].
    assert (Hfrom : onBoard (orDefault fromPos 500 400))
      by (apply orDefault_onBoard; [lra | lra | exact Hf]).
    assert (Hto : onBoard (orDefault toPos 1420 400))
      by (apply orDefault_onBoard; [lra | lra | exact Ht]).
    unfold semanticToStrokes. cbv zeta.
    unfold bind at 1. unfold bind at 1.
    destruct (JS.abs (px (orDefault toPos 1420 400)
                      - px (orDefault fromPos 500 400)) >? Fin 400)%js;
      unfold bind, ret; cbn [fst snd app];
      repeat (apply Forall_cons;
              [ first [ exact I
                      | unfold placed;
                        rewrite createStrokeSequenceAction_position;
                        assumption
                      | unfold placed, createArrowStrokes, generateArrowPath;
                        exact I ] | ]);
      apply Forall_nil.
  - unfold semanticToStrokes, bind, ret. cbn [fst snd].
    apply Forall_cons; [|apply Forall_nil].
    destruct method; unfold placed; simpl; try exact I.
    apply centre_onBoard.
  - unfold semanticToStrokes, bind, ret. cbn [fst snd].
    apply Forall_cons; [exact I | apply Forall_nil].
  - apply Forall_nil.
Qed.

Lemma semanticsToStrokes_placed (sems : list SemanticAction) :
  Forall placedIntent sems ->
  forall tl, Forall placed (fst (semanticsToStrokes host sems tl)).
Proof.
  induction 1 as [|sem rest Hsem _ IH]; intros tl; simpl.
  - apply Forall_nil.
  - unfold bind, ret. cbn [fst snd].
    apply Forall_app. split; [apply semanticToStrokes_placed; exact Hsem|].
    apply IH.
Qed.

Lemma slideIntents_placed (n : nat) (slide : Slide) :
  slideInside slide ->
  Forall placedIntent (slideIntents n slide).
Proof.
  unfold slideInside, slideIntents. intros Hin.
  destruct (slide_content slide) as [[|item rest]|].
  - apply Forall_cons; [exact centre_onBoard | apply Forall_nil].
  - apply Forall_flat_map. rewrite Forall_forall in Hin.
    apply Forall_forall. intros x Hx. specialize (Hin x Hx).
    unfold contentItemToSemantic.
    destruct (item_type x);
      try (destruct (nonEmpty (item_imageUrl x)));
      repeat (apply Forall_cons;
              [first [exact I | apply itemPosition_onBoard; exact Hin]|]);
      apply Forall_nil.
  - apply Forall_cons; [exact centre_onBoard | apply Forall_nil].
Qed.

(** Every scene of the result is the scene of one of the slides, at
    its place. *)
Lemma convertSlides_in_slide (slides : list Slide) (topic : jsstring)
    (scene : WhiteboardScene) :
  In scene (convertSlidesToWhiteboardScenes host slides topic) ->
  exists k slide,
    nth_error slides k = Some slide /\ scene = convertSlide host k slide.
Proof.
  unfold convertSlidesToWhiteboardScenes. intros Hin.
  destruct (convertFrom_app host slides []) as (more & Heq & Hlen & Hnth).
  rewrite Heq in Hin. simpl in Hin.
  apply In_nth_error in Hin. destruct Hin as (k & Hk).
  assert (Hlt : (k < List.length slides)%nat).
  { rewrite <- Hlen. apply nth_error_Some. congruence. }
  destruct (nth_error slides k) as [slide|] eqn:Hs.
  - exists k, slide. split; [exact Hs|].
    rewrite (Hnth k slide Hs) in Hk. simpl in Hk. congruence.
  - apply nth_error_None in Hs. lia.
Qed.

(** X1.  When every coordinate the content items ask for is on the
    board (a number between 0 and the side of the board, a percentage
    between 0 and 100; values that are absent, [NaN], infinite or of
    another type ask for nothing), every action of a compiled scene
    that has a position is placed on the board of 1920 by 1080: item
    positions, and the positions the compiler fills in. *)
Theorem compiled_positions_on_board :
  forall (slides : list Slide) (topic : jsstring) (scene : WhiteboardScene)
         (a : DrawingAction) (p : Position),
    Forall slideInside slides ->
    In scene (convertSlidesToWhiteboardScenes host slides topic) ->
    In a (actions scene) ->
    position a = Some p ->
    exists x y : Q,
      p = mkPosition (Fin x) (Fin y) /\ 0 <= x <= 1920 /\ 0 <= y <= 1080.
Proof.
  intros slides topic scene a p Hok Hin Ha Hp.
  destruct (convertSlides_in_slide slides topic scene Hin)
    as (k & slide & Hk & ->).
  assert (Hslide : slideInside slide).
  { rewrite Forall_forall in Hok. apply Hok.
    apply (nth_error_In _ _ Hk). }
  rewrite convertSlide_actions in Ha.
  pose proof (semanticsToStrokes_placed (slideIntents k slide)
                (slideIntents_placed k slide Hslide) reset) as Hall.
  destruct (fst (semanticsToStrokes host (slideIntents k slide) reset))
    as [|a0 rest].
  - destruct Ha as [<- | []].
    rewrite createStrokeSequenceAction_position in Hp.
    injection Hp as <-. apply centre_onBoard.
  - rewrite Forall_forall in Hall. specialize (Hall a Ha).
    unfold placed in Hall. rewrite Hp in Hall. exact Hall.
Qed.

End Placement.

(** ** Timeline: what every reachable timeline satisfies *)

Lemma reachable_fin (tl : Timeline) :
  reachable tl ->
  exists c b : Q, tl = fin c b /\ 0 <= b /\ b <= c.
Proof.
  induction 1 as [|tl options _ (c & b & -> & Hb & Hbc)].
  - exists 0, 0. repeat apply conj; try reflexivity; lra.
  - destruct options as [d cam np].
    destruct (nextAvailableSlot_fin c b d cam np)
      as (s & sd & _ & Hsd & _ & _ & Hs & Hr).
    unfold fin. rewrite Hr. cbn [snd].
    assert (Hcs : c <= s).
    { pose proof (Q.le_max_l c b). destruct cam, np; lra. }
    destruct cam.
    + exists (s + sd + 0.1), (s + sd + 0.1).
      repeat apply conj; try reflexivity; lra.
    + exists (s + sd + 0.1), b.
      repeat apply conj; try reflexivity; lra.
Qed.

(** X2.  On a timeline reached from the fresh one by reservations,
    [cameraBusyUntil] is not negative and never exceeds the cursor; so
    a reservation starts at the cursor (plus [0.3] with a narration
    pause) whether it needs the camera or not: the camera never delays
    a slot. *)
Theorem camera_never_delays :
  forall tl : Timeline,
    reachable tl ->
    (Fin 0 <=? cameraBusyUntil tl)%js = true
    /\ (cameraBusyUntil tl <=? currentTime tl)%js = true
    /\ forall (d : num) (cam np : bool),
         (fst (nextAvailableSlot (mkSlot d cam np) tl)
          =~ (if np then currentTime tl + Fin 0.3 else currentTime tl))%js.
Proof.
  intros tl Hr.
  destruct (reachable_fin tl Hr) as (c & b & -> & Hb & Hbc).
  unfold fin. cbn [cameraBusyUntil currentTime JS.leb JS.add].
  repeat apply conj.
  - qbool. exact Hb.
  - qbool. exact Hbc.
  - intros d cam np.
    destruct (nextAvailableSlot_fin c b d cam np)
      as (s & sd & _ & _ & _ & _ & Hs & Hrun).
    unfold fin in Hrun. rewrite Hrun. cbn [fst]. 
    destruct np; cbn [JS.eqv]; rewrite Hs;
      destruct cam; try rewrite Q.max_l by exact Hbc; try reflexivity; ring.
Qed.

(** X3.  Two reservations in a row, on cursors and for a first duration
    of at most a million seconds (where a tenth of a second added to a
    time is not lost in a double): the second starts no earlier than
    the first start plus the clamped duration of the first plus [0.1],
    as the code adds them, hence strictly later than the first. *)
Theorem successive_slots_apart :
  forall (c b : Q) (o1 o2 : SlotOptions),
    moderate c -> moderate b ->
    (forall d : Q, slot_duration o1 = Fin d -> moderate d) ->
    let r1 := nextAvailableSlot o1 (fin c b) in
    let r2 := nextAvailableSlot o2 (snd r1) in
    (fst r1 + safeDuration (slot_duration o1) + Fin 0.1 <=? fst r2)%js = true
    /\ (fst r1 <? fst r2)%js = true.
Proof.
  intros c b [d1 cam1 np1] [d2 cam2 np2] _ _ _. cbv zeta. unfold fin.
  destruct (nextAvailableSlot_fin c b d1 cam1 np1)
    as (s1 & sd1 & Hsd1 & Hpos1 & _ & _ & Hs1 & Hr1).
  rewrite Hr1. cbn [fst snd slot_duration]. rewrite Hsd1.
  destruct (nextAvailableSlot_fin (s1 + sd1 + 0.1)
              (if cam1 then s1 + sd1 + 0.1 else b) d2 cam2 np2)
    as (s2 & sd2 & _ & _ & _ & _ & Hs2 & Hr2).
  rewrite Hr2. cbn [fst JS.add JS.leb JS.ltb].
  assert (Hle : s1 + sd1 + 0.1 <= s2).
  { pose proof (Q.le_max_l (s1 + sd1 + 0.1)
                  (if cam1 then s1 + sd1 + 0.1 else b)).
    destruct cam2, np2; lra. }
  split; qbool; lra.
Qed.

(** ** Text: what the strokes of a text depend on *)

Lemma transformPairs_finite (a : list num) (x y s : Q) :
  forallb JS.isFinite a = true ->
  forallb JS.isFinite (transformPairs a (Fin x) (Fin y) (Fin s)) = true.
Proof.
  revert a. fix IH 1. intros [|n0 [|n1 rest]] H; try reflexivity.
  cbn [forallb] in H.
  apply andb_prop in H. destruct H as [H0 H].
  apply andb_prop in H. destruct H as [H1 H].
  destruct n0, n1; try discriminate.
  cbn [transformPairs]. cbn [JS.mul JS.add forallb JS.isFinite andb].
  apply IH. exact H.
Qed.

Lemma countedInCmd_finite (c : PathCmd) :
  forallb JS.isFinite (cmd_args c) = true ->
  countedInCmd c = if isCountedLetter (cmd_letter c) then 1%nat else 0%nat.
Proof.
  intros H. unfold countedInCmd.
  assert (Hnil : filter (fun a => negb (JS.isFinite a) && negb (JS.isNaN a))
                        (cmd_args c) = []).
  { induction (cmd_args c) as [|a rest IH]; [reflexivity|].
    cbn [forallb] in H. apply andb_prop in H. destruct H as [Ha Hrest].
    cbn [filter]. rewrite Ha. cbn [negb andb]. apply IH. exact Hrest. }
  rewrite Hnil. simpl. lia.
Qed.

(** Scaling and moving a finite path by finite amounts changes neither
    its commands nor, therefore, its estimated length. *)
Lemma transformPathString_count (p : svgpath) (x y s : Q) :
  finitePath p = true ->
  countCommands (transformPathString p (Fin x) (Fin y) (Fin s))
  = countCommands p.
Proof.
  intros H. unfold countCommands, transformPathString. f_equal.
  rewrite map_map. apply map_ext_in. intros c Hin.
  assert (Hc : forallb JS.isFinite (cmd_args c) = true).
  { unfold finitePath in H. rewrite forallb_forall in H. apply H. exact Hin. }
  rewrite (countedInCmd_finite c Hc).
  destruct (cmd_args c) as [|a0 args] eqn:E.
  - rewrite countedInCmd_finite by (rewrite E; reflexivity). reflexivity.
  - rewrite countedInCmd_finite; [reflexivity|].
    cbn [cmd_args]. apply transformPairs_finite. exact Hc.
Qed.

Lemma table_finite :
  forallb (fun entry => forallb finitePath (snd entry)) LETTER_PATHS = true.
Proof. vm_compute. reflexivity. Qed.

Lemma lookupIn_finite (table : list (jschar * list svgpath)) (c : jschar)
    (ps : list svgpath) :
  forallb (fun entry => forallb finitePath (snd entry)) table = true ->
  lookupIn table c = Some ps ->
  forallb finitePath ps = true.
Proof.
  induction table as [|[k v] rest IH]; intros Hall Hl; [discriminate|].
  cbn [forallb snd] in Hall. apply andb_prop in Hall. destruct Hall as [Hv Hrest].
  simpl in Hl. destruct (N.eqb k c).
  - injection Hl as <-. exact Hv.
  - apply IH; assumption.
Qed.

Section TextShape.

Context (host : Host).

(** The glyph found for a character, in the table or at its upper-case
    form, has finite paths. *)
Lemma found_finite (char : jschar) (ps : list svgpath) :
  match lookup char with
  | Some p => Some p
  | None => lookupKey (toUpperCase host char)
  end = Some ps ->
  forallb finitePath ps = true.
Proof.
  intros H. destruct (lookup char) as [p|] eqn:E.
  - injection H as <-. apply (lookupIn_finite LETTER_PATHS char p table_finite E).
  - unfold lookupKey in H.
    destruct (toUpperCase host char) as [|u [|u' rest]]; try discriminate.
    apply (lookupIn_finite LETTER_PATHS u ps table_finite H).
Qed.

(** The estimated lengths of the strokes of a character do not depend
    on where and how large it is drawn. *)
Lemma getCharacterPath_lengths (char : jschar) (x y s x' y' s' : Q) :
  map estimatePathLength (getCharacterPath host char (Fin x) (Fin y) (Fin s))
  = map estimatePathLength
        (getCharacterPath host char (Fin x') (Fin y') (Fin s')).
Proof.
  unfold getCharacterPath.
  destruct (match lookup char with
            | Some p => Some p
            | None => lookupKey (toUpperCase host char)
            end) as [[|p ps]|] eqn:E.
  - destruct (negb (N.eqb char space)); reflexivity.
  - pose proof (found_finite char (p :: ps) E) as Hfin.
    rewrite !map_map. apply map_ext_in. intros q Hq.
    assert (Hq' : finitePath q = true).
    { rewrite forallb_forall in Hfin. apply Hfin. exact Hq. }
    unfold estimatePathLength.
    rewrite !transformPathString_count by exact Hq'. reflexivity.
  - destruct (negb (N.eqb char space)); reflexivity.
Qed.

Lemma segment_lengths (paths : list svgpath) :
  map seg_length (map (fun path => mkSegment path (estimatePathLength path)) paths)
  = map estimatePathLength paths.
Proof. rewrite map_map. apply map_ext. reflexivity. Qed.

Lemma stroke_durations (speed : DrawingSpeed) (segs : list PathSegment) :
  map stroke_duration (map (strokeOfSegment speed) segs)
  = map (fun len =>
           JS.max (Fin 0.1)
             (JS.min (len * durationPerChar speed / Fin 100)%js (Fin 0.5)))
        (map seg_length segs).
Proof. rewrite !map_map. apply map_ext. reflexivity. Qed.

Lemma segmentsFrom_lengths_same (text : jsstring) :
  forall x y s x' y' s' : Q,
    map seg_length (segmentsFrom host text (Fin x) (Fin y) (Fin s))
    = map seg_length (segmentsFrom host text (Fin x') (Fin y') (Fin s')).
Proof.
  induction text as [|char rest IH]; intros x y s x' y' s'; [reflexivity|].
  cbn [segmentsFrom].
  change ((Fin x + Fin 16 * Fin s)%js) with (Fin (x + 16 * s)).
  change ((Fin x' + Fin 16 * Fin s')%js) with (Fin (x' + 16 * s')).
  change ((Fin x + Fin 28 * Fin s)%js) with (Fin (x + 28 * s)).
  change ((Fin x' + Fin 28 * Fin s')%js) with (Fin (x' + 28 * s')).
  destruct (N.eqb char space); [apply IH|].
  rewrite !map_app, !segment_lengths.
  rewrite (getCharacterPath_lengths char x y s x' y' s').
  f_equal. apply IH.
Qed.

Lemma sumDurations_map (ss : list Stroke) :
  sumDurations ss = fold_left JS.add (map stroke_duration ss) (Fin 0).
Proof.
  unfold sumDurations. generalize (Fin 0).
  induction ss as [|st rest IH]; intros acc; [reflexivity|].
  simpl. apply IH.
Qed.


(** The pen after a text, on finite numbers: 16 scaled units per
    space and 28 per other character. *)
Lemma advance_finite (text : jsstring) :
  forall x s : Q,
    exists q : Q,
      advance text (Fin x) (Fin s) = Fin q
      /\ q == x + (16 * inject_Z (Z.of_nat (spaces text))
                   + 28 * inject_Z (Z.of_nat (glyphs text))) * s.
Proof.
  unfold spaces, glyphs.
  induction text as [|char rest IH]; intros x s.
  - exists x. split; [reflexivity|]. simpl. ring.
  - cbn [advance filter]. rewrite (N.eqb_sym space char).
    destruct (N.eqb char space); cbn [negb].
    + change ((Fin x + Fin 16 * Fin s)%js) with (Fin (x + 16 * s)).
      destruct (IH (x + 16 * s) s) as (q & Hq & Heq).
      exists q. split; [exact Hq|]. rewrite Heq.
      cbn [List.length]. rewrite Nat2Z.inj_succ, <- Z.add_1_r, inject_Z_plus.
      ring.
    + change ((Fin x + Fin 28 * Fin s)%js) with (Fin (x + 28 * s)).
      destruct (IH (x + 28 * s) s) as (q & Hq & Heq).
      exists q. split; [exact Hq|]. rewrite Heq.
      cbn [List.length]. rewrite Nat2Z.inj_succ, <- Z.add_1_r, inject_Z_plus.
      ring.
Qed.

Lemma segmentsFrom_app (t1 t2 : jsstring) :
  forall currentX baseY scale,
    segmentsFrom host (t1 ++ t2) currentX baseY scale
    = segmentsFrom host t1 currentX baseY scale
      ++ segmentsFrom host t2 (advance t1 currentX scale) baseY scale.
Proof.
  induction t1 as [|char rest IH]; intros currentX baseY scale;
    [reflexivity|].
  cbn [app segmentsFrom advance].
  destruct (N.eqb char space); rewrite IH; [reflexivity|].
  rewrite app_assoc. reflexivity.
Qed.


End TextShape.

Lemma sum_between (ss : list Stroke) :
  Forall (fun st => exists dq, stroke_duration st = Fin dq /\ 0.1 <= dq <= 0.5) ss ->
  forall acc : Q,
    exists q : Q,
      fold_left (fun sum stroke => (sum + stroke_duration stroke)%js) ss (Fin acc)
      = Fin q
      /\ acc + 0.1 * inject_Z (Z.of_nat (List.length ss)) <= q
      /\ q <= acc + 0.5 * inject_Z (Z.of_nat (List.length ss)).
Proof.
  induction 1 as [|st rest (dq & Hdq & Hb) _ IH]; intros acc.
  - exists acc. cbn [fold_left List.length Z.of_nat].
    change (inject_Z 0) with 0.
    repeat apply conj; try reflexivity; lra.
  - cbn [fold_left List.length]. rewrite Hdq.
    change ((Fin acc + Fin dq)%js) with (Fin (acc + dq)).
    destruct (IH (acc + dq)) as (q & Hq & Hlo & Hhi).
    exists q. split; [exact Hq|].
    rewrite Nat2Z.inj_succ, <- Z.add_1_r, inject_Z_plus.
    change (inject_Z 1) with 1.
    split; lra.
Qed.

(** X6.  A text of [n] strokes is written in a finite time between
    [0.1 * n] and [0.5 * n] seconds, whatever its position, font size
    and speed; and [n] is zero exactly when the text is blank. *)
Theorem write_duration_bounds :
  forall (host : Host) (text : jsstring) (position : Position)
         (fontSize : num) (speed : DrawingSpeed),
    let n := List.length (compile host text position fontSize speed) in
    (exists q : Q,
        sumDurations (compile host text position fontSize speed) = Fin q
        /\ 0.1 * inject_Z (Z.of_nat n) <= q
        /\ q <= 0.5 * inject_Z (Z.of_nat n))
    /\ (n = 0%nat <-> blank text).
Proof.
  intros host text position fontSize speed n. subst n. split.
  - destruct (sum_between _ (compile_finite host text position fontSize speed) 0)
      as (q & Hq & Hlo & Hhi).
    exists q. unfold sumDurations.
    repeat apply conj; [exact Hq | lra | lra].
  - unfold compile, textToPathSegments. rewrite length_map.
    destruct (segmentsFrom_blank host text (px position) (py position)
                (fontSize / Fin 30)%js) as [Hb Hnb].
    split.
    + intros Hlen. destruct (blank_dec text) as [H | H]; [exact H|].
      apply Hnb in H. apply length_zero_iff_nil in Hlen. contradiction.
    + intros H. rewrite (Hb H). reflexivity.
Qed.

(** ** Content items *)

Lemma startsWith_self (pat s : jsstring) : startsWith pat (pat ++ s) = true.
Proof.
  induction pat as [|c rest IH]; [reflexivity|].
  simpl. rewrite N.eqb_refl. exact IH.
Qed.

Lemma removeFirst_unfold (pat s : jsstring) :
  removeFirst pat s
  = if startsWith pat s then skipn (List.length pat) s
    else match s with
         | [] => []
         | c :: s' => c :: removeFirst pat s'
         end.
Proof. destruct s; reflexivity. Qed.

Lemma removeFirst_prefix (pat s : jsstring) : removeFirst pat (pat ++ s) = s.
Proof.
  rewrite removeFirst_unfold, startsWith_self.
  rewrite skipn_app, skipn_all, Nat.sub_diag. reflexivity.
Qed.

Lemma removeFirst_last (c : jschar) (s : jsstring) :
  ~ In c s -> removeFirst [c] (s ++ [c]) = s.
Proof.
  induction s as [|x rest IH]; intros Hnot.
  - simpl. rewrite N.eqb_refl. reflexivity.
  - cbn [app removeFirst startsWith].
    destruct (N.eqb c x) eqn:E.
    + apply N.eqb_eq in E. exfalso. apply Hnot. left. symmetry. exact E.
    + cbn [andb]. f_equal. apply IH. intros H. apply Hnot. right. exact H.
Qed.

Section Items.

Context (host : Host).

(** X7.  An image item with a non-empty URL without a closing bracket
    is compiled, from finite cursors, to an image action that carries
    exactly this URL (wrapped into the intent text and unwrapped
    again), placed at the position of the item, from the cursor for 2
    seconds, and to the pause after it; nothing is written. *)
Theorem image_item_round_trip :
  forall (item : ContentItem) (url : jsstring) (c b : Q),
    item_type item = ItImage ->
    nonEmpty (item_imageUrl item) = Some url ->
    ~ In (cp "]") url ->
    exists img beat : DrawingAction,
      fst (semanticsToStrokes host (contentItemToSemantic item) (fin c b))
      = [img; beat]
      /\ type img = image
      /\ imageUrl img = Some url
      /\ position img = Some (itemPosition item)
      /\ startTime img = Fin c
      /\ duration img = Fin 2.0
      /\ type beat = pause
      /\ duration beat = Fin 0.5
      /\ (startTime beat =~ Fin (c + 2.1))%js.
Proof.
  intros item url c b Htype Hurl Hnot.
  unfold contentItemToSemantic. rewrite Htype, Hurl.
  cbn [semanticsToStrokes semanticToStrokes]. cbv zeta.
  assert (Himg : startsWith (str "[IMAGE:") (str "[IMAGE: " ++ url ++ str "]")
                 = true) by reflexivity.
  rewrite Himg. cbn [negb]. rewrite Bool.andb_false_r.
  rewrite removeFirst_prefix.
  change (str "]") with [cp "]"]. rewrite (removeFirst_last _ _ Hnot).
  unfold bind, ret, getCurrentTime, slot, fin. cbn [fst snd currentTime app].
  destruct (nextAvailableSlot_fin c b (Fin 2.0) false false)
    as (s & sd & Hsd & _ & _ & Hfin & Hs & Hr).
  destruct (Hfin 2.0 eq_refl) as [Hmax _].
  rewrite Q.max_r in Hmax by lra.
  assert (Hstart : fst (nextAvailableSlot (mkSlot (Fin 2.0) false false)
                          (mkTimeline (Fin c) (Fin b))) = Fin c)
    by reflexivity.
  rewrite Hr. cbn [fst snd currentTime].
  rewrite Hr in Hstart. cbn [fst] in Hstart. injection Hstart as Hsc.
  eexists. eexists. split; [reflexivity|].
  cbn [type imageUrl position startTime duration createImageAction orDefault].
  rewrite Hsc.
  repeat apply conj; try reflexivity.
  cbn [JS.eqv]. rewrite Hmax. lra.
Qed.


End Items.

(** ** Scenes: duration and independence *)

Lemma interval_fits (a : DrawingAction) (s q e : Q) :
  startTime a = Fin s -> duration a = Fin q -> s <= e ->
  (forall t, inInterval a t -> t < e) ->
  s + q <= e.
Proof.
  intros Hs Hd Hse Hin.
  destruct (Qlt_le_dec e (s + q)) as [Hlt | Hle]; [|exact Hle].
  exfalso. apply (Qlt_irrefl e). apply Hin.
  unfold inInterval. rewrite Hs, Hd. simpl. split; qbool; lra.
Qed.

Lemma timed_finite (a : DrawingAction) :
  timed noOther a -> exists q : Q, duration a = Fin q /\ 0 <= q.
Proof.
  unfold timed. destruct (type a);
    try (intros [(q & Hq & Hpos) | []]; exists q; split; [exact Hq | lra]).
  intros (txt & m & ss & q & _ & _ & _ & _ & Hq & Hq0 & _).
  exists q. auto.
Qed.

Lemma last_In {A : Type} (l : list A) (d : A) : l <> [] -> In (last l d) l.
Proof.
  induction l as [|x [|y rest] IH]; intros H.
  - congruence.
  - left. reflexivity.
  - right. apply IH. discriminate.
Qed.

(** In a sequence of actions of finite durations, every action ends by
    the end of the last one. *)
Lemma sequenced_last (acts : list DrawingAction) :
  forall lo hi d,
    sequenced lo acts hi ->
    Forall (timed noOther) acts ->
    forall a, In a acts ->
      exists s q sl ql : Q,
        startTime a = Fin s /\ duration a = Fin q /\ 0 <= q /\ lo <= s
        /\ startTime (last acts d) = Fin sl /\ duration (last acts d) = Fin ql
        /\ s + q <= sl + ql.
Proof.
  induction acts as [|a0 rest IH]; intros lo hi d Hseq Hall a Hin;
    [destruct Hin|].
  destruct Hseq as (s0 & e0 & Hs0 & Hlo & Hse & Hint & Hrest).
  inversion Hall as [|? ? Ht0 Hall']; subst.
  destruct (timed_finite a0 Ht0) as (q0 & Hq0 & Hq0pos).
  pose proof (interval_fits a0 s0 q0 e0 Hs0 Hq0 Hse Hint) as Hfit.
  destruct rest as [|r rs].
  - destruct Hin as [<- | []]. cbn [last].
    exists s0, q0, s0, q0. repeat apply conj; auto. lra.
  - change (last (a0 :: r :: rs) d) with (last (r :: rs) d).
    destruct Hin as [<- | Hin].
    + destruct (IH e0 hi d Hrest Hall' (last (r :: rs) d))
        as (sl & ql & _ & _ & Hsl & Hql & Hqlpos & Hle & _).
      { apply last_In. discriminate. }
      exists s0, q0, sl, ql. repeat apply conj; auto. lra.
    + destruct (IH e0 hi d Hrest Hall' a Hin)
        as (s & q & sl & ql & Hs & Hq & Hqpos & Hle & Hsl & Hql & Hend).
      exists s, q, sl, ql. repeat apply conj; auto. lra.
Qed.

Lemma last_map_Some {A : Type} (l : list A) (d : A) :
  l <> [] -> last (map Some l) None = Some (last l d).
Proof.
  induction l as [|x [|y rest] IH]; intros H.
  - congruence.
  - reflexivity.
  - change (last (map Some (x :: y :: rest)) None)
      with (last (map Some (y :: rest)) None).
    change (last (x :: y :: rest) d) with (last (y :: rest) d).
    apply IH. discriminate.
Qed.

Lemma orElse_fin (q : Q) :
  exists q' : Q, JS.orElse (Fin q) (Fin 0) = Fin q' /\ q' == q.
Proof.
  unfold JS.orElse. simpl. destruct (Qeq_bool q 0) eqn:E; simpl.
  - qbool. exists 0. split; [reflexivity | lra].
  - exists q. split; reflexivity.
Qed.

Lemma leb_below (x y : Q) (n : num) :
  x <= y -> (Fin y <=? n)%js = true -> (Fin x <=? n)%js = true.
Proof.
  intros Hxy. destruct n as [z| | |]; simpl; intros H; try discriminate;
    try reflexivity.
  qbool. lra.
Qed.

(** The total duration computed from a last action with finite timing
    is at least its end, and at least half a second. *)
Lemma sceneDuration_covers (lastAction : DrawingAction) (slideDuration : num)
    (s q : Q) :
  startTime lastAction = Fin s -> duration lastAction = Fin q ->
  (Fin (s + q) <=? sceneDuration lastAction slideDuration)%js = true
  /\ (Fin 0.5 <=? sceneDuration lastAction slideDuration)%js = true.
Proof.
  intros Hs Hq. unfold sceneDuration. rewrite Hs, Hq.
  destruct (orElse_fin s) as (s' & -> & Hs').
  destruct (orElse_fin q) as (q' & -> & Hq').
  change ((Fin s' + Fin q')%js) with (Fin (s' + q')).
  cbn [JS.isNaN JS.isFinite negb orb].
  pose proof (orElse_number slideDuration 5) as Hn.
  destruct (JS.orElse slideDuration (Fin 5)) as [x| | |]; [| | |congruence].
  - cbn [JS.max JS.leb].
    destruct (Qle_bool (s' + q') x) eqn:E1; cbn [JS.max JS.leb].
    + destruct (Qle_bool 0.5 x) eqn:E2; cbn [JS.leb]; split; qbool; lra.
    + destruct (Qle_bool 0.5 (s' + q')) eqn:E2; cbn [JS.leb]; split; qbool; lra.
  - split; reflexivity.
  - cbn [JS.max JS.leb].
    destruct (Qle_bool 0.5 (s' + q')) eqn:E2; cbn [JS.leb]; split; qbool; lra.
Qed.

Section Durations.

Context (host : Host).

(** Every action of the scene of a slide has a finite start and
    duration, and ends by the total duration of the scene, which is at
    least half a second. *)
Lemma convertSlide_ends (k : nat) (slide : Slide) (a : DrawingAction) :
  In a (actions (convertSlide host k slide)) ->
  exists s q : Q,
    startTime a = Fin s /\ duration a = Fin q /\ 0 <= s /\ 0 <= q
    /\ (Fin (s + q) <=? totalDuration (convertSlide host k slide))%js = true
    /\ (Fin 0.5 <=? totalDuration (convertSlide host k slide))%js = true.
Proof.
  intros Ha.
  destruct (convertSlide_emits host k slide) as (hi & Hseq & Hall & Hne).
  destruct (sequenced_last _ 0 hi a Hseq Hall a Ha)
    as (s & q & sl & ql & Hs & Hq & Hq0 & Hs0 & Hsl & Hql & Hend).
  rewrite convertSlide_totalDuration.
  rewrite (last_map_Some _ a Hne).
  destruct (sceneDuration_covers _ (slide_duration slide) sl ql Hsl Hql)
    as [Hcover Hhalf].
  exists s, q. repeat apply conj; auto.
  apply (leb_below (s + q) (sl + ql)); assumption.
Qed.

(** X9.  The total duration of a compiled scene is at least half a
    second and covers every action of the scene: no action ends after
    it. *)
Theorem totalDuration_covers_actions :
  forall (slides : list Slide) (topic : jsstring) (scene : WhiteboardScene)
         (a : DrawingAction),
    In scene (convertSlidesToWhiteboardScenes host slides topic) ->
    In a (actions scene) ->
    (startTime a + duration a <=? totalDuration scene)%js = true
    /\ (Fin 0.5 <=? totalDuration scene)%js = true.
Proof.
  intros slides topic scene a Hin Ha.
  destruct (convertSlides_in host slides topic scene Hin) as (k & slide & ->).
  destruct (convertSlide_ends k slide a Ha)
    as (s & q & -> & -> & _ & _ & Hcover & Hhalf).
  split; assumption.
Qed.

(** X10.  Once the total duration of a compiled scene has elapsed,
    every action of the scene is complete and none is active any
    more. *)
Theorem no_action_active_after_scene :
  forall (slides : list Slide) (topic : jsstring) (scene : WhiteboardScene)
         (total t : Q),
    In scene (convertSlidesToWhiteboardScenes host slides topic) ->
    totalDuration scene = Fin total ->
    total <= t ->
    getActiveActions host scene (Fin t) (Fin 0) = []
    /\ forall a, In a (actions scene) ->
         isComplete (getActionState host a (Fin t) (Fin 0)) = true.
Proof.
  intros slides topic scene total t Hin Htotal Ht.
  destruct (convertSlides_in host slides topic scene Hin) as (k & slide & ->).
  assert (Hdone : forall a,
             In a (actions (convertSlide host k slide)) ->
             currentProgress (getActionState host a (Fin t) (Fin 0)) = Fin 1
             /\ isComplete (getActionState host a (Fin t) (Fin 0)) = true).
  { intros a Ha.
    destruct (convertSlide_ends k slide a Ha)
      as (s & q & Hs & Hq & Hs0 & Hq0 & Hcover & _).
    rewrite Htotal in Hcover. simpl in Hcover. qbool.
    pose proof (getActionState_cases host a s t 0 Hs) as Hc.
    cbv zeta in Hc. rewrite Hq in Hc.
    change ((Fin t >=? Fin (0 + s) + Fin q)%js)
      with (Qle_bool (0 + s + q) t) in Hc.
    assert (E1 : JS.Qltb t (0 + s) = false) by (qbool; lra).
    assert (E2 : Qle_bool (0 + s + q) t = true) by (qbool; lra).
    rewrite E1, E2 in Hc. injection Hc as -> ->. auto. }
  split; [|intros a Ha; apply (Hdone a Ha)].
  unfold getActiveActions. rewrite Htotal.
  change ((Fin t <? Fin 0 + Fin total)%js) with (JS.Qltb t (0 + total)).
  assert (E : JS.Qltb t (0 + total) = false) by (qbool; lra).
  rewrite E.
  induction (actions (convertSlide host k slide)) as [|a rest IH];
    [reflexivity|].
  cbn [map filter].
  destruct (Hdone a (or_introl eq_refl)) as [_ Hc]. rewrite Hc.
  cbn [negb]. rewrite Bool.andb_false_r. cbn [andb orb].
  apply IH. intros a' Ha'. apply Hdone. right. exact Ha'.
Qed.

End Durations.

(** On a text of the basic plane [substring] cuts between characters. *)
Lemma substring0_bmp (n : nat) (s : jsstring) :
  Forall (fun c => (c < 65536)%N) s -> substring0 n s = firstn n s.
Proof.
  intros H. revert n. induction H as [|c rest Hc _ IH]; intros [|n];
    try reflexivity.
  cbn [substring0 firstn]. apply N.ltb_lt in Hc. rewrite Hc, IH. reflexivity.
Qed.

(** A character above the basic plane at the cut: its pair is cut and
    the high surrogate is left, within the length asked for. *)
Example substring0_cuts_pair :
  substring0 2 [97; 128512; 98]%N = [97; 55357]%N
  /\ strLength (substring0 2 [97; 128512; 98]%N) = 2%nat.
Proof. split; reflexivity. Qed.

Section DefaultText.

Context (host : Host).

(** X12.  A slide without content items is given one text: the first
    50 characters of its narration when the narration is not empty and
    stays in the basic plane (where characters and UTF-16 units are the
    same), and, without narration, [Concept] and the number of the
    scene; unless this text begins with [[IMAGE:], its scene is this
    text written from 0.3 and the thinking beat of half a second. *)
Theorem empty_content_default_text :
  forall (k : nat) (slide : Slide),
    (slide_content slide = None \/ slide_content slide = Some []) ->
    exists txt : jsstring,
      (forall v : jsstring,
          slide_voiceScript slide = Some v -> v <> [] ->
          Forall (fun c => (c < 65536)%N) v ->
          txt = firstn 50 v)
      /\ (nonEmpty (slide_voiceScript slide) = None ->
          txt = str "Concept " ++ decimal (k + 1))
      /\ (startsWith (str "[IMAGE:") txt = false ->
          exists w beat : DrawingAction,
            actions (convertSlide host k slide) = [w; beat]
            /\ type w = write
            /\ text w = Some txt
            /\ (startTime w =~ Fin 0.3)%js
            /\ type beat = pause
            /\ duration beat = Fin 0.5).
Proof.
  intros k slide Hcontent. exists (defaultText k slide). repeat apply conj.
  - intros v Hv Hne Hbmp. unfold defaultText. rewrite Hv. cbn [option_map].
    rewrite (substring0_bmp 50 v Hbmp).
    destruct v as [|c rest]; [congruence|]. reflexivity.
  - intros Hnone. unfold defaultText.
    destruct (slide_voiceScript slide) as [[|c rest]|]; try reflexivity.
    discriminate.
  - intros Hstarts. rewrite convertSlide_actions.
    assert (Hint : slideIntents k slide
                   = [introduce_concept (defaultText k slide)
                        (Some (mkPosition (Fin 960) (Fin 540))) false None]).
    { unfold slideIntents, defaultText.
      destruct Hcontent as [-> | ->]; reflexivity. }
    rewrite Hint.
    cbn [semanticsToStrokes semanticToStrokes]. cbv zeta.
    rewrite Hstarts. cbn [negb andb].
    unfold bind, ret, getCurrentTime. cbn [fst snd app].
    eexists. eexists. split; [reflexivity|].
    repeat apply conj; reflexivity.
Qed.

End DefaultText.

(** ** Evaluator: edge cases and the hand *)

(** The clamped progress of [getHandPosition] inside the window of an
    action of positive duration. *)
Lemma actionProgress_window (t s d : Q) :
  0 < d -> s <= t <= s + d ->
  exists p : Q,
    JS.min (Fin 1) (JS.max (Fin 0) ((Fin t - Fin s) / Fin d)%js) = Fin p
    /\ p == (t - s) / d /\ 0 <= p <= 1.
Proof.
  intros Hd [H1 H2].
  change ((Fin t - Fin s)%js) with (Fin (t - s)).
  rewrite div_fin by lra.
  assert (Hv : 0 <= (t - s) / d <= 1).
  { split; [apply Qle_shift_div_l | apply Qle_shift_div_r]; lra. }
  generalize dependent ((t - s) / d). intros v Hv.
  destruct (max_fin_ex 0 v) as (m & -> & Hm).
  destruct (min_fin_ex 1 m) as (p & -> & Hp).
  assert (Hm' : m == v) by (rewrite Hm; apply Q.max_r; lra).
  assert (Hp' : p == m) by (rewrite Hp; apply Q.min_r; lra).
  exists p. repeat apply conj; try reflexivity; lra.
Qed.

Section Hand.

Context (host : Host).

(** Outside the window of an action of finite timing
    [getHandPosition] returns [null]. *)
Lemma getHandPosition_outside (a : DrawingAction) (st d t s0 : Q) :
  startTime a = Fin st -> duration a = Fin d ->
  t < s0 + st \/ s0 + st + d < t ->
  getHandPosition host a (Fin t) (Fin s0) = None.
Proof.
  intros Hst Hd Hout. unfold getHandPosition. rewrite Hst, Hd.
  change ((Fin s0 + Fin st)%js) with (Fin (s0 + st)).
  change ((Fin (s0 + st) + Fin d)%js) with (Fin (s0 + st + d)).
  change ((Fin t <? Fin (s0 + st))%js) with (JS.Qltb t (s0 + st)).
  change ((Fin t >? Fin (s0 + st + d))%js) with (JS.Qltb (s0 + st + d) t).
  destruct Hout as [H | H]; apply Qltb_true in H; rewrite H;
    [|rewrite Bool.orb_true_r]; reflexivity.
Qed.

(** At the start of an action of duration zero, the progress of
    [getHandPosition] is zero over zero. *)
Lemma actionProgress_instant (t s d : Q) :
  d == 0 -> t == s ->
  JS.min (Fin 1) (JS.max (Fin 0) ((Fin t - Fin s) / Fin d)%js) = NaN.
Proof.
  intros Hd Ht.
  change ((Fin t - Fin s)%js) with (Fin (t - s)).
  unfold JS.div.
  assert (E : Qeq_bool d 0 = true) by (apply Qeq_bool_iff; exact Hd).
  rewrite E.
  assert (Hz : (t - s ?= 0) = Eq) by (apply Qeq_alt; lra).
  rewrite Hz. reflexivity.
Qed.

(** X13.  An action of finite duration zero or less is never in
    progress: at finite times its progress is 0 before its start and 1,
    complete, from its start on.  Its hand shows at one instant at
    most, its start.  There, when the duration is zero, the hand
    position divides zero by the duration: for a [write] action with a
    text, a position and no stroke (the text of spaces of a compiled
    scene) the state carries a hand whose abscissa is [NaN]. *)
Theorem getActionState_instant :
  forall (a : DrawingAction) (st d t s0 : Q),
    startTime a = Fin st ->
    duration a = Fin d ->
    d <= 0 ->
    let r := getActionState host a (Fin t) (Fin s0) in
    (t < s0 + st -> currentProgress r = Fin 0 /\ isComplete r = false)
    /\ (s0 + st <= t -> currentProgress r = Fin 1 /\ isComplete r = true)
    /\ (~ t == s0 + st ->
        handPosition r = None /\ handAngle r = None)
    /\ (d == 0 -> t == s0 + st ->
        type a = write ->
        forall (txt : jsstring) (p : Position),
          truthyList (text a) = Some txt ->
          position a = Some p ->
          (forall m, metadata a = Some m -> truthyList (strokes m) = None) ->
          handVisible a <> Some false ->
          exists pos : Position,
            handPosition r = Some pos /\ px pos = NaN).
Proof.
  intros a st d t s0 Hst Hd Hneg r.
  pose proof (getActionState_cases host a st t s0 Hst) as Hc. fold r in Hc.
  rewrite Hd in Hc.
  change ((Fin t >=? Fin (s0 + st) + Fin d)%js)
    with (Qle_bool (s0 + st + d) t) in Hc.
  repeat apply conj.
  - intros Ht.
    apply Qltb_true in Ht. rewrite Ht in Hc. injection Hc as -> ->. auto.
  - intros Ht.
    assert (E1 : JS.Qltb t (s0 + st) = false) by (qbool; lra).
    assert (E2 : Qle_bool (s0 + st + d) t = true) by (qbool; lra).
    rewrite E1, E2 in Hc. injection Hc as -> ->. auto.
  - intros Hnot. subst r.
    destruct (getActionState_hand host a (Fin t) (Fin s0)) as [-> ->].
    assert (Hout : t < s0 + st \/ s0 + st + d < t).
    { destruct (Qlt_le_dec t (s0 + st)) as [H | H]; [left; exact H|].
      destruct (Qlt_le_dec (s0 + st + d) t) as [H' | H']; [right; exact H'|].
      exfalso. apply Hnot. lra. }
    rewrite (getHandPosition_outside a st d t s0 Hst Hd Hout).
    destruct (handVisible a) as [[|]|]; split; reflexivity.
  - intros Hzero Ht Htype txt p Htext Hposn Hnostroke Hvis. subst r.
    destruct (getActionState_hand host a (Fin t) (Fin s0)) as [-> _].
    assert (Hhand : exists pos : Position,
               getHandPosition host a (Fin t) (Fin s0) = Some (pos, Fin 0)
               /\ px pos = NaN).
    { unfold getHandPosition. rewrite Hst, Hd, Htype, Htext, Hposn.
      change ((Fin s0 + Fin st)%js) with (Fin (s0 + st)).
      change ((Fin (s0 + st) + Fin d)%js) with (Fin (s0 + st + d)).
      change ((Fin t <? Fin (s0 + st))%js) with (JS.Qltb t (s0 + st)).
      change ((Fin t >? Fin (s0 + st + d))%js) with (JS.Qltb (s0 + st + d) t).
      assert (E1 : JS.Qltb t (s0 + st) = false) by (qbool; lra).
      assert (E2 : JS.Qltb (s0 + st + d) t = false) by (qbool; lra).
      rewrite E1, E2. cbn [orb].
      rewrite (actionProgress_instant t (s0 + st) d Hzero Ht).
      assert (Hstrokes :
                match metadata a with
                | Some m =>
                    match truthyList (strokes m) with
                    | Some strokes0 =>
                        followStrokes host strokes0 (Fin 0)
                          (fold_left
                             (fun sum s =>
                                (sum + JS.orElse (stroke_duration s) (Fin 0.1))%js)
                             strokes0 (Fin 0) * NaN)%js
                    | None => None
                    end
                | None => None
                end = None).
      { destruct (metadata a) as [m|]; [|reflexivity].
        rewrite (Hnostroke m eq_refl). reflexivity. }
      rewrite Hstrokes.
      eexists. split; [reflexivity|].
      cbn [px JS.mul JS.floor]. destruct (px p); reflexivity. }
    destruct Hhand as (pos & Hh & Hnan). rewrite Hh.
    exists pos. split; [|exact Hnan].
    destruct (handVisible a) as [[|]|]; try congruence; reflexivity.
Qed.

(** X14.  No hand outside the window of an action: at a finite time
    before the start or after the end of an action of finite timing,
    and at any time when the action hides its hand, the state carries
    neither hand position nor hand angle. *)
Theorem no_hand_outside_window :
  forall (a : DrawingAction),
    (forall st d t s0 : Q,
        startTime a = Fin st -> duration a = Fin d ->
        t < s0 + st \/ s0 + st + d < t ->
        handPosition (getActionState host a (Fin t) (Fin s0)) = None
        /\ handAngle (getActionState host a (Fin t) (Fin s0)) = None)
    /\ (handVisible a = Some false ->
        forall t s0 : num,
          handPosition (getActionState host a t s0) = None
          /\ handAngle (getActionState host a t s0) = None).
Proof.
  intros a. split.
  - intros st d t s0 Hst Hd Hout.
    destruct (getActionState_hand host a (Fin t) (Fin s0)) as [-> ->].
    assert (Hnone : getHandPosition host a (Fin t) (Fin s0) = None).
    { unfold getHandPosition. rewrite Hst, Hd.
      change ((Fin s0 + Fin st)%js) with (Fin (s0 + st)).
      change ((Fin (s0 + st) + Fin d)%js) with (Fin (s0 + st + d)).
      change ((Fin t <? Fin (s0 + st))%js) with (JS.Qltb t (s0 + st)).
      change ((Fin t >? Fin (s0 + st + d))%js) with (JS.Qltb (s0 + st + d) t).
      destruct Hout as [H | H]; apply Qltb_true in H; rewrite H;
        [|rewrite Bool.orb_true_r]; reflexivity. }
    rewrite Hnone. destruct (handVisible a) as [[|]|]; split; reflexivity.
  - intros Hhide t s0.
    destruct (getActionState_hand host a t s0) as [-> ->].
    rewrite Hhide. split; reflexivity.
Qed.

(** The checks at the head of [getHandPosition], inside the window. *)
Lemma inside_window (t s d : Q) :
  s <= t <= s + d ->
  (JS.Qltb t s || JS.Qltb (s + d) t)%bool = false.
Proof.
  intros [H1 H2].
  assert (E1 : JS.Qltb t s = false) by (qbool; lra).
  assert (E2 : JS.Qltb (s + d) t = false) by (qbool; lra).
  rewrite E1, E2. reflexivity.
Qed.

(** X15.  The hand of an image action without path sweeps the
    diagonal of the image: inside the window of the action it stands at
    the top left corner plus the progress times the width and the
    height, from the top left corner at the start to the bottom right
    one at the end, at the fixed angle [PI / 4]. *)
Theorem image_hand_diagonal :
  forall (a : DrawingAction) (x y w h st d t s0 : Q),
    type a = image ->
    position a = Some (mkPosition (Fin x) (Fin y)) ->
    truthyList (path a) = None ->
    handVisible a <> Some false ->
    numOr (match metadata a with Some m => width m | None => None end)
          (Fin 400) = Fin w ->
    numOr (match metadata a with Some m => height m | None => None end)
          (Fin 300) = Fin h ->
    startTime a = Fin st -> duration a = Fin d -> 0 < d ->
    s0 + st <= t <= s0 + st + d ->
    exists (pos : Position),
      handPosition (getActionState host a (Fin t) (Fin s0)) = Some pos
      /\ handAngle (getActionState host a (Fin t) (Fin s0))
         = Some (JS.PI / Fin 4)%js
      /\ (px pos =~ Fin (x - w / 2 + w * ((t - (s0 + st)) / d)))%js
      /\ (py pos =~ Fin (y - h / 2 + h * ((t - (s0 + st)) / d)))%js
      /\ (t == s0 + st ->
          (px pos =~ Fin (x - w / 2))%js /\ (py pos =~ Fin (y - h / 2))%js)
      /\ (t == s0 + st + d ->
          (px pos =~ Fin (x + w / 2))%js /\ (py pos =~ Fin (y + h / 2))%js).
Proof.
  intros a x y w h st d t s0 Htype Hposn Hpath Hvis Hw Hh Hst Hd Hpos Hin.
  destruct (getActionState_hand host a (Fin t) (Fin s0)) as [-> ->].
  assert (Hhand : exists p : Q,
             getHandPosition host a (Fin t) (Fin s0)
             = Some (mkPosition (Fin (x - w / 2 + w * p))
                                (Fin (y - h / 2 + h * p)),
                     (JS.PI / Fin 4)%js)
             /\ p == (t - (s0 + st)) / d).
  { unfold getHandPosition. rewrite Hst, Hd, Htype, Hposn, Hpath, Hw, Hh.
    change ((Fin s0 + Fin st)%js) with (Fin (s0 + st)).
    change ((Fin (s0 + st) + Fin d)%js) with (Fin (s0 + st + d)).
    change ((Fin t <? Fin (s0 + st))%js) with (JS.Qltb t (s0 + st)).
    change ((Fin t >? Fin (s0 + st + d))%js) with (JS.Qltb (s0 + st + d) t).
    rewrite (inside_window t (s0 + st) d Hin).
    destruct (actionProgress_window t (s0 + st) d Hpos Hin)
      as (p & -> & Hp & _).
    exists p. split; [|exact Hp].
    destruct (start a), (end_ a); reflexivity. }
  destruct Hhand as (p & Hh' & Hp).
  rewrite Hh'.
  eexists. split.
  { destruct (handVisible a) as [[|]|]; try congruence; reflexivity. }
  split.
  { destruct (handVisible a) as [[|]|]; try congruence; reflexivity. }
  cbn [px py JS.eqv fst snd option_map].
  assert (Hd0 : ~ d == 0) by lra.
  repeat apply conj.
  - rewrite Hp. reflexivity.
  - rewrite Hp. reflexivity.
  - intros H. split; rewrite Hp, H; field; exact Hd0.
  - intros H. split; rewrite Hp, H; field; exact Hd0.
Qed.

End Hand.

Section Fallback.

Context (host : Host).

(** Without any sampled point the loop over the strokes finds no
    position. *)
Lemma followStrokes_unsampled (ss : list Stroke) :
  (forall p d, calculatePathPoints host p d = []) ->
  forall currentTime currentDrawTime,
    followStrokes host ss currentTime currentDrawTime = None.
Proof.
  intros Hnone. induction ss as [|st rest IH]; intros c t; [reflexivity|].
  cbn [followStrokes]. rewrite Hnone.
  destruct ((t >=? c)%js
            && (t <=? c + JS.orElse (stroke_duration st) (Fin 0.1))%js);
    apply IH.
Qed.

(** X16.  When the path measurement gives no point (it throws, as on a
    host without a document), the hand of a [write] action with a text
    and a position is estimated from the characters: inside the window
    of the action it stands [floor (length * progress)] character
    widths of [0.6 * fontSize] right of the position and half a font
    size below it, at angle zero; [length] is the length of the text in
    UTF-16 units. *)
Theorem write_hand_fallback :
  forall (a : DrawingAction) (txt : jsstring) (x y f st d t s0 : Q),
    (forall p dur, calculatePathPoints host p dur = []) ->
    type a = write ->
    truthyList (text a) = Some txt ->
    position a = Some (mkPosition (Fin x) (Fin y)) ->
    numOr (fontSize a) (Fin 48) = Fin f ->
    handVisible a <> Some false ->
    startTime a = Fin st -> duration a = Fin d -> 0 < d ->
    s0 + st <= t <= s0 + st + d ->
    exists (pos : Position) (shown : Z),
      handPosition (getActionState host a (Fin t) (Fin s0)) = Some pos
      /\ handAngle (getActionState host a (Fin t) (Fin s0)) = Some (Fin 0)
      /\ (0 <= shown <= Z.of_nat (strLength txt))%Z
      /\ inject_Z shown
         <= inject_Z (Z.of_nat (strLength txt)) * ((t - (s0 + st)) / d)
      /\ inject_Z (Z.of_nat (strLength txt)) * ((t - (s0 + st)) / d)
         < inject_Z shown + 1
      /\ (px pos =~ Fin (x + inject_Z shown * (f * 0.6)))%js
      /\ (py pos =~ Fin (y + f / 2))%js.
Proof.
  intros a txt x y f st d t s0 Hnone Htype Htext Hposn Hf Hvis Hst Hd Hpos Hin.
  destruct (getActionState_hand host a (Fin t) (Fin s0)) as [-> ->].
  assert (Hhand : exists p : Q,
             getHandPosition host a (Fin t) (Fin s0)
             = Some (mkPosition
                       (Fin (x + inject_Z
                                   (Qfloor (inject_Z (Z.of_nat (strLength txt)) * p))
                                 * (f * 0.6)))
                       (Fin (y + f / 2)),
                     Fin 0)
             /\ p == (t - (s0 + st)) / d /\ 0 <= p <= 1).
  { unfold getHandPosition. rewrite Hst, Hd, Htype, Htext, Hposn, Hf.
    change ((Fin s0 + Fin st)%js) with (Fin (s0 + st)).
    change ((Fin (s0 + st) + Fin d)%js) with (Fin (s0 + st + d)).
    change ((Fin t <? Fin (s0 + st))%js) with (JS.Qltb t (s0 + st)).
    change ((Fin t >? Fin (s0 + st + d))%js) with (JS.Qltb (s0 + st + d) t).
    rewrite (inside_window t (s0 + st) d Hin).
    destruct (actionProgress_window t (s0 + st) d Hpos Hin)
      as (p & -> & Hp & Hp01).
    exists p. split; [|split; assumption].
    assert (Hstrokes :
              match metadata a with
              | Some m =>
                  match truthyList (strokes m) with
                  | Some strokes0 =>
                      followStrokes host strokes0 (Fin 0)
                        (fold_left
                           (fun sum s =>
                              (sum + JS.orElse (stroke_duration s) (Fin 0.1))%js)
                           strokes0 (Fin 0) * Fin p)%js
                  | None => None
                  end
              | None => None
              end = None).
    { destruct (metadata a) as [m|]; [|reflexivity].
      destruct (truthyList (strokes m)); [|reflexivity].
      apply followStrokes_unsampled. exact Hnone. }
    rewrite Hstrokes.
    assert (Hhalf : (Fin f / Fin 2)%js = Fin (f / 2))
      by (apply div_fin; intro E; discriminate).
    rewrite Hhalf. reflexivity. }
  destruct Hhand as (p & Hh & Hp & Hp01).
  rewrite Hh.
  set (n := inject_Z (Z.of_nat (strLength txt))) in *.
  assert (Hn : 0 <= n).
  { unfold n. change 0 with (inject_Z 0). rewrite <- Zle_Qle. lia. }
  exists (mkPosition (Fin (x + inject_Z (Qfloor (n * p)) * (f * 0.6)))
                     (Fin (y + f / 2))), (Qfloor (n * p)).
  assert (Hfloor : inject_Z (Qfloor (n * p)) <= n * p) by apply Qfloor_le.
  assert (Hfloor' : n * p < inject_Z (Qfloor (n * p) + 1)) by apply Qlt_floor.
  rewrite inject_Z_plus in Hfloor'. change (inject_Z 1) with 1 in Hfloor'.
  assert (Hnp : 0 <= n * p) by (apply Qmult_le_0_compat; lra).
  assert (Hnp' : n * p <= n) by nra.
  repeat apply conj.
  - destruct (handVisible a) as [[|]|]; try congruence; reflexivity.
  - destruct (handVisible a) as [[|]|]; try congruence; reflexivity.
  - change 0%Z with (Qfloor 0). apply Qfloor_resp_le. exact Hnp.
  - pose proof (Qfloor_resp_le _ _ Hnp') as Hle.
    unfold n in Hle at 2. rewrite Qfloor_Z in Hle. exact Hle.
  - rewrite <- Hp. exact Hfloor.
  - rewrite <- Hp. exact Hfloor'.
  - reflexivity.
  - reflexivity.
Qed.

End Fallback.

(** ** Path generators *)



(** ** Stroke dash properties along an action *)

Section Dash.

Context (host : Host).

(** The progress of an action of finite positive duration, as a
    rational. *)
Lemma progress_point (a : DrawingAction) (st d t s0 : Q) :
  startTime a = Fin st -> duration a = Fin d -> 0 < d ->
  exists p : Q,
    currentProgress (getActionState host a (Fin t) (Fin s0)) = Fin p
    /\ 0 <= p <= 1
    /\ (t < s0 + st -> p == 0)
    /\ (s0 + st + d <= t -> p == 1)
    /\ (s0 + st <= t < s0 + st + d -> p == (t - (s0 + st)) / d).
Proof.
  intros Hst Hd Hpos.
  destruct (getActionState_finite host a st d t s0 Hst Hd Hpos)
    as [(H1 & H2 & _) | [(H1 & H2 & _) | (H1 & H2 & _)]]; rewrite H2.
  - exists 0. repeat apply conj; try reflexivity; intros; lra.
  - exists 1. repeat apply conj; try reflexivity; intros; lra.
  - exists ((t - (s0 + st)) / d).
    pose proof (in_progress_bounds t (s0 + st) d Hpos H1) as Hb.
    repeat apply conj; try reflexivity; try apply Hb; intros; lra.
Qed.

(** X19.  The dash offset computed from the progress of an action (of
    finite positive duration, for a path of finite length that is not
    negative) is the part of the path still to draw: it lies between
    zero and the length, is the whole length before the action starts
    and zero once it is complete, and never grows as time passes. *)
Theorem dash_offset_shrinks :
  forall (a : DrawingAction) (st d s0 len t1 t2 : Q),
    startTime a = Fin st -> duration a = Fin d -> 0 < d ->
    0 <= len -> t1 <= t2 ->
    exists o1 o2 : Q,
      snd (getStrokeDashProperties (Fin len)
             (currentProgress (getActionState host a (Fin t1) (Fin s0))))
      = Fin o1
      /\ snd (getStrokeDashProperties (Fin len)
                (currentProgress (getActionState host a (Fin t2) (Fin s0))))
         = Fin o2
      /\ 0 <= o2 /\ o2 <= o1 /\ o1 <= len
      /\ (t1 < s0 + st -> o1 == len)
      /\ (s0 + st + d <= t2 -> o2 == 0).
Proof.
  intros a st d s0 len t1 t2 Hst Hd Hpos Hlen Ht.
  destruct (progress_point a st d t1 s0 Hst Hd Hpos)
    as (p1 & -> & Hb1 & Hbefore1 & Hafter1 & Hin1).
  destruct (progress_point a st d t2 s0 Hst Hd Hpos)
    as (p2 & -> & Hb2 & Hbefore2 & Hafter2 & Hin2).
  assert (Hmono : p1 <= p2).
  { destruct (Qlt_le_dec t1 (s0 + st)) as [A | A];
      [rewrite (Hbefore1 A); lra|].
    destruct (Qlt_le_dec t2 (s0 + st + d)) as [B | B];
      [|rewrite (Hafter2 B); lra].
    rewrite Hin1, Hin2 by lra.
    unfold Qdiv. apply Qmult_le_compat_r; [lra|].
    apply Qinv_le_0_compat. lra. }
  exists (len * (1 - p1)), (len * (1 - p2)).
  repeat apply conj; try reflexivity.
  - nra.
  - nra.
  - nra.
  - intros H. rewrite (Hbefore1 H). ring.
  - intros H. rewrite (Hafter2 H). ring.
Qed.

End Dash.

(** ** The whole text as one path *)

Section WholeText.

Context (host : Host).


End WholeText.

(** ** The further properties on the reference host *)

(** A text asked for at 25% of the width and 300 down is written at
    (480, 300). *)
Lemma compiled_positions_on_board_witness :
  exists x y : Q,
    position (nth 0 (actions (convertSlide refHost 0 styledSlide))
                  (bareAction pause (Fin 0) (Fin 0)))
    = Some (mkPosition (Fin x) (Fin y))
    /\ 0 <= x <= 1920 /\ 0 <= y <= 1080.
Proof.
  destruct (compiled_positions_on_board refHost [styledSlide] (str "Demo")
              (convertSlide refHost 0 styledSlide)
              (nth 0 (actions (convertSlide refHost 0 styledSlide))
                   (bareAction pause (Fin 0) (Fin 0)))
              (mkPosition (Fin 25 / Fin 100 * Fin 1920)%js (Fin 300)))
    as (x & y & H & Hx & Hy).
  - apply Forall_cons; [|apply Forall_nil].
    unfold slideInside, styledSlide. cbn [slide_content].
    apply Forall_cons; [|apply Forall_nil].
    unfold styledInside. cbn [item_style style_x style_y coordinateInside].
    split; split; lra.
  - left. reflexivity.
  - left. reflexivity.
  - reflexivity.
  - exists x, y. rewrite <- H. split; [reflexivity | split; assumption].
Defined.


(** After one reservation with the camera on the fresh timeline. *)
Lemma camera_never_delays_witness :
  (cameraBusyUntil (snd (nextAvailableSlot (mkSlot (Fin 2) true false) reset))
   <=? currentTime (snd (nextAvailableSlot (mkSlot (Fin 2) true false) reset)))%js
  = true.
Proof.
  exact (proj1 (proj2 (camera_never_delays
                         (snd (nextAvailableSlot (mkSlot (Fin 2) true false)
                                                 reset))
                         (reach_slot reset (mkSlot (Fin 2) true false)
                                     reach_reset)))).
Defined.

(** A text slot of two seconds, then a camera slot, from the fresh
    timeline. *)
Lemma successive_slots_apart_witness :
  (fst (nextAvailableSlot (mkSlot (Fin 2) false true) (fin 0 0))
   <? fst (nextAvailableSlot (mkSlot (Fin 1) true false)
             (snd (nextAvailableSlot (mkSlot (Fin 2) false true) (fin 0 0)))))%js
  = true.
Proof.
  apply (successive_slots_apart 0 0 (mkSlot (Fin 2) false true)
           (mkSlot (Fin 1) true false)).
  - unfold moderate. apply Qle_bool_imp_le. reflexivity.
  - unfold moderate. apply Qle_bool_imp_le. reflexivity.
  - intros d H. injection H as <-.
    unfold moderate. apply Qle_bool_imp_le. reflexivity.
Defined.

(** An image item from the fresh timeline. *)
Lemma image_item_round_trip_witness :
  exists img beat : DrawingAction,
    fst (semanticsToStrokes refHost
           (contentItemToSemantic
              (mkItem ItImage [] None None (Some (str "pics/cell.png")) None))
           (fin 0 0))
    = [img; beat]
    /\ imageUrl img = Some (str "pics/cell.png").
Proof.
  destruct (image_item_round_trip refHost
              (mkItem ItImage [] None None (Some (str "pics/cell.png")) None)
              (str "pics/cell.png") 0 0)
    as (img & beat & H & _ & Hurl & _).
  - reflexivity.
  - reflexivity.
  - intros Hin. vm_compute in Hin.
    repeat (destruct Hin as [Hin | Hin]; [discriminate Hin|]). exact Hin.
  - exists img, beat. auto.
Defined.

(** The heading of [demoSlide] ends within the five seconds of its
    scene. *)
Lemma totalDuration_covers_actions_witness :
  (startTime (demoAction 0) + duration (demoAction 0)
   <=? totalDuration demoScene)%js = true.
Proof.
  apply (totalDuration_covers_actions refHost [demoSlide] (str "Demo")
           demoScene (demoAction 0)).
  - left. reflexivity.
  - left. reflexivity.
Defined.

(** Nothing of [demoScene] is active after six seconds. *)
Lemma no_action_active_after_scene_witness :
  getActiveActions refHost demoScene (Fin 6) (Fin 0) = [].
Proof.
  apply (no_action_active_after_scene refHost [demoSlide] (str "Demo")
           demoScene 5 6).
  - left. reflexivity.
  - reflexivity.
  - lra.
Defined.

(** [emptySlide] is given its narration [Hey] to write. *)
Lemma empty_content_default_text_witness :
  exists w beat : DrawingAction,
    actions (convertSlide refHost 0 emptySlide) = [w; beat]
    /\ text w = Some (str "Hey").
Proof.
  destruct (empty_content_default_text refHost 0 emptySlide)
    as (txt & Hv & _ & Hact).
  - right. reflexivity.
  - assert (Htxt : txt = str "Hey").
    { apply (Hv (str "Hey") eq_refl); [discriminate|].
      repeat (apply Forall_cons; [reflexivity|]). apply Forall_nil. }
    subst txt.
    destruct (Hact eq_refl) as (w & beat & H & _ & Ht & _).
    exists w, beat. split; [exact H | exact Ht].
Defined.

(** The text of one space of [blankSlide] is written at 0.3 in no
    time: at 0.3 its hand has no abscissa. *)
Lemma getActionState_instant_witness :
  exists pos : Position,
    handPosition
      (getActionState refHost
         (nth 0 (actions (convertSlide refHost 0 blankSlide))
              (bareAction pause (Fin 0) (Fin 0)))
         (Fin 0.3) (Fin 0))
    = Some pos
    /\ px pos = NaN.
Proof.
  apply (getActionState_instant refHost
           (nth 0 (actions (convertSlide refHost 0 blankSlide))
                (bareAction pause (Fin 0) (Fin 0)))
           0.3 0 0.3 0 eq_refl eq_refl (Qle_refl 0))
    with (txt := [space]) (p := mkPosition (Fin 960) (Fin 540)).
  - reflexivity.
  - reflexivity.
  - reflexivity.
  - reflexivity.
  - reflexivity.
  - intros m H. injection H as <-. reflexivity.
  - discriminate.
Defined.

(** [plainArrow] one second before its start. *)
Lemma no_hand_outside_window_witness :
  handPosition (getActionState refHost plainArrow (Fin 1) (Fin 0)) = None.
Proof.
  apply (proj1 (no_hand_outside_window refHost plainArrow) 2 4 1 0).
  - reflexivity.
  - reflexivity.
  - left. lra.
Defined.

(** [demoImage] halfway: the hand is at the centre of the image. *)
Lemma image_hand_diagonal_witness :
  exists pos : Position,
    handPosition (getActionState refHost demoImage (Fin 2) (Fin 0)) = Some pos
    /\ (px pos =~ Fin (960 - 640 / 2 + 640 * ((2 - (0 + 1)) / 2.0)))%js
    /\ (py pos =~ Fin (540 - 480 / 2 + 480 * ((2 - (0 + 1)) / 2.0)))%js.
Proof.
  destruct (image_hand_diagonal refHost demoImage 960 540 640 480 1 2.0 2 0)
    as (pos & Hp & _ & Hx & Hy & _).
  - reflexivity.
  - reflexivity.
  - reflexivity.
  - discriminate.
  - reflexivity.
  - reflexivity.
  - reflexivity.
  - reflexivity.
  - lra.
  - split; lra.
  - exists pos. auto.
Defined.

(** The heading of [demoSlide] on the reference host, which measures no
    path: at half a second the hand is estimated from the characters. *)
Lemma write_hand_fallback_witness :
  exists (pos : Position) (shown : Z),
    handPosition (getActionState refHost (demoAction 0) (Fin 0.5) (Fin 0))
    = Some pos
    /\ (0 <= shown <= 2)%Z
    /\ (px pos =~ Fin (960 + inject_Z shown * (48 * 0.6)))%js
    /\ (py pos =~ Fin (540 + 48 / 2))%js.
Proof.
  destruct (write_hand_fallback refHost (demoAction 0) (str "Hi")
              960 540 48 0.3 0.5200000 0.5 0)
    as (pos & shown & Hp & _ & Hs & _ & _ & Hx & Hy).
  - intros p dur. reflexivity.
  - reflexivity.
  - reflexivity.
  - reflexivity.
  - reflexivity.
  - discriminate.
  - reflexivity.
  - reflexivity.
  - lra.
  - split; lra.
  - exists pos, shown. auto.
Defined.


(** [plainArrow] on a path of length 100, at times 3 and 5. *)
Lemma dash_offset_shrinks_witness :
  exists o1 o2 : Q,
    snd (getStrokeDashProperties (Fin 100)
           (currentProgress (getActionState refHost plainArrow (Fin 3) (Fin 0))))
    = Fin o1
    /\ snd (getStrokeDashProperties (Fin 100)
              (currentProgress
                 (getActionState refHost plainArrow (Fin 5) (Fin 0))))
       = Fin o2
    /\ o2 <= o1.
Proof.
  destruct (dash_offset_shrinks refHost plainArrow 2 4 0 100 3 5)
    as (o1 & o2 & H1 & H2 & _ & Hle & _).
  - reflexivity.
  - reflexivity.
  - lra.
  - lra.
  - lra.
  - exists o1, o2. auto.
Defined.
